(** * SRA accession resolution: batch scheduler, retry rounds and cache

    A shallow embedding of [sra_id_converter.py] (the resolution engine:
    [convert_sra_ids], [process_in_batches], [process_srp_id],
    [process_erp_id] and the lookup chains below them), of
    [_retry_response], [get_retmax] and [batch_srx_to_gsm] from
    [srx_to_gsm_standalone.py], and of [read_sra_ids_from_file] and
    [process_sra_ids] from [sra_batch_processor.py].

    Modelling decisions, all of them read off the Python source:
    - a Python [dict] keyed by accession is a [gmap string _], a [set] of
      accessions a [gset string]; [list(set(..))] enumerates the set in an
      order chosen by the interpreter, which the model takes from the
      environment ([set_order]);
    - the network is an oracle: every HTTP-backed lookup method is
      represented by the value it hands back (or by the fact that it fell
      through), indexed by the retry round and the accession, the pair that
      identifies one invocation of the per-id function inside one call of
      [process_in_batches];
    - observable effects (submissions to the worker pool, sleeps, progress
      callbacks, warnings) are written to an event trace; Python exceptions
      that the code does not catch end the computation with the trace
      produced so far;
    - the cache file lives in a file system that maps a path to either a
      JSON object of records or to content that [json.load] rejects;
    - [srx_to_gsm] is an oracle like the lookup methods: what one call
      hands back for the batch it is given;
    - of the log records only the ones [Event] names are part of a trace;
      [print] and [logger.info] leave no event. *)

From Stdlib Require Import ZArith QArith String Ascii Sorted.
From stdpp Require Import gmap strings list fin_maps sets.
Set Warnings "-clear-no-such-hyp".
Close Scope Q_scope.
Open Scope string_scope.
Open Scope list_scope.
Open Scope Z_scope.

(** ** Data model *)

(** The two-field record [{'bioproject_id': .., 'geo_id': ..}]. *)
Record ResolutionResult : Type := mkResult {
  bioproject_id : string;
  geo_id : string
}.

#[global] Instance ResolutionResult_eq_dec : EqDecision ResolutionResult.
Proof. solve_decision. Defined.

(** [{'bioproject_id': '', 'geo_id': ''}] *)
Definition empty_result : ResolutionResult := mkResult "" "".

(** An [Optional[str]] value. *)
Definition pyval : Type := option string.

(** Python truthiness of a [str]: non-empty. *)
Definition nonempty (s : string) : bool :=
  match s with EmptyString => false | String _ _ => true end.

(** Python truthiness of an [Optional[str]]. *)
Definition truthy (v : pyval) : bool :=
  match v with Some s => nonempty s | None => false end.

(** ** Exceptions, events and the effect monad *)

Inductive PyExc : Type :=
| ValueError (msg : string)
| RequestException
| SystemExit (code : Z).

Inductive Warning : Type :=
| CacheLoadError (path : string)
| UnknownFormat (n : nat) (first5 : list string)
| FailedAfterRetries (n : nat) (retries : Z)
| CacheWriteError (path : string).

Inductive Event : Type :=
| Submit (round : nat) (sid : string)
| Sleep (seconds : Q)
| Progress (processed : Z)
| LogWarning (w : Warning)
| LogError (sid : string)
| HttpGet (url : string)
| StderrWrite (msg : string).

(** A computation yields the events it produced and either an uncaught
    exception or a value. *)
Definition M (A : Type) : Type := (list Event * (PyExc + A))%type.

Definition ret {A} (a : A) : M A := ([], inr a).

Definition bind {A B} (m : M A) (k : A → M B) : M B :=
  match m with
  | (t, inl e) => (t, inl e)
  | (t, inr a) => let '(t', r) := k a in (t ++ t', r)
  end.

Definition tell (es : list Event) : M unit := (es, inr tt).

Definition raise {A} (e : PyExc) : M A := ([], inl e).

Definition when (b : bool) (m : M unit) : M unit := if b then m else ret tt.

Notation "'let*' x ':=' m 'in' k" := (bind m (λ x, k))
  (at level 10, x pattern, m at level 100, k at level 200, only parsing).
Notation "m ;;; k" := (bind m (λ _, k))
  (at level 100, k at level 200, right associativity, only parsing).

Fixpoint foldM {A B} (f : A → B → M A) (a : A) (l : list B) : M A :=
  match l with
  | [] => ret a
  | x :: l' => let* a' := f a x in foldM f a' l'
  end.

Definition trace {A} (m : M A) : list Event := fst m.
Definition outcome {A} (m : M A) : PyExc + A := snd m.

(** [time.sleep(d)]: a negative argument raises [ValueError]. *)
Definition sleep (d : Q) : M unit :=
  if Qle_bool 0 d then tell [Sleep d]
  else raise (ValueError "sleep length must be non-negative").

(** [range(start, stop, step)], as the list of its elements. *)
Definition py_range (start stop step : Z) : M (list Z) :=
  if step =? 0 then raise (ValueError "range() arg 3 must not be zero")
  else
    let n := if 0 <? step then (stop - start + step - 1) / step
             else (start - stop - step - 1) / (- step) in
    ret ((λ k : nat, start + Z.of_nat k * step) <$> seq 0 (Z.to_nat n)).

(** [l[i:j]] for [0 <= i]; the scheduler never slices with a negative
    index. *)
Definition slice {A} (l : list A) (i j : Z) : list A :=
  take (Z.to_nat (j - i)) (drop (Z.to_nat i) l).

(** [len(l)] *)
Definition len {A} (l : list A) : Z := Z.of_nat (length l).

(** ** The retry/backoff executor: [process_in_batches] *)

(** What one future yields: the record returned by the per-id function, or
    an exception raised inside the worker. *)
Inductive Outcome : Type :=
| Returned (r : ResolutionResult)
| Raised.

(** [result.get('bioproject_id') or result.get('geo_id')] *)
Definition is_success (r : ResolutionResult) : bool :=
  nonempty (bioproject_id r) || nonempty (geo_id r).

Section process_in_batches.
(** enumeration order of [list(failed_ids)] and of [for sid in failed_ids] *)
Variable order : gset string → list string.
(** [process_func], observed at retry round [round] on id [sid] *)
Variable process_func : nat → string → Outcome.
Variables (batch_size max_workers : Z) (delay_between_batches : Q).
Variables (max_retries : Z) (retry_delay : Q) (progress_callback : bool).

(** The body of [for future in future_to_id] (source lines 247-257):
    state is [(batch_results, batch_failed_ids)]. *)
Definition collect (round : nat)
    (st : gmap string ResolutionResult * gset string) (sid : string)
    : M (gmap string ResolutionResult * gset string) :=
  let '(batch_results, batch_failed_ids) := st in
  match process_func round sid with
  | Returned result =>
      if is_success result
      then ret (<[sid := result]> batch_results, batch_failed_ids)
      else ret (batch_results, {[sid]} ∪ batch_failed_ids)
  | Raised =>
      tell [LogError sid];;;
      ret (batch_results, {[sid]} ∪ batch_failed_ids)
  end.

(** The body of [for i in range(0, len(current_ids), batch_size)]
    (source lines 240-269): state is
    [(results, batch_failed_ids, total_processed)]. *)
Definition run_batch (round : nat) (current_ids : list string)
    (st : gmap string ResolutionResult * gset string * Z) (i : Z)
    : M (gmap string ResolutionResult * gset string * Z) :=
  let '(results, batch_failed_ids, total_processed) := st in
  let batch := slice current_ids i (i + batch_size) in
  (* ThreadPoolExecutor(max_workers=max_workers) *)
  when (max_workers <=? 0)
       (raise (ValueError "max_workers must be greater than 0"));;;
  tell (Submit round <$> batch);;;
  let* (batch_results, batch_failed_ids) :=
    foldM (collect round) (∅, batch_failed_ids) batch in
  (* results.update(batch_results) *)
  let results := batch_results ∪ results in
  let batch_processed :=
    len batch
    - Z.of_nat (size (batch_failed_ids ∩ (list_to_set batch : gset string))) in
  let total_processed := total_processed + batch_processed in
  when (progress_callback && (0 <? batch_processed))
       (tell [Progress total_processed]);;;
  when (i + batch_size <? len current_ids) (sleep delay_between_batches);;;
  ret (results, batch_failed_ids, total_processed).

(** One iteration of the [while] loop (source lines 232-272); yields the
    new [results], the new [failed_ids] and [total_processed]. *)
Definition run_round (retry_count : nat) (failed_ids : gset string)
    (results : gmap string ResolutionResult) (total_processed : Z)
    : M (gmap string ResolutionResult * gset string * Z) :=
  when (0 <? Z.of_nat retry_count) (sleep retry_delay);;;
  let current_ids := order failed_ids in
  let* idxs := py_range 0 (len current_ids) batch_size in
  foldM (run_batch retry_count current_ids) (results, ∅, total_processed) idxs.

(** [failed_ids and retry_count <= max_retries] *)
Definition loop_guard (retry_count : nat) (failed_ids : gset string) : bool :=
  bool_decide (failed_ids ≠ ∅) && (Z.of_nat retry_count <=? max_retries).

(** The [while] loop, unrolled at most [fuel] times. *)
Fixpoint while_loop (fuel : nat) (retry_count : nat)
    (failed_ids : gset string)
    (results : gmap string ResolutionResult) (total_processed : Z)
    : M (gmap string ResolutionResult * gset string * Z) :=
  match fuel with
  | O => ret (results, failed_ids, total_processed)
  | S fuel' =>
      if loop_guard retry_count failed_ids then
        let* (results, failed_ids, total_processed) :=
          run_round retry_count failed_ids results total_processed in
        while_loop fuel' (S retry_count) failed_ids results total_processed
      else ret (results, failed_ids, total_processed)
  end.

(** The number of iterations the guard can allow from [retry_count] on. *)
Definition rounds_left (retry_count : nat) : nat :=
  Z.to_nat (max_retries + 1 - Z.of_nat retry_count).

(** [for sid in failed_ids: results[sid] = {'bioproject_id': '', 'geo_id': ''}] *)
Definition add_empty_results (failed_ids : gset string)
    (results : gmap string ResolutionResult) : gmap string ResolutionResult :=
  foldl (λ acc sid, <[sid := empty_result]> acc) results (order failed_ids).

Definition process_in_batches (ids : list string)
    : M (gmap string ResolutionResult) :=
  let* (results, failed_ids, _) :=
    while_loop (rounds_left 0) 0 (list_to_set ids) ∅ 0 in
  if bool_decide (failed_ids ≠ ∅) then
    tell [LogWarning (FailedAfterRetries (size failed_ids) max_retries)];;;
    ret (add_empty_results failed_ids results)
  else ret results.

End process_in_batches.

(** ** Source strategies *)

(** [KNOWN_MAPPINGS] is a module-level table ([{}] in the repository, meant
    to be seeded); every function that reads it takes it as an argument. *)

(** The network side of one invocation of [process_srp_id]: the value each
    Entrez-backed lookup hands back ([None] also when an exception was
    caught and logged inside it). *)
Record SrpResponses : Type := {
  (** [get_bioproject_from_srp], as called by [process_srp_id] *)
  sra_bioproject : pyval;
  (** the same lookup, issued again inside [get_gse_from_srp] *)
  sra_bioproject_again : pyval;
  (** the GEO search, summary and fetch steps of [get_gse_from_srp] *)
  gds_accession : pyval
}.

Definition get_bioproject_from_srp (KNOWN_MAPPINGS : gmap string ResolutionResult)
    (net : pyval) (srp_id : string) : pyval :=
  match KNOWN_MAPPINGS !! srp_id with
  | Some known => Some (bioproject_id known)
  | None => net
  end.

Definition get_gse_from_srp (KNOWN_MAPPINGS : gmap string ResolutionResult)
    (net : SrpResponses) (srp_id : string) : pyval :=
  match KNOWN_MAPPINGS !! srp_id with
  | Some known => Some (geo_id known)
  | None =>
      let bioproject := get_bioproject_from_srp KNOWN_MAPPINGS
                          (sra_bioproject_again net) srp_id in
      if truthy bioproject then gds_accession net else None
  end.

Definition process_srp_id (KNOWN_MAPPINGS : gmap string ResolutionResult)
    (net : SrpResponses) (srp_id : string) : ResolutionResult :=
  let result := empty_result in
  let bioproject := get_bioproject_from_srp KNOWN_MAPPINGS
                      (sra_bioproject net) srp_id in
  let result :=
    if truthy bioproject
    then mkResult (default "" bioproject) (geo_id result) else result in
  let gse := get_gse_from_srp KNOWN_MAPPINGS net srp_id in
  if truthy gse then mkResult (bioproject_id result) (default "" gse)
  else result.

(** One lookup method of a fallback chain: [None] when it fell through to
    the next method (request failed, status not 200, body malformed, nothing
    matched), [Some v] when it executed [return v]. *)
Definition step : Type := option pyval.

(** The three network methods of [get_bioproject_from_erp]. *)
Record BioprojectSteps : Type := {
  portal_filereport : step;
  browser_xml : step;
  portal_study : step
}.

(** The seven network methods of [get_arrayexpress_from_erp]. *)
Record ArrayExpressSteps : Type := {
  biostudies_by_erp : step;
  biostudies_by_bioproject : step;
  xref_by_erp : step;
  xref_by_bioproject : step;
  portal_links : step;
  ebi_search : step;
  biostudies_listing : step
}.

(** The network side of one invocation of [process_erp_id]. *)
Record ErpResponses : Type := {
  bioproject_steps : BioprojectSteps;
  (** [get_bioproject_from_erp] is called again by
      [get_arrayexpress_from_erp] *)
  bioproject_steps_again : BioprojectSteps;
  arrayexpress_steps : ArrayExpressSteps
}.

Definition is_digit (c : ascii) : bool :=
  let n := Z.of_nat (nat_of_ascii c) in (48 <=? n) && (n <=? 57).

(** The longest run of digits at the start of [s]: the greedy [\d+]. *)
Fixpoint digits_prefix (s : string) : string :=
  match s with
  | String c s' => if is_digit c then String c (digits_prefix s') else ""
  | EmptyString => ""
  end.

(** [re.search(r'ERP(\d+)', s)]: group 1 of the leftmost match, over ASCII
    accessions. *)
Fixpoint re_search_ERP (s : string) : option string :=
  match s with
  | EmptyString => None
  | String _ s' =>
      if String.prefix "ERP" s then
        match digits_prefix (String.substring 3 (String.length s - 3) s) with
        | EmptyString => re_search_ERP s'
        | d => Some d
        end
      else re_search_ERP s'
  end.

(** Try the methods in order; the first one that returns decides. *)
Fixpoint first_return (chain : list step) : step :=
  match chain with
  | [] => None
  | Some v :: _ => Some v
  | None :: rest => first_return rest
  end.

Definition get_bioproject_from_erp (KNOWN_MAPPINGS : gmap string ResolutionResult)
    (net : BioprojectSteps) (erp_id : string) : pyval :=
  match KNOWN_MAPPINGS !! erp_id with
  | Some known => Some (bioproject_id known)
  | None =>
      match first_return [portal_filereport net; browser_xml net; portal_study net] with
      | Some v => v
      | None =>
          (* "If all API queries fail, try the standard conversion" *)
          match re_search_ERP erp_id with
          | None => None
          | Some digits => Some ("PRJEB" +:+ digits)
          end
      end
  end.

Definition get_arrayexpress_from_erp (KNOWN_MAPPINGS : gmap string ResolutionResult)
    (net : ErpResponses) (erp_id : string) : pyval :=
  match KNOWN_MAPPINGS !! erp_id with
  | Some known => Some (geo_id known)
  | None =>
      let bioproject := get_bioproject_from_erp KNOWN_MAPPINGS
                          (bioproject_steps_again net) erp_id in
      if truthy bioproject then
        let ae := arrayexpress_steps net in
        match first_return [biostudies_by_erp ae; biostudies_by_bioproject ae;
                            xref_by_erp ae; xref_by_bioproject ae;
                            portal_links ae; ebi_search ae;
                            biostudies_listing ae] with
        | Some v => v
        | None => None
        end
      else None
  end.

Definition process_erp_id (KNOWN_MAPPINGS : gmap string ResolutionResult)
    (net : ErpResponses) (erp_id : string) : ResolutionResult :=
  match KNOWN_MAPPINGS !! erp_id with
  | Some known => known
  | None =>
      let result := empty_result in
      let bioproject := get_bioproject_from_erp KNOWN_MAPPINGS
                          (bioproject_steps net) erp_id in
      let result :=
        if truthy bioproject
        then mkResult (default "" bioproject) (geo_id result) else result in
      let ae := get_arrayexpress_from_erp KNOWN_MAPPINGS net erp_id in
      if truthy ae then mkResult (bioproject_id result) (default "" ae)
      else result
  end.

(** ** Cache store and batch scheduler: [convert_sra_ids] *)

Inductive FileContent : Type :=
| NotJson
| JsonObject (entries : gmap string ResolutionResult).

(** What happens in [open(cache_path, 'w')] followed by [json.dump]. *)
Inductive WriteOutcome : Type :=
| WriteOk
| OpenFails
| DumpFails.

(** Everything one call of [convert_sra_ids] takes from its environment. *)
Record World : Type := {
  set_order : gset string → list string;
  srp_net : nat → string → SrpResponses;
  erp_net : nat → string → ErpResponses;
  cache_write : WriteOutcome
}.

(** Python iterates a set over each of its elements once. *)
Definition order_ok (order : gset string → list string) : Prop :=
  ∀ X, order X ≡ₚ elements X.

Record Config : Type := {
  batch_size : Z;
  max_workers : Z;
  delay_between_batches : Q;
  cache_file : option string;
  max_retries : Z;
  retry_delay : Q;
  progress_callback : bool
}.

(** The keyword defaults of [convert_sra_ids]. *)
Definition default_config : Config := {|
  batch_size := 5; max_workers := 2; delay_between_batches := (2 # 1)%Q;
  cache_file := None; max_retries := 3; retry_delay := (5 # 1)%Q;
  progress_callback := false
|}.

(** The path behind [if cache_file:], when that test passes. *)
Definition cache_path (cfg : Config) : option string :=
  match cache_file cfg with
  | Some p => if nonempty p then Some p else None
  | None => None
  end.

(** Source lines 139-148. *)
Definition load_cache (cfg : Config) (fs : gmap string FileContent)
    : M (gmap string ResolutionResult) :=
  match cache_path cfg with
  | Some p =>
      match fs !! p with
      | None => ret ∅
      | Some (JsonObject cache) => ret cache
      | Some NotJson => tell [LogWarning (CacheLoadError p)];;; ret ∅
      end
  | None => ret ∅
  end.

(** The body of [for sra_id in unique_sra_ids] (source lines 152-158):
    state is [(results, remaining_ids)]. *)
Definition short_circuit (KNOWN_MAPPINGS cache : gmap string ResolutionResult)
    (cache_on : bool)
    (st : gmap string ResolutionResult * list string) (sra_id : string)
    : gmap string ResolutionResult * list string :=
  let '(results, remaining_ids) := st in
  match KNOWN_MAPPINGS !! sra_id with
  | Some r => (<[sra_id := r]> results, remaining_ids)
  | None =>
      match (if cache_on then cache !! sra_id else None) with
      | Some r => (<[sra_id := r]> results, remaining_ids)
      | None => (results, remaining_ids ++ [sra_id])
      end
  end.

Definition is_srp (sid : string) : bool := String.prefix "SRP" sid.
Definition is_erp (sid : string) : bool := String.prefix "ERP" sid.
Definition is_other (sid : string) : bool := negb (is_srp sid || is_erp sid).

(** Source lines 192-200. *)
Definition save_cache (w : World) (cfg : Config)
    (cache results : gmap string ResolutionResult)
    (fs : gmap string FileContent) : M (gmap string FileContent) :=
  match cache_path cfg with
  | Some p =>
      (* cache.update(results) *)
      let cache := results ∪ cache in
      match cache_write w with
      | WriteOk => ret (<[p := JsonObject cache]> fs)
      | OpenFails => tell [LogWarning (CacheWriteError p)];;; ret fs
      | DumpFails =>
          tell [LogWarning (CacheWriteError p)];;; ret (<[p := NotJson]> fs)
      end
  | None => ret fs
  end.

(** [{sra_id: results.get(sra_id, {'bioproject_id': '', 'geo_id': ''})
      for sra_id in sra_ids}] *)
Definition final_output (results : gmap string ResolutionResult)
    (sra_ids : list string) : gmap string ResolutionResult :=
  foldl (λ out sra_id, <[sra_id := default empty_result (results !! sra_id)]> out)
        ∅ sra_ids.

Definition convert_sra_ids (KNOWN_MAPPINGS : gmap string ResolutionResult)
    (w : World) (cfg : Config) (fs : gmap string FileContent)
    (sra_ids : list string)
    : M (gmap string ResolutionResult * gmap string FileContent) :=
  let unique_sra_ids := set_order w (list_to_set sra_ids) in
  let results : gmap string ResolutionResult := ∅ in
  let* cache := load_cache cfg fs in
  let '(results, remaining_ids) :=
    foldl (short_circuit KNOWN_MAPPINGS cache (bool_decide (is_Some (cache_path cfg))))
          (results, []) unique_sra_ids in
  let processed_count := len unique_sra_ids - len remaining_ids in
  when (progress_callback cfg && (0 <? processed_count))
       (tell [Progress processed_count]);;;
  let srp_ids := filter (λ sid, is_srp sid = true) remaining_ids in
  let erp_ids := filter (λ sid, is_erp sid = true) remaining_ids in
  let other_ids := filter (λ sid, is_other sid = true) remaining_ids in
  when (bool_decide (other_ids ≠ []))
       (tell [LogWarning (UnknownFormat (length other_ids) (take 5 other_ids))]);;;
  let batches process_func ids :=
    process_in_batches (set_order w) process_func (batch_size cfg)
      (max_workers cfg) (delay_between_batches cfg) (max_retries cfg)
      (retry_delay cfg) (progress_callback cfg) ids in
  let* results :=
    if bool_decide (srp_ids ≠ []) then
      let* batch_results :=
        batches (λ round sid,
                   Returned (process_srp_id KNOWN_MAPPINGS (srp_net w round sid) sid))
                srp_ids in
      ret (batch_results ∪ results)
    else ret results in
  let* results :=
    if bool_decide (erp_ids ≠ []) then
      let* batch_results :=
        batches (λ round sid,
                   Returned (process_erp_id KNOWN_MAPPINGS (erp_net w round sid) sid))
                erp_ids in
      ret (batch_results ∪ results)
    else ret results in
  let* fs := save_cache w cfg cache results fs in
  ret (final_output results sra_ids, fs).

(** ** Request helpers *)

(** What the server answers to one GET, as far as [_retry_response] looks
    at it. *)
Record JsonResponse : Type := {
  has_key : bool;     (* [key in response] *)
  has_error : bool;   (* ["error" in response] *)
  body : string
}.

Inductive HttpReply : Type :=
| ConnectionFailed                 (* [requests.get] raises *)
| BodyNotJson                      (* [request.json()] raises JSONDecodeError *)
| BodyJson (r : JsonResponse).

(** The [for i in range(max_retries)] loop of [_retry_response], from
    iteration [i] on, with [remaining] iterations to go; [None] when the
    loop ran to its end. *)
Fixpoint retry_from (reply : nat → HttpReply) (base_url : string)
    (i remaining : nat) : M (option JsonResponse) :=
  match remaining with
  | O => ret None
  | S remaining' =>
      sleep (inject_Z (2 ^ Z.of_nat i));;;
      tell [HttpGet base_url];;;
      match reply i with
      | ConnectionFailed => raise RequestException
      | BodyNotJson => retry_from reply base_url (S i) remaining'
      | BodyJson r =>
          if has_key r && negb (has_error r) then ret (Some r)
          else retry_from reply base_url (S i) remaining'
      end
  end.

(** [_retry_response(base_url, payload, key, max_retries=10)] of
    [srx_to_gsm_standalone.py]; [reply i] is the server's answer to the
    request of iteration [i]. *)
Definition _retry_response (reply : nat → HttpReply) (base_url : string)
    (max_retries : Z) : M JsonResponse :=
  let* found := retry_from reply base_url 0 (Z.to_nat max_retries) in
  match found with
  | Some response => ret response
  | None =>
      tell [StderrWrite "Failed to get response after retries"];;;
      raise (SystemExit 1)
  end.


(** ** Batched SRX to GSM conversion: [batch_srx_to_gsm] *)

(** What one call of [srx_to_gsm] hands back: an exception that leaves it,
    [None], or a frame of [(experiment_accession, experiment_alias)]
    rows. *)
Definition SrxReply : Type := (PyExc + option (list (string * string)))%type.

(** [dict(zip(keys, values))]: a later pair replaces an earlier one with
    the same key. *)
Definition dict_zip (rows : list (string * string)) : gmap string string :=
  foldl (λ d row, <[row.1 := row.2]> d) ∅ rows.

Section batch_srx_to_gsm.
(** enumeration order of [list(set(srx_list))] *)
Variable order : gset string → list string.
(** [srx_to_gsm(batch, api_key=api_key)], as observed on [batch] *)
Variable srx_to_gsm : list string → SrxReply.
Variables (batch_size : Z) (api_key : option string).

(** The body of [for i in range(0, len(unique_srx), batch_size)]
    (source lines 61-76 of [srx_to_gsm_standalone.py]): state is
    [results_dfs]. *)
Definition srx_batch (unique_srx : list string)
    (results_dfs : list (list (string * string))) (i : Z)
    : M (list (list (string * string))) :=
  let batch := slice unique_srx i (i + batch_size) in
  let* batch_result :=
    match srx_to_gsm batch with
    | inl e => raise e
    | inr r => ret r
    end in
  let results_dfs :=
    match batch_result with
    | Some df => if bool_decide (df ≠ []) then results_dfs ++ [df] else results_dfs
    | None => results_dfs
    end in
  when (i + batch_size <? len unique_srx)
       (let delay := match api_key with None => (3 # 1)%Q | Some _ => (1 # 1)%Q end in
        sleep delay);;;
  ret results_dfs.

(** The returned frame: rows of [(experiment_accession, experiment_alias)],
    the alias being [None] where [result_dict.get] finds nothing; the frame
    without rows is [[]]. *)
Definition batch_srx_to_gsm (srx_list : list string)
    : M (list (string * option string)) :=
  let unique_srx := order (list_to_set srx_list) in
  let* idxs := py_range 0 (len unique_srx) batch_size in
  let* results_dfs := foldM (srx_batch unique_srx) [] idxs in
  if bool_decide (results_dfs = []) then ret []
  else
    (* pd.concat(results_dfs, ignore_index=True) *)
    let combined_df := concat results_dfs in
    let result_dict := dict_zip combined_df in
    ret ((λ srx, (srx, result_dict !! srx)) <$> srx_list).

End batch_srx_to_gsm.

(** [get_retmax(n_records, retmax=500)] of [srx_to_gsm_standalone.py]: the
    [retstart] offsets of the summary requests. *)
Definition get_retmax (n_records retmax : Z) : M (list Z) :=
  py_range 0 n_records retmax.

(** ** The batch front end: [sra_batch_processor.py] *)






(** What leaves [process_sra_ids]: an exception of [convert_sra_ids], or
    the [ZeroDivisionError] of its summary. *)
Inductive BatchExc : Type :=
| Propagated (e : PyExc)
| ZeroDivisionError.

(** [except Exception] catches everything but [SystemExit]. *)
Definition is_Exception (e : PyExc) : bool :=
  match e with
  | SystemExit _ => false
  | _ => true
  end.

Definition with_progress (cfg : Config) (callback : bool) : Config :=
  {| batch_size := batch_size cfg; max_workers := max_workers cfg;
     delay_between_batches := delay_between_batches cfg;
     cache_file := cache_file cfg; max_retries := max_retries cfg;
     retry_delay := retry_delay cfg; progress_callback := callback |}.

(** [process_sra_ids] (source lines 62-151 of [sra_batch_processor.py]).
    The first call of [convert_sra_ids] runs in world [w1]; the call of the
    [except] branch, if it comes to that, in world [w2]. The progress bar
    is the consumer of the [Progress] events. The result carries the file
    system as the call leaves it, also when it raises. *)
Definition process_sra_ids (KNOWN_MAPPINGS : gmap string ResolutionResult)
    (w1 w2 : World) (cfg : Config) (show_progress : bool)
    (fs : gmap string FileContent) (sra_ids : list string)
    : list Event * gmap string FileContent
      * (BatchExc + gmap string ResolutionResult) :=
  let '(tr, converted) :=
    if show_progress then
      match convert_sra_ids KNOWN_MAPPINGS w1 (with_progress cfg true) fs sra_ids with
      | (t1, inl e) =>
          if is_Exception e then
            (* "Fall back to no progress bar" *)
            let '(t2, r) :=
              convert_sra_ids KNOWN_MAPPINGS w2 (with_progress cfg false) fs sra_ids in
            (t1 ++ t2, r)
          else (t1, inl e)
      | (t1, inr r) => (t1, inr r)
      end
    else convert_sra_ids KNOWN_MAPPINGS w1 (with_progress cfg false) fs sra_ids in
  match converted with
  | inl e => (tr, fs, inl (Propagated e))
  | inr (results, fs') =>
      (* bioproject_count/len(sra_ids)*100 *)
      if len sra_ids =? 0 then (tr, fs', inl ZeroDivisionError)
      else (tr, fs', inr results)
  end.

(** ** Vocabulary of the statements *)

(** The record a future contributes when it counts as a success. *)
Definition attempt_ok (process_func : nat → string → Outcome)
    (round : nat) (sid : string) : option ResolutionResult :=
  match process_func round sid with
  | Returned r => if is_success r then Some r else None
  | Raised => None
  end.

(** Projections of a trace. *)
Definition submits (tr : list Event) : list (nat * string) :=
  omap (λ e, match e with Submit k sid => Some (k, sid) | _ => None end) tr.

Definition progress_values (tr : list Event) : list Z :=
  omap (λ e, match e with Progress n => Some n | _ => None end) tr.

Definition sleeps (tr : list Event) : list Q :=
  omap (λ e, match e with Sleep d => Some d | _ => None end) tr.

(** How many times the per-id function was invoked on [sid]. *)
Definition invocations (sid : string) (tr : list Event) : nat :=
  length (filter (λ p, p.2 = sid) (submits tr)).

(** [vs] is strictly increasing, starts above [lo] and ends at most at
    [hi]. *)
Fixpoint climbs (lo : Z) (vs : list Z) (hi : Z) : Prop :=
  match vs with
  | [] => lo <= hi
  | v :: vs' => lo < v ∧ climbs v vs' hi
  end.

(** The events of one round of [process_in_batches]: every submission
    carries the round's number, a retry round opens with a sleep of
    [retry_delay], and every other sleep is the inter-batch delay. *)
Definition round_shape (delay_between_batches retry_delay : Q)
    (round : nat) (rt : list Event) : Prop :=
  (∀ k sid, (k, sid) ∈ submits rt → k = round) ∧
  match round with
  | O => ∀ d, d ∈ sleeps rt → d = delay_between_batches
  | S _ => ∃ rest, rt = Sleep retry_delay :: rest ∧
                   ∀ d, d ∈ sleeps rest → d = delay_between_batches
  end.

(** What the [while] loop of [process_in_batches] has done when it leaves
    with state [(res', F', total')], having entered at round [k] with
    state [(res, F, total)] and produced the round traces [rts]. *)
Definition loop_post (process_func : nat → string → Outcome)
    (delay_between_batches : Q) (max_retries : Z) (retry_delay : Q)
    (fuel k : nat) (F : gset string) (res : gmap string ResolutionResult)
    (total : Z) (rts : list (list Event))
    (res' : gmap string ResolutionResult) (F' : gset string) (total' : Z)
    : Prop :=
  (length rts ≤ fuel)%nat ∧
  (∀ i rt, rts !! i = Some rt →
     round_shape delay_between_batches retry_delay (k + i) rt) ∧
  climbs total (progress_values (concat rts)) total' ∧
  (∀ j sid, (j, sid) ∈ submits (concat rts) →
     sid ∈ F ∧ (k ≤ j)%nat ∧ (Z.of_nat j ≤ max_retries)) ∧
  (∀ sid, (invocations sid (concat rts) ≤ fuel)%nat) ∧
  (∀ j sid, (k ≤ j)%nat → (S j, sid) ∈ submits (concat rts) →
     (j, sid) ∈ submits (concat rts) ∧ attempt_ok process_func j sid = None) ∧
  F' ⊆ F ∧
  (∀ sid, sid ∉ F ∨ sid ∈ F' → res' !! sid = res !! sid) ∧
  (∀ j sid r, (j, sid) ∈ submits (concat rts) →
     attempt_ok process_func j sid = Some r →
     res' !! sid = Some r ∧ (sid ∉ F') ∧
     ∀ j', (j < j')%nat → (j', sid) ∉ submits (concat rts)) ∧
  (∀ sid, sid ∈ F → sid ∉ F' →
     ∃ j r, (j, sid) ∈ submits (concat rts) ∧ attempt_ok process_func j sid = Some r) ∧
  (∀ sid, sid ∈ F → (0 < fuel)%nat → Z.of_nat k ≤ max_retries →
     (k, sid) ∈ submits (concat rts)) ∧
  (∀ j sid, (j, sid) ∈ submits (concat rts) →
     attempt_ok process_func j sid = None →
     Z.of_nat (S j) ≤ max_retries → (S j < k + fuel)%nat →
     (S j, sid) ∈ submits (concat rts)).

(** What one call of [process_in_batches] on [ids] has done when it returns
    [results] after the trace [tr]. *)
Definition batches_post (process_func : nat → string → Outcome)
    (delay_between_batches : Q) (max_retries : Z) (retry_delay : Q)
    (ids : list string) (tr : list Event)
    (results : gmap string ResolutionResult) : Prop :=
  ∃ (rts : list (list Event)) (tail : list Event) (total : Z),
    tr = concat rts ++ tail ∧
    (submits tail = [] ∧ sleeps tail = [] ∧ progress_values tail = []) ∧
    (length rts ≤ Z.to_nat (1 + max_retries))%nat ∧
    (∀ i rt, rts !! i = Some rt →
       round_shape delay_between_batches retry_delay i rt) ∧
    climbs 0 (progress_values tr) total ∧
    (∀ j sid, (j, sid) ∈ submits tr → sid ∈ ids ∧ (Z.of_nat j ≤ max_retries)) ∧
    (∀ sid, (invocations sid tr ≤ Z.to_nat (1 + max_retries))%nat) ∧
    (∀ j sid, (S j, sid) ∈ submits tr →
       (j, sid) ∈ submits tr ∧ attempt_ok process_func j sid = None) ∧
    (∀ j sid r, (j, sid) ∈ submits tr →
       attempt_ok process_func j sid = Some r →
       results !! sid = Some r ∧ ∀ j', (j < j')%nat → (j', sid) ∉ submits tr) ∧
    (∀ sid, sid ∈ ids ↔ is_Some (results !! sid)) ∧
    (∀ sid, sid ∈ ids →
       (∀ j, (j, sid) ∈ submits tr → attempt_ok process_func j sid = None) →
       results !! sid = Some empty_result) ∧
    (∀ sid r, results !! sid = Some r →
       r = empty_result ∨
       ∃ j, (j, sid) ∈ submits tr ∧ attempt_ok process_func j sid = Some r) ∧
    (∀ sid, sid ∈ ids → 0 ≤ max_retries → (O, sid) ∈ submits tr) ∧
    (∀ j sid, (j, sid) ∈ submits tr → attempt_ok process_func j sid = None →
       Z.of_nat (S j) ≤ max_retries → (S j, sid) ∈ submits tr).

(** The requests of a trace, by URL. *)
Definition requests (tr : list Event) : list string :=
  omap (λ e, match e with HttpGet url => Some url | _ => None end) tr.

(** A reply after which [_retry_response] goes on to the next attempt: the
    body is not JSON, or it lacks the key, or it reports an error. *)
Definition transient (reply : HttpReply) : bool :=
  match reply with
  | ConnectionFailed => false
  | BodyNotJson => true
  | BodyJson r => negb (has_key r && negb (has_error r))
  end.



(** Arguments with which no call inside the scheduler raises. *)
Definition sane_config (cfg : Config) : Prop :=
  0 < batch_size cfg ∧ 0 < max_workers cfg ∧
  (0 <= delay_between_batches cfg)%Q ∧ (0 <= retry_delay cfg)%Q.

(** The cache as [convert_sra_ids] sees it after loading. *)
Definition loaded_cache (cfg : Config) (fs : gmap string FileContent)
    : gmap string ResolutionResult :=
  match cache_path cfg with
  | Some p =>
      match fs !! p with
      | Some (JsonObject cache) => cache
      | _ => ∅
      end
  | None => ∅
  end.

(** The record stored for [sid] in the known mappings or, failing that, in
    the loaded cache. *)
Definition stored (KNOWN_MAPPINGS : gmap string ResolutionResult)
    (cfg : Config) (fs : gmap string FileContent) (sid : string)
    : option ResolutionResult :=
  match KNOWN_MAPPINGS !! sid with
  | Some r => Some r
  | None => loaded_cache cfg fs !! sid
  end.


(** The per-id functions [convert_sra_ids] hands to [process_in_batches],
    observed in world [w]. *)
Definition srp_func (KNOWN_MAPPINGS : gmap string ResolutionResult) (w : World)
    : nat → string → Outcome :=
  λ round sid, Returned (process_srp_id KNOWN_MAPPINGS (srp_net w round sid) sid).

Definition erp_func (KNOWN_MAPPINGS : gmap string ResolutionResult) (w : World)
    : nat → string → Outcome :=
  λ round sid, Returned (process_erp_id KNOWN_MAPPINGS (erp_net w round sid) sid).

(** The per-id function that [convert_sra_ids] applies to [sid]. *)
Definition per_id_func (KNOWN_MAPPINGS : gmap string ResolutionResult) (w : World)
    (sid : string) : nat → string → Outcome :=
  if is_srp sid then srp_func KNOWN_MAPPINGS w else erp_func KNOWN_MAPPINGS w.

(** What one call of [convert_sra_ids] has done when it returns [out] and
    leaves the file system [fs'] after the trace [tr]. *)
Definition convert_post (KNOWN_MAPPINGS : gmap string ResolutionResult)
    (w : World) (cfg : Config) (fs : gmap string FileContent)
    (sra_ids : list string) (tr : list Event)
    (out : gmap string ResolutionResult) (fs' : gmap string FileContent)
    : Prop :=
  let unique := set_order w (list_to_set sra_ids) in
  let remaining :=
    filter (λ sid, stored KNOWN_MAPPINGS cfg fs sid = None) unique in
  let srp_ids := filter (λ sid, is_srp sid = true) remaining in
  let erp_ids := filter (λ sid, is_erp sid = true) remaining in
  let other_ids := filter (λ sid, is_other sid = true) remaining in
  let processed_count := len unique - len remaining in
  ∃ t_srp res_srp t_erp res_erp results,
    batches_post (srp_func KNOWN_MAPPINGS w) (delay_between_batches cfg)
      (max_retries cfg) (retry_delay cfg) srp_ids t_srp res_srp ∧
    batches_post (erp_func KNOWN_MAPPINGS w) (delay_between_batches cfg)
      (max_retries cfg) (retry_delay cfg) erp_ids t_erp res_erp ∧
    tr = trace (load_cache cfg fs)
         ++ (if progress_callback cfg && (0 <? processed_count)
             then [Progress processed_count] else [])
         ++ (if bool_decide (other_ids ≠ [])
             then [LogWarning (UnknownFormat (length other_ids) (take 5 other_ids))]
             else [])
         ++ t_srp ++ t_erp
         ++ trace (save_cache w cfg (loaded_cache cfg fs) results fs) ∧
    (∀ sid, results !! sid =
       match stored KNOWN_MAPPINGS cfg fs sid with
       | Some r => if decide (sid ∈ sra_ids) then Some r else None
       | None => if is_srp sid then res_srp !! sid
                 else if is_erp sid then res_erp !! sid else None
       end) ∧
    out = final_output results sra_ids ∧
    outcome (save_cache w cfg (loaded_cache cfg fs) results fs) = inr fs'.

(** Every network method of one [process_erp_id] invocation fell through. *)
Definition all_methods_fail (net : ErpResponses) : Prop :=
  first_return [portal_filereport (bioproject_steps net);
                browser_xml (bioproject_steps net);
                portal_study (bioproject_steps net)] = None ∧
  first_return [portal_filereport (bioproject_steps_again net);
                browser_xml (bioproject_steps_again net);
                portal_study (bioproject_steps_again net)] = None ∧
  first_return [biostudies_by_erp (arrayexpress_steps net);
                biostudies_by_bioproject (arrayexpress_steps net);
                xref_by_erp (arrayexpress_steps net);
                xref_by_bioproject (arrayexpress_steps net);
                portal_links (arrayexpress_steps net);
                ebi_search (arrayexpress_steps net);
                biostudies_listing (arrayexpress_steps net)] = None.

(** Concrete environments used in the examples. *)
Definition no_bioproject : BioprojectSteps :=
  {| portal_filereport := None; browser_xml := None; portal_study := None |}.

Definition no_arrayexpress : ArrayExpressSteps :=
  {| biostudies_by_erp := None; biostudies_by_bioproject := None;
     xref_by_erp := None; xref_by_bioproject := None; portal_links := None;
     ebi_search := None; biostudies_listing := None |}.

Definition erp_unreachable : ErpResponses :=
  {| bioproject_steps := no_bioproject;
     bioproject_steps_again := no_bioproject;
     arrayexpress_steps := no_arrayexpress |}.

Definition srp_unreachable : SrpResponses :=
  {| sra_bioproject := None; sra_bioproject_again := None;
     gds_accession := None |}.

(** A world in which no lookup ever finds anything. *)
Definition dead_world : World :=
  {| set_order := elements;
     srp_net := λ _ _, srp_unreachable;
     erp_net := λ _ _, erp_unreachable;
     cache_write := WriteOk |}.

(** A world in which every SRP lookup finds both identifiers. *)
Definition srp_found : SrpResponses :=
  {| sra_bioproject := Some "PRJNA1"; sra_bioproject_again := Some "PRJNA1";
     gds_accession := Some "GSE1" |}.

Definition live_world : World :=
  {| set_order := elements;
     srp_net := λ _ _, srp_found;
     erp_net := λ _ _, erp_unreachable;
     cache_write := WriteOk |}.

(** A world in which an SRP lookup finds the BioProject id and nothing
    else. *)
Definition srp_partial : SrpResponses :=
  {| sra_bioproject := Some "PRJNA1"; sra_bioproject_again := None;
     gds_accession := None |}.

Definition partial_world : World :=
  {| set_order := elements;
     srp_net := λ _ _, srp_partial;
     erp_net := λ _ _, erp_unreachable;
     cache_write := WriteOk |}.

Definition cached_config : Config :=
  {| batch_size := 5; max_workers := 2; delay_between_batches := (2 # 1)%Q;
     cache_file := Some "cache.json"; max_retries := 2;
     retry_delay := (5 # 1)%Q; progress_callback := true |}.

(** A cache file, edited by hand, that holds a record for an accession
    with an unrecognized prefix. *)
Definition seeded_fs : gmap string FileContent :=
  {["cache.json" := JsonObject {["XYZ123" := mkResult "PRJNA1" "GSE1"]}]}.

(** A cache file that already holds two of three SRP accessions. *)
Definition two_cached_fs : gmap string FileContent :=
  {["cache.json" :=
      JsonObject {["SRP1" := mkResult "PRJNA1" "GSE1";
                   "SRP2" := mkResult "PRJNA2" "GSE2"]}]}.

(** The known mappings of the repository's documented example. *)
Definition example_known : gmap string ResolutionResult :=
  <["ERP127673" := mkResult "PRJEB43688" "E-MTAB-10220"]>
  (<["SRP324458" := mkResult "PRJNA738600" "GSE178360"]> ∅).

(** The world [w] in which writing the cache file has the outcome [cw]. *)
Definition with_cache_write (w : World) (cw : WriteOutcome) : World :=
  {| set_order := set_order w; srp_net := srp_net w; erp_net := erp_net w;
     cache_write := cw |}.

(** [s] consists of ASCII digits only. *)
Fixpoint all_digits (s : string) : bool :=
  match s with
  | EmptyString => true
  | String c s' => is_digit c && all_digits s'
  end.

(** The batches [unique_srx[i:i+batch_size]] of one run, in order. *)
Definition srx_batches (unique_srx : list string) (batch_size : Z)
    : list (list string) :=
  (λ a : nat, take (Z.to_nat batch_size) (drop (a * Z.to_nat batch_size) unique_srx))
    <$> seq 0 (Z.to_nat ((len unique_srx + batch_size - 1) / batch_size)).

(** The frame a batch contributes to [results_dfs], if any. *)
Definition srx_found (srx_to_gsm : list string → SrxReply) (batch : list string)
    : option (list (string * string)) :=
  match srx_to_gsm batch with
  | inr (Some df) => if bool_decide (df ≠ []) then Some df else None
  | _ => None
  end.

(** The time a trace spends in [time.sleep]. *)
Definition total_sleep (tr : list Event) : Q :=
  foldr Qplus 0%Q (sleeps tr).


(** ** The effect monad *)

Lemma bind_inr {A B} (m : M A) (k : A → M B) t1 a t2 r :
  m = (t1, inr a) → k a = (t2, r) → bind m k = (t1 ++ t2, r).
Proof. intros -> Hk. unfold bind. by rewrite Hk. Qed.

Lemma bind_inl {A B} (m : M A) (k : A → M B) t e :
  m = (t, inl e) → bind m k = (t, inl e).
Proof. by intros ->. Qed.

Lemma bind_inr_inv {A B} (m : M A) (k : A → M B) t b :
  bind m k = (t, inr b) →
  ∃ t1 a t2, m = (t1, inr a) ∧ k a = (t2, inr b) ∧ t = t1 ++ t2.
Proof.
  destruct m as [t1 [e|a]]; simpl; [intros [=]|].
  destruct (k a) as [t2 r] eqn:Hk. intros [= <- ->]. by exists t1, a, t2.
Qed.

Lemma when_false (m : M unit) : when false m = ([], inr tt).
Proof. reflexivity. Qed.

Lemma sleep_ok (d : Q) : (0 <= d)%Q → sleep d = ([Sleep d], inr tt).
Proof.
  intros Hd. unfold sleep. by rewrite (proj2 (Qle_bool_iff 0 d) Hd).
Qed.

Lemma submits_app t1 t2 : submits (t1 ++ t2) = submits t1 ++ submits t2.
Proof. apply omap_app. Qed.

Lemma progress_values_app t1 t2 :
  progress_values (t1 ++ t2) = progress_values t1 ++ progress_values t2.
Proof. apply omap_app. Qed.

Lemma sleeps_app t1 t2 : sleeps (t1 ++ t2) = sleeps t1 ++ sleeps t2.
Proof. apply omap_app. Qed.

Lemma submits_Submit k (l : list string) :
  submits (Submit k <$> l) = (λ sid, (k, sid)) <$> l.
Proof. induction l as [|x l IH]; [done|]. simpl. f_equal. exact IH. Qed.

Lemma progress_values_Submit k (l : list string) :
  progress_values (Submit k <$> l) = [].
Proof. by induction l. Qed.

Lemma sleeps_Submit k (l : list string) : sleeps (Submit k <$> l) = [].
Proof. by induction l. Qed.

Lemma invocations_app sid t1 t2 :
  invocations sid (t1 ++ t2) = (invocations sid t1 + invocations sid t2)%nat.
Proof.
  unfold invocations. by rewrite submits_app, filter_app, length_app.
Qed.


Lemma climbs_weaken lo lo' vs hi : lo' <= lo → climbs lo vs hi → climbs lo' vs hi.
Proof. destruct vs; simpl; [lia|]. intros ? [? ?]. split; [lia|done]. Qed.

Lemma climbs_app lo a mid b hi :
  climbs lo a mid → climbs mid b hi → climbs lo (a ++ b) hi.
Proof.
  revert lo. induction a as [|v a IH]; simpl; intros lo.
  - intros Hle. by apply climbs_weaken.
  - intros [Hlt Ha] Hb. split; [done|]. by apply IH.
Qed.



(** ** The scheduler under well-formed arguments *)

Lemma size_list_to_set_le (l : list string) :
  (size (list_to_set l : gset string) ≤ length l)%nat.
Proof.
  induction l as [|x l IH].
  - by rewrite list_to_set_nil, size_empty.
  - rewrite list_to_set_cons, size_union_alt, size_singleton. simpl.
    assert (list_to_set l ∖ {[x]} ⊆ (list_to_set l : gset string)) as Hsub by set_solver.
    apply subseteq_size in Hsub. lia.
Qed.

Section scheduler.
Context (order : gset string → list string) (Horder : order_ok order).
Context (process_func : nat → string → Outcome).
Context (batch_size max_workers : Z) (delay_between_batches : Q).
Context (max_retries : Z) (retry_delay : Q) (progress_callback : bool).
Context (Hbs : 0 < batch_size) (Hmw : 0 < max_workers).
Context (Hdbb : (0 <= delay_between_batches)%Q) (Hrd : (0 <= retry_delay)%Q).

Local Abbreviation ok := (attempt_ok process_func).

Lemma order_elem X sid : sid ∈ order X ↔ sid ∈ X.
Proof. rewrite (Horder X). apply elem_of_elements. Qed.

Lemma order_NoDup X : NoDup (order X).
Proof. rewrite (Horder X). apply NoDup_elements. Qed.

(** One future: a success is stored, anything else joins the failure
    set. *)
Lemma collect_spec round x br bf :
  ∃ tr br' bf',
    collect process_func round (br, bf) x = (tr, inr (br', bf')) ∧
    (submits tr = [] ∧ sleeps tr = [] ∧ progress_values tr = []) ∧
    (∀ sid, br' !! sid =
       if decide (sid = x) then from_option Some (br !! sid) (ok round sid)
       else br !! sid) ∧
    (∀ sid, sid ∈ bf' ↔ sid ∈ bf ∨ (sid = x ∧ ok round sid = None)).
Proof.
  unfold collect, attempt_ok.
  destruct (process_func round x) as [r|] eqn:Hpf; [destruct (is_success r) eqn:Hs|].
  - exists [], (<[x := r]> br), bf. repeat split.
    + intros sid. destruct (decide (sid = x)) as [->|Hne].
      * by rewrite Hpf, Hs, lookup_insert_eq.
      * by rewrite lookup_insert_ne.
    + by left.
    + intros [?|[-> Hno]]; [done|]. by rewrite Hpf, Hs in Hno.
  - exists [], br, ({[x]} ∪ bf). repeat split.
    + intros sid. destruct (decide (sid = x)) as [->|Hne]; [|done].
      by rewrite Hpf, Hs.
    + intros Hu. apply elem_of_union in Hu as [Hx|?]; [|by left].
      apply elem_of_singleton in Hx as ->. right. by rewrite Hpf, Hs.
    + intros [?|[-> _]]; set_solver.
  - exists [LogError x], br, ({[x]} ∪ bf). repeat split.
    + intros sid. destruct (decide (sid = x)) as [->|Hne]; [|done].
      by rewrite Hpf.
    + intros Hu. apply elem_of_union in Hu as [Hx|?]; [|by left].
      apply elem_of_singleton in Hx as ->. right. by rewrite Hpf.
    + intros [?|[-> _]]; set_solver.
Qed.

Lemma foldM_collect_spec round xs br bf :
  ∃ tr br' bf',
    foldM (collect process_func round) (br, bf) xs = (tr, inr (br', bf')) ∧
    (submits tr = [] ∧ sleeps tr = [] ∧ progress_values tr = []) ∧
    (∀ sid, br' !! sid =
       if decide (sid ∈ xs) then from_option Some (br !! sid) (ok round sid)
       else br !! sid) ∧
    (∀ sid, sid ∈ bf' ↔ sid ∈ bf ∨ (sid ∈ xs ∧ ok round sid = None)).
Proof.
  revert br bf. induction xs as [|x xs IH]; intros br bf.
  - exists [], br, bf. repeat split.
    + by left.
    + intros [?|[H _]]; [done|by apply elem_of_nil in H].
  - destruct (collect_spec round x br bf)
      as (t1 & br1 & bf1 & Heq1 & (Hs1 & Hl1 & Hp1) & Hbr1 & Hbf1).
    destruct (IH br1 bf1) as (t2 & br2 & bf2 & Heq2 & (Hs2 & Hl2 & Hp2) & Hbr2 & Hbf2).
    exists (t1 ++ t2), br2, bf2. split; [|split; [|split]].
    + simpl. eapply bind_inr; [exact Heq1|exact Heq2].
    + by rewrite submits_app, sleeps_app, progress_values_app, Hs1, Hs2, Hl1, Hl2, Hp1, Hp2.
    + intros sid. rewrite Hbr2, Hbr1.
      destruct (decide (sid = x)) as [->|Hne].
      * rewrite (decide_True (P := x ∈ x :: xs)) by left.
        destruct (ok round x); simpl; by destruct (decide (x ∈ xs)).
      * destruct (decide (sid ∈ xs)) as [Hi|Hi].
        -- rewrite (decide_True (P := sid ∈ x :: xs)) by (by right). done.
        -- rewrite (decide_False (P := sid ∈ x :: xs)); [done|].
           intros [?|?]%elem_of_cons; done.
    + intros sid. rewrite Hbf2, Hbf1. rewrite elem_of_cons. naive_solver.
Qed.

Local Abbreviation nbs := (Z.to_nat batch_size).

Lemma slice_batch (l : list string) (a : nat) :
  slice l (0 + Z.of_nat a * batch_size) (0 + Z.of_nat a * batch_size + batch_size)
  = take nbs (drop (a * nbs) l).
Proof.
  unfold slice. f_equal; [f_equal; lia|]. f_equal.
  rewrite Z.add_0_l, Z2Nat.inj_mul, Nat2Z.id by lia. done.
Qed.

(** One batch (source lines 240-269). *)
Lemma run_batch_spec round l res bf total i :
  let batch := slice l i (i + batch_size) in
  ∃ tr res' bf' total',
    run_batch process_func batch_size max_workers delay_between_batches
      progress_callback round l (res, bf, total) i
    = (tr, inr (res', bf', total')) ∧
    submits tr = (λ sid, (round, sid)) <$> batch ∧
    (∀ d, d ∈ sleeps tr → d = delay_between_batches) ∧
    climbs total (progress_values tr) total' ∧
    (∀ sid, res' !! sid =
       if decide (sid ∈ batch) then from_option Some (res !! sid) (ok round sid)
       else res !! sid) ∧
    (∀ sid, sid ∈ bf' ↔ sid ∈ bf ∨ (sid ∈ batch ∧ ok round sid = None)) ∧
    progress_values tr
    = (if progress_callback && (0 <? total' - total) then [total'] else []) ∧
    total' - total
    = len batch - Z.of_nat (size (bf' ∩ (list_to_set batch : gset string))).
Proof.
  intros batch. unfold run_batch. fold batch.
  rewrite (proj2 (Z.leb_gt _ _) Hmw).
  destruct (foldM_collect_spec round batch ∅ bf)
    as (t1 & br & bf' & Heq & (Hs1 & Hl1 & Hp1) & Hbr & Hbf).
  remember (len batch - Z.of_nat (size (bf' ∩ (list_to_set batch : gset string))))
    as bp eqn:Ebp.
  assert (0 <= bp) as Hbp.
  { subst bp. unfold len.
    assert (bf' ∩ list_to_set batch ⊆ (list_to_set batch : gset string)) as Hsub
      by set_solver.
    apply subseteq_size in Hsub. pose proof (size_list_to_set_le batch). lia. }
  remember (progress_callback && (0 <? bp)) as bprog eqn:Eprog.
  remember (i + batch_size <? len l) as bmore eqn:Emore.
  exists ((Submit round <$> batch) ++ t1
          ++ (if bprog then [Progress (total + bp)] else [])
          ++ (if bmore then [Sleep delay_between_batches] else [])),
         (br ∪ res), bf', (total + bp).
  split; [|split; [|split; [|split; [|split; [|split; [|split]]]]]].
  - rewrite when_false. simpl bind at 1.
    unfold tell. simpl bind at 1. rewrite Heq. simpl.
    rewrite <- Ebp, <- Eprog.
    destruct bprog; simpl; destruct bmore; simpl;
      rewrite ?(sleep_ok _ Hdbb); simpl; by rewrite ?app_nil_r.
  - rewrite !submits_app, submits_Submit, Hs1.
    destruct bprog, bmore; simpl; by rewrite !app_nil_r.
  - intros d. rewrite !sleeps_app, sleeps_Submit, Hl1.
    destruct bprog, bmore; simpl;
      first [by intros ->%list_elem_of_singleton | by intros ?%elem_of_nil].
  - rewrite !progress_values_app, progress_values_Submit, Hp1.
    destruct bmore; simpl; (destruct bprog; simpl; [|lia]);
      destruct progress_callback; simpl in Eprog; try done;
      symmetry in Eprog; apply Z.ltb_lt in Eprog; lia.
  - intros sid. rewrite lookup_union, Hbr, lookup_empty.
    destruct (decide (sid ∈ batch)); [|by rewrite (left_id None _)].
    destruct (ok round sid); simpl.
    + by destruct (res !! sid).
    + by rewrite (left_id None _).
  - exact Hbf.
  - rewrite !progress_values_app, progress_values_Submit, Hp1.
    replace (total + bp - total) with bp by lia. rewrite <- Eprog.
    destruct bprog, bmore; done.
  - lia.
Qed.

(** The batches [a], [a+1], .., [a+m-1] of one round cover the segment
    [take (m * batch_size) (drop (a * batch_size) l)]. *)
Lemma foldM_run_batch_spec round l m : ∀ a res bf total,
  let seg := take (m * nbs) (drop (a * nbs) l) in
  ∃ tr res' bf' total',
    foldM (run_batch process_func batch_size max_workers delay_between_batches
             progress_callback round l) (res, bf, total)
          ((λ j : nat, 0 + Z.of_nat j * batch_size) <$> seq a m)
    = (tr, inr (res', bf', total')) ∧
    submits tr = (λ sid, (round, sid)) <$> seg ∧
    (∀ d, d ∈ sleeps tr → d = delay_between_batches) ∧
    climbs total (progress_values tr) total' ∧
    (∀ sid, res' !! sid =
       if decide (sid ∈ seg) then from_option Some (res !! sid) (ok round sid)
       else res !! sid) ∧
    (∀ sid, sid ∈ bf' ↔ sid ∈ bf ∨ (sid ∈ seg ∧ ok round sid = None)).
Proof.
  induction m as [|m IH]; intros a res bf total seg.
  - exists [], res, bf, total. subst seg. simpl.
    split; [done|]. split; [done|]. split; [by intros d ?%elem_of_nil|].
    split; [lia|]. split.
    + done.
    + intros sid. rewrite elem_of_nil. naive_solver.
  - destruct (run_batch_spec round l res bf total (0 + Z.of_nat a * batch_size))
      as (t1 & res1 & bf1 & total1 & Heq1 & Hs1 & Hl1 & Hc1 & Hres1 & Hbf1 & _).
    rewrite slice_batch in Hs1, Hres1, Hbf1.
    destruct (IH (S a) res1 bf1 total1)
      as (t2 & res2 & bf2 & total2 & Heq2 & Hs2 & Hl2 & Hc2 & Hres2 & Hbf2).
    assert (seg = take nbs (drop (a * nbs) l)
                  ++ take (m * nbs) (drop (S a * nbs) l)) as Hseg.
    { subst seg. replace (S m * nbs)%nat with (nbs + m * nbs)%nat by lia.
      rewrite <- take_take_drop, drop_drop. do 3 f_equal. lia. }
    exists (t1 ++ t2), res2, bf2, total2.
    split; [|split; [|split; [|split; [|split]]]].
    + simpl. eapply bind_inr; [exact Heq1|exact Heq2].
    + by rewrite submits_app, Hs1, Hs2, Hseg, fmap_app.
    + intros d. rewrite sleeps_app, elem_of_app. intros [?|?]; auto.
    + rewrite progress_values_app. by eapply climbs_app.
    + intros sid. rewrite Hres2, Hres1, Hseg.
      destruct (decide (sid ∈ take nbs (drop (a * nbs) l))) as [H1|H1];
        destruct (decide (sid ∈ take (m * nbs) (drop (S a * nbs) l))) as [H2|H2].
      * rewrite decide_True by (apply elem_of_app; by left).
        by destruct (ok round sid).
      * rewrite decide_True by (apply elem_of_app; by left). done.
      * rewrite decide_True by (apply elem_of_app; by right). done.
      * rewrite decide_False; [done|]. by intros [?|?]%elem_of_app.
    + intros sid. rewrite Hbf2, Hbf1, Hseg, elem_of_app. naive_solver.
Qed.

Lemma py_range_batches n :
  py_range 0 n batch_size
  = ([], inr ((λ j : nat, 0 + Z.of_nat j * batch_size)
                <$> seq 0 (Z.to_nat ((n + batch_size - 1) / batch_size)))).
Proof.
  unfold py_range.
  rewrite (proj2 (Z.eqb_neq _ _)) by lia.
  rewrite (proj2 (Z.ltb_lt _ _)) by lia.
  by rewrite Z.sub_0_r.
Qed.

Lemma batches_cover (l : list string) :
  take (Z.to_nat ((len l + batch_size - 1) / batch_size) * nbs) (drop (0 * nbs) l) = l.
Proof.
  simpl. apply take_ge. unfold len.
  pose proof (Z.mul_succ_div_gt (Z.of_nat (length l) + batch_size - 1) batch_size Hbs).
  assert (0 <= (Z.of_nat (length l) + batch_size - 1) / batch_size)
    by (apply Z.div_pos; lia).
  nia.
Qed.

Lemma invocations_round sid round (l : list string) tr :
  NoDup l → submits tr = (λ sid, (round, sid)) <$> l →
  (invocations sid tr ≤ 1)%nat.
Proof.
  intros Hnd Hsub. unfold invocations. rewrite Hsub. clear Hsub.
  induction Hnd as [|x l Hx Hnd IH]; [simpl; lia|].
  rewrite fmap_cons, filter_cons.
  destruct (decide ((round, x).2 = sid)) as [Heq|Hne]; [|done].
  simpl in Heq. subst x.
  assert (filter (λ p : nat * string, p.2 = sid)
                   ((λ sid0, (round, sid0)) <$> l) = []) as ->; [|simpl; lia].
  apply elem_of_nil_inv. intros [j y] [Hy Hin]%list_elem_of_filter.
  apply list_elem_of_fmap in Hin as (z & [= -> ->] & Hz). simpl in Hy. by subst.
Qed.

(** One iteration of the [while] loop (source lines 232-272). *)
Lemma run_round_spec k F res total :
  ∃ tr res' F' total',
    run_round order process_func batch_size max_workers delay_between_batches
      retry_delay progress_callback k F res total
    = (tr, inr (res', F', total')) ∧
    round_shape delay_between_batches retry_delay k tr ∧
    submits tr = (λ sid, (k, sid)) <$> order F ∧
    climbs total (progress_values tr) total' ∧
    (∀ sid, res' !! sid =
       if decide (sid ∈ F) then from_option Some (res !! sid) (ok k sid)
       else res !! sid) ∧
    (∀ sid, sid ∈ F' ↔ sid ∈ F ∧ ok k sid = None).
Proof.
  unfold run_round. rewrite py_range_batches.
  destruct (foldM_run_batch_spec k (order F)
              (Z.to_nat ((len (order F) + batch_size - 1) / batch_size)) 0 res ∅ total)
    as (tr & res' & F' & total' & Heq & Hsub & Hsl & Hcl & Hres & HF).
  rewrite batches_cover in Hsub, Hres, HF.
  assert (∀ sid, res' !! sid =
            if decide (sid ∈ F) then from_option Some (res !! sid) (ok k sid)
            else res !! sid) as Hres'.
  { intros sid. rewrite Hres.
    destruct (decide (sid ∈ order F)) as [Hi|Hi], (decide (sid ∈ F)) as [Hj|Hj];
      try done; rewrite order_elem in Hi; done. }
  assert (∀ sid, sid ∈ F' ↔ sid ∈ F ∧ ok k sid = None) as HF'.
  { intros sid. rewrite HF, order_elem. set_solver. }
  destruct k as [|k'].
  - exists tr, res', F', total'. split; [|split; [|done]].
    + simpl. by rewrite Heq.
    + split; [|done]. intros j sid Hin. rewrite Hsub in Hin.
      by apply list_elem_of_fmap in Hin as (? & [= -> ->] & _).
  - exists (Sleep retry_delay :: tr), res', F', total'. split; [|split; [|done]].
    + replace (0 <? Z.of_nat (S k')) with true by (symmetry; apply Z.ltb_lt; lia).
      simpl when. rewrite (sleep_ok _ Hrd). simpl. by rewrite Heq.
    + split; [|by exists tr]. intros j sid Hin. simpl in Hin. rewrite Hsub in Hin.
      by apply list_elem_of_fmap in Hin as (? & [= -> ->] & _).
Qed.

Local Abbreviation loop :=
  (while_loop order process_func batch_size max_workers delay_between_batches
     max_retries retry_delay progress_callback).

(** The [while] loop (source lines 231-272), from round [k] on. *)
Lemma while_loop_stop fuel k F res total :
  fuel = O ∨ loop_guard max_retries k F = false →
  loop_post process_func delay_between_batches max_retries retry_delay
    fuel k F res total [] res F total.
Proof.
  intros Hstop. unfold loop_post. simpl.
  split; [lia|]. split; [by intros i rt [=]|].
  split; [lia|]. split; [by intros j sid ?%elem_of_nil|].
  split; [intros sid; unfold invocations; simpl; lia|].
  split; [by intros j sid _ ?%elem_of_nil|].
  split; [done|]. split; [done|].
  split; [by intros j sid r ?%elem_of_nil|].
  split; [by intros sid ? ?|].
  split; [|by intros j sid ?%elem_of_nil].
  intros sid Hs Hfuel Hk. destruct Hstop as [->|Hg]; [lia|].
  unfold loop_guard in Hg. apply andb_false_iff in Hg as [Hg|Hg].
  - apply bool_decide_eq_false in Hg. exfalso. apply Hg. set_solver.
  - apply Z.leb_gt in Hg. lia.
Qed.

Lemma while_loop_spec fuel : ∀ k F res total,
  ∃ rts res' F' total',
    loop fuel k F res total = (concat rts, inr (res', F', total')) ∧
    loop_post process_func delay_between_batches max_retries retry_delay
      fuel k F res total rts res' F' total'.
Proof.
  induction fuel as [|fuel IH]; intros k F res total.
  { exists [], res, F, total. split; [done|apply while_loop_stop; by left]. }
  simpl. destruct (loop_guard max_retries k F) eqn:Hguard.
  2: { exists [], res, F, total. split; [done|apply while_loop_stop; by right]. }
  apply andb_true_iff in Hguard as [_ Hk]. apply Z.leb_le in Hk.
  destruct (run_round_spec k F res total)
    as (t1 & res1 & F1 & total1 & Heq1 & Hshape1 & Hsub1 & Hcl1 & Hres1 & HF1).
  destruct (IH (S k) F1 res1 total1)
    as (rts & res' & F' & total' & Heq2 & Hlen & Hshape & Hcl & Hin & Hinv
        & Hnext & HFsub & Hkeep & Hacc & Hres & Hfirst & Hretry).
  unfold loop_post.
  assert (∀ j sid, (j, sid) ∈ submits t1 ↔ j = k ∧ sid ∈ F) as Hin1.
  { intros j sid. rewrite Hsub1, list_elem_of_fmap. split.
    - intros (x & [= -> ->] & Hx). by rewrite order_elem in Hx.
    - intros [-> Hx]. exists sid. by rewrite order_elem. }
  assert (F1 ⊆ F) as HF1sub.
  { intros sid Hs. by apply HF1 in Hs as [? _]. }
  exists (t1 :: rts), res', F', total'. simpl.
  split; [eapply bind_inr; [exact Heq1|exact Heq2]|].
  split; [lia|].
  split.
  { intros [|i] rt Hrt; simpl in Hrt.
    - injection Hrt as <-. by rewrite Nat.add_0_r.
    - replace (k + S i)%nat with (S k + i)%nat by lia. by apply Hshape. }
  split; [rewrite progress_values_app; by eapply climbs_app|].
  split.
  { intros j sid. rewrite submits_app, elem_of_app. intros [H1|H2].
    - apply Hin1 in H1 as [-> ?]. split; [done|]. split; [lia|done].
    - apply Hin in H2 as (? & ? & ?). split; [by apply HF1sub|]. split; [lia|done]. }
  split.
  { intros sid. rewrite invocations_app.
    pose proof (invocations_round sid k (order F) t1 (order_NoDup F) Hsub1).
    specialize (Hinv sid). lia. }
  split.
  { intros j sid Hj. rewrite !submits_app, !elem_of_app. intros [H1|H2].
    - apply Hin1 in H1 as [? _]. lia.
    - destruct (decide (j = k)) as [->|Hne].
      + apply Hin in H2 as (Hs & _ & _). apply HF1 in Hs as [Hs Hno].
        split; [|done]. left. by apply Hin1.
      + apply Hnext in H2 as [? ?]; [|lia]. split; [by right|done]. }
  split; [set_solver|].
  split.
  { intros sid Hs. rewrite Hkeep.
    - rewrite Hres1. destruct (decide (sid ∈ F)) as [HsF|HsF]; [|done].
      destruct Hs as [?|Hs]; [done|].
      apply HFsub, HF1 in Hs as [_ ->]. done.
    - destruct Hs as [Hs|Hs]; [|by right]. left. intros ?%HF1sub. done. }
  split.
  { intros j sid r. rewrite submits_app, elem_of_app. intros [H1|H2] Hok.
    - apply Hin1 in H1 as [-> HsF].
      assert (sid ∉ F1) as HnF1.
      { intros [_ Hno]%HF1. by rewrite Hok in Hno. }
      split; [|split].
      + rewrite Hkeep by (by left). rewrite Hres1, decide_True by done.
        by rewrite Hok.
      + intros ?%HFsub. done.
      + intros j' Hj'. rewrite ?submits_app, elem_of_app. intros [H|H].
        * apply Hin1 in H as [? _]. lia.
        * by apply Hin in H as [? _].
    - destruct (Hacc j sid r H2 Hok) as (Hr & HnF & Hlater).
      split; [done|]. split; [done|].
      intros j' Hj'. rewrite ?submits_app, elem_of_app. intros [Hl|Hl].
      + apply Hin1 in Hl as [? _]. apply Hin in H2 as (_ & ? & _). lia.
      + by apply (Hlater j' Hj'). }
  split.
  { intros sid HsF HsF'.
    destruct (decide (sid ∈ F1)) as [Hs1|Hs1].
    - destruct (Hres sid Hs1 HsF') as (j & r & ? & ?).
      exists j, r. rewrite submits_app, elem_of_app. auto.
    - destruct (ok k sid) as [r|] eqn:Hok.
      + exists k, r. rewrite submits_app, elem_of_app. split; [|done].
        left. by apply Hin1.
      + exfalso. apply Hs1, HF1. done. }
  split.
  { intros sid HsF _ _. rewrite submits_app, elem_of_app. left. by apply Hin1. }
  intros j sid. rewrite !submits_app, !elem_of_app. intros [H1|H2] Hno Hj Hlt.
  - apply Hin1 in H1 as [-> HsF]. right.
    apply Hfirst; [by apply HF1|lia|lia].
  - right. apply Hretry; [done|done|done|lia].
Qed.

(** The fuel given to the loop is never what stops it: the loop obeys
    the equation of the [while] statement. *)
Lemma while_loop_unfold k F res total :
  loop (rounds_left max_retries k) k F res total
  = if loop_guard max_retries k F then
      bind (run_round order process_func batch_size max_workers
              delay_between_batches retry_delay progress_callback k F res total)
           (λ '(res1, F1, total1),
              loop (rounds_left max_retries (S k)) (S k) F1 res1 total1)
    else ret (res, F, total).
Proof.
  destruct (loop_guard max_retries k F) eqn:Hguard.
  - pose proof Hguard as Hg. apply andb_true_iff in Hg as [_ Hk].
    apply Z.leb_le in Hk.
    assert (rounds_left max_retries k = S (rounds_left max_retries (S k))) as ->
      by (unfold rounds_left; lia).
    simpl. by rewrite Hguard.
  - destruct (rounds_left max_retries k); simpl; [done|]. by rewrite Hguard.
Qed.

Lemma add_empty_results_lookup F res sid :
  add_empty_results order F res !! sid
  = if decide (sid ∈ F) then Some empty_result else res !! sid.
Proof.
  unfold add_empty_results.
  assert (∀ l (m : gmap string ResolutionResult),
    foldl (λ acc sid0, <[sid0 := empty_result]> acc) m l !! sid
    = if decide (sid ∈ l) then Some empty_result else m !! sid) as Hfold.
  { induction l as [|x l IH]; intros m; simpl; [done|].
    rewrite IH. destruct (decide (sid ∈ l)) as [Hi|Hi].
    - by rewrite decide_True by (by right).
    - destruct (decide (sid = x)) as [->|Hne].
      + by rewrite lookup_insert_eq, decide_True by left.
      + rewrite lookup_insert_ne by done.
        rewrite decide_False; [done|]. by intros [?|?]%elem_of_cons. }
  rewrite Hfold.
  destruct (decide (sid ∈ order F)) as [Hi|Hi], (decide (sid ∈ F)) as [Hj|Hj];
    try done; rewrite order_elem in Hi; done.
Qed.

Theorem process_in_batches_spec ids :
  ∃ tr results,
    process_in_batches order process_func batch_size max_workers
      delay_between_batches max_retries retry_delay progress_callback ids
    = (tr, inr results) ∧
    batches_post process_func delay_between_batches max_retries retry_delay
      ids tr results.
Proof.
  unfold process_in_batches.
  destruct (while_loop_spec (rounds_left max_retries 0) 0 (list_to_set ids) ∅ 0)
    as (rts & res' & F' & total' & Heq & Hlen & Hshape & Hcl & Hin & Hinv
        & Hnext & HFsub & Hkeep & Hacc & Hres & Hfirst & Hretry).
  assert (rounds_left max_retries 0 = Z.to_nat (1 + max_retries)) as Hfuel
    by (unfold rounds_left; lia).
  rewrite Hfuel in Hlen, Hinv, Hfirst, Hretry.
  set (tail := if bool_decide (F' ≠ ∅)
               then [LogWarning (FailedAfterRetries (size F') max_retries)]
               else []).
  set (results := if bool_decide (F' ≠ ∅)
                  then add_empty_results order F' res' else res').
  assert (submits tail = [] ∧ sleeps tail = [] ∧ progress_values tail = [])
    as (Hts & Htl & Htp) by (unfold tail; by destruct (bool_decide _)).
  assert (∀ sid, results !! sid
                 = if decide (sid ∈ F') then Some empty_result else res' !! sid)
    as Hlook.
  { intros sid. unfold results. destruct (bool_decide (F' ≠ ∅)) eqn:Hne.
    - apply add_empty_results_lookup.
    - apply bool_decide_eq_false in Hne. apply dec_stable in Hne. subst F'.
      by rewrite decide_False by set_solver. }
  assert (bind (loop (rounds_left max_retries 0) 0 (list_to_set ids) ∅ 0)
            (λ '(results0, failed_ids, _),
               if bool_decide (failed_ids ≠ ∅) then
                 bind (tell [LogWarning (FailedAfterRetries (size failed_ids) max_retries)])
                      (λ _, ret (add_empty_results order failed_ids results0))
               else ret results0)
          = (concat rts ++ tail, inr results)) as Hrun.
  { rewrite Heq. simpl. unfold tail, results.
    by destruct (bool_decide (F' ≠ ∅)). }
  clearbody tail results.
  exists (concat rts ++ tail), results. split; [exact Hrun|]. clear Hrun.
  exists rts, tail, total'.
  assert (submits (concat rts ++ tail) = submits (concat rts)) as Hsub
    by (by rewrite submits_app, Hts, app_nil_r).
  assert (∀ sid, invocations sid (concat rts ++ tail) = invocations sid (concat rts))
    as Hinveq by (intros sid; unfold invocations; by rewrite Hsub).
  rewrite Hsub.
  split; [done|]. split; [done|]. split; [done|].
  split; [intros i rt Hrt; by apply (Hshape i rt Hrt)|].
  split; [by rewrite progress_values_app, Htp, app_nil_r|].
  split.
  { intros j sid Hj. apply Hin in Hj as (Hs & _ & ?).
    split; [|done]. by apply elem_of_list_to_set in Hs. }
  split; [intros sid; by rewrite Hinveq|].
  split; [intros j sid; apply Hnext; lia|].
  split.
  { intros j sid r Hj Hok. destruct (Hacc j sid r Hj Hok) as (Hr & HnF & Hlater).
    split; [|done]. by rewrite Hlook, decide_False. }
  split.
  { intros sid. rewrite Hlook. destruct (decide (sid ∈ F')) as [Hs|Hs].
    - split; [by eexists|]. intros _.
      apply HFsub in Hs. by apply elem_of_list_to_set in Hs.
    - split.
      + intros Hi. apply (elem_of_list_to_set (C := gset string)) in Hi.
        destruct (Hres sid Hi Hs) as (j & r & Hj & Hok).
        destruct (Hacc j sid r Hj Hok) as (-> & _). by eexists.
      + intros Hsome. destruct (decide (sid ∈ ids)) as [|Hni]; [done|].
        rewrite Hkeep in Hsome.
        * rewrite lookup_empty in Hsome. by destruct Hsome.
        * left. by rewrite elem_of_list_to_set. }
  split.
  { intros sid Hi Hall. rewrite Hlook.
    destruct (decide (sid ∈ F')) as [Hs|Hs]; [done|].
    apply (elem_of_list_to_set (C := gset string)) in Hi.
    destruct (Hres sid Hi Hs) as (j & r & Hj & Hok).
    rewrite (Hall j Hj) in Hok. done. }
  split.
  { intros sid r. rewrite Hlook.
    destruct (decide (sid ∈ F')) as [Hs|Hs]; [intros [= <-]; by left|].
    intros Hr. right.
    destruct (decide (sid ∈ (list_to_set ids : gset string))) as [Hi|Hi].
    - destruct (Hres sid Hi Hs) as (j & r' & Hj & Hok).
      destruct (Hacc j sid r' Hj Hok) as (Hr' & _).
      exists j. split; [done|]. congruence.
    - rewrite Hkeep, lookup_empty in Hr by (by left). done. }
  split.
  { intros sid Hi Hmr. apply Hfirst; [by apply elem_of_list_to_set|lia|lia]. }
  intros j sid Hj Hno Hle. apply Hretry; [done|done|done|lia].
Qed.
End scheduler.

(** ** The batch scheduler as a whole *)

(** Projections of [batches_post]. *)
Section batches_post.
Context {process_func : nat → string → Outcome} {dbb : Q} {mr : Z} {rd : Q}.
Context {ids : list string} {tr : list Event}.
Context {results : gmap string ResolutionResult}.
Context (Hpost : batches_post process_func dbb mr rd ids tr results).

Lemma batches_post_submitted j sid :
  (j, sid) ∈ submits tr → sid ∈ ids ∧ (Z.of_nat j ≤ mr).
Proof.
  destruct Hpost as (rts & tail & total & _ & _ & _ & _ & _ & H & _). apply H.
Qed.

Lemma batches_post_invocations sid :
  (invocations sid tr ≤ Z.to_nat (1 + mr))%nat.
Proof.
  destruct Hpost as (rts & tail & total & _ & _ & _ & _ & _ & _ & H & _). apply H.
Qed.

Lemma batches_post_retried j sid :
  (S j, sid) ∈ submits tr →
  (j, sid) ∈ submits tr ∧ attempt_ok process_func j sid = None.
Proof.
  destruct Hpost as (rts & tail & total & _ & _ & _ & _ & _ & _ & _ & H & _).
  apply H.
Qed.

Lemma batches_post_accepted j sid r :
  (j, sid) ∈ submits tr → attempt_ok process_func j sid = Some r →
  results !! sid = Some r ∧ ∀ j', (j < j')%nat → (j', sid) ∉ submits tr.
Proof.
  destruct Hpost as (rts & tail & total & _ & _ & _ & _ & _ & _ & _ & _ & H & _).
  apply H.
Qed.

Lemma batches_post_dom sid : sid ∈ ids ↔ is_Some (results !! sid).
Proof.
  destruct Hpost
    as (rts & tail & total & _ & _ & _ & _ & _ & _ & _ & _ & _ & H & _).
  apply H.
Qed.

Lemma batches_post_unresolved sid :
  sid ∈ ids →
  (∀ j, (j, sid) ∈ submits tr → attempt_ok process_func j sid = None) →
  results !! sid = Some empty_result.
Proof.
  destruct Hpost
    as (rts & tail & total & _ & _ & _ & _ & _ & _ & _ & _ & _ & _ & H & _).
  apply H.
Qed.

Lemma batches_post_source sid r :
  results !! sid = Some r →
  r = empty_result ∨
  ∃ j, (j, sid) ∈ submits tr ∧ attempt_ok process_func j sid = Some r.
Proof.
  destruct Hpost
    as (rts & tail & total & _ & _ & _ & _ & _ & _ & _ & _ & _ & _ & _ & H & _).
  apply H.
Qed.

Lemma batches_post_first sid : sid ∈ ids → 0 ≤ mr → (O, sid) ∈ submits tr.
Proof.
  destruct Hpost
    as (rts & tail & total & _ & _ & _ & _ & _ & _ & _ & _ & _ & _ & _ & _ & H & _).
  apply H.
Qed.

Lemma batches_post_retry j sid :
  (j, sid) ∈ submits tr → attempt_ok process_func j sid = None →
  Z.of_nat (S j) ≤ mr → (S j, sid) ∈ submits tr.
Proof.
  destruct Hpost
    as (rts & tail & total & _ & _ & _ & _ & _ & _ & _ & _ & _ & _ & _ & _ & _ & H).
  apply H.
Qed.

Lemma batches_post_rounds :
  ∃ rts tail,
    tr = concat rts ++ tail ∧
    (submits tail = [] ∧ sleeps tail = [] ∧ progress_values tail = []) ∧
    (length rts ≤ Z.to_nat (1 + mr))%nat ∧
    (∀ i rt, rts !! i = Some rt → round_shape dbb rd i rt).
Proof.
  destruct Hpost as (rts & tail & total & ? & ? & ? & ? & _). by exists rts, tail.
Qed.

End batches_post.

Lemma process_in_batches_nil order process_func bs mw dbb mr rd pc :
  process_in_batches order process_func bs mw dbb mr rd pc [] = ([], inr ∅).
Proof.
  unfold process_in_batches.
  assert (∀ fuel, while_loop order process_func bs mw dbb mr rd pc fuel 0
                    (list_to_set []) ∅ 0 = ([], inr (∅, ∅, 0))) as ->.
  { intros [|fuel]; simpl; [done|].
    unfold loop_guard. by rewrite bool_decide_eq_false_2 by (intros H; by apply H). }
  simpl. by rewrite bool_decide_eq_false_2 by (intros H; by apply H).
Qed.

Lemma prefix_cons a s1 b s2 :
  String.prefix (String a s1) (String b s2)
  = if ascii_dec a b then String.prefix s1 s2 else false.
Proof. reflexivity. Qed.

Lemma is_srp_not_erp sid : is_srp sid = true → is_erp sid = false.
Proof.
  unfold is_srp, is_erp. destruct sid as [|c sid]; [done|].
  rewrite !prefix_cons.
  destruct (ascii_dec "S" c) as [<-|Hne]; [|done].
  intros _. by destruct (ascii_dec "E" "S").
Qed.

Lemma load_cache_spec cfg fs :
  outcome (load_cache cfg fs) = inr (loaded_cache cfg fs) ∧
  submits (trace (load_cache cfg fs)) = [] ∧
  sleeps (trace (load_cache cfg fs)) = [] ∧
  progress_values (trace (load_cache cfg fs)) = [].
Proof.
  unfold load_cache, loaded_cache.
  destruct (cache_path cfg) as [p|]; [|done].
  destruct (fs !! p) as [[|cache]|]; done.
Qed.

Lemma save_cache_spec w cfg cache results fs :
  ∃ fs', outcome (save_cache w cfg cache results fs) = inr fs' ∧
  submits (trace (save_cache w cfg cache results fs)) = [] ∧
  sleeps (trace (save_cache w cfg cache results fs)) = [] ∧
  progress_values (trace (save_cache w cfg cache results fs)) = [].
Proof.
  unfold save_cache. destruct (cache_path cfg) as [p|]; [|by eexists].
  destruct (cache_write w); by eexists.
Qed.

Lemma save_cache_written w cfg cache results fs p :
  cache_path cfg = Some p → cache_write w = WriteOk →
  outcome (save_cache w cfg cache results fs)
  = inr (<[p := JsonObject (results ∪ cache)]> fs).
Proof. intros Hp Hw. unfold save_cache. by rewrite Hp, Hw. Qed.

Lemma cache_switch cfg fs sid :
  (if bool_decide (is_Some (cache_path cfg)) then loaded_cache cfg fs !! sid else None)
  = loaded_cache cfg fs !! sid.
Proof.
  unfold loaded_cache. by destruct (cache_path cfg) as [p|].
Qed.

Lemma short_circuit_step KNOWN cfg fs res rem x :
  short_circuit KNOWN (loaded_cache cfg fs)
    (bool_decide (is_Some (cache_path cfg))) (res, rem) x
  = match stored KNOWN cfg fs x with
    | Some r => (<[x := r]> res, rem)
    | None => (res, rem ++ [x])
    end.
Proof.
  unfold short_circuit, stored. destruct (KNOWN !! x); [done|].
  by rewrite cache_switch.
Qed.

(** Source lines 150-158: ids with a stored record go to [results], the
    others are appended to [remaining_ids]. *)
Lemma short_circuit_fold KNOWN cfg fs (l : list string) :
  ∀ (res : gmap string ResolutionResult) (rem : list string),
  ∃ res',
    foldl (short_circuit KNOWN (loaded_cache cfg fs)
             (bool_decide (is_Some (cache_path cfg)))) (res, rem) l
    = (res', rem ++ filter (λ sid, stored KNOWN cfg fs sid = None) l) ∧
    ∀ sid, res' !! sid =
      if decide (sid ∈ l) then from_option Some (res !! sid) (stored KNOWN cfg fs sid)
      else res !! sid.
Proof.
  induction l as [|x l IH]; intros res rem.
  - exists res. simpl. by rewrite app_nil_r.
  - cbn [foldl]. rewrite short_circuit_step, filter_cons.
    destruct (stored KNOWN cfg fs x) as [r|] eqn:Hst.
    + destruct (IH (<[x := r]> res) rem) as (res' & Heq & Hlook).
      exists res'. rewrite decide_False by done. split; [done|].
      intros sid. rewrite Hlook. destruct (decide (sid = x)) as [->|Hne].
      * rewrite lookup_insert_eq, (decide_True (P := x ∈ x :: l)) by left.
        rewrite Hst. simpl. by destruct (decide (x ∈ l)).
      * rewrite lookup_insert_ne by done.
        destruct (decide (sid ∈ l)) as [Hi|Hi].
        -- by rewrite decide_True by (by right).
        -- rewrite decide_False; [done|]. by intros [?|?]%elem_of_cons.
    + destruct (IH res (rem ++ [x])) as (res' & Heq & Hlook).
      exists res'. rewrite decide_True by done. split.
      { rewrite Heq. by rewrite <- app_assoc. }
      intros sid. rewrite Hlook. destruct (decide (sid = x)) as [->|Hne].
      * rewrite (decide_True (P := x ∈ x :: l)) by left.
        rewrite Hst. simpl. by destruct (decide (x ∈ l)).
      * destruct (decide (sid ∈ l)) as [Hi|Hi].
        -- by rewrite decide_True by (by right).
        -- rewrite decide_False; [done|]. by intros [?|?]%elem_of_cons.
Qed.

Lemma final_output_lookup results (ids : list string) sid :
  final_output results ids !! sid
  = if decide (sid ∈ ids) then Some (default empty_result (results !! sid)) else None.
Proof.
  unfold final_output.
  assert (∀ l (m : gmap string ResolutionResult),
    foldl (λ out x, <[x := default empty_result (results !! x)]> out) m l !! sid
    = if decide (sid ∈ l) then Some (default empty_result (results !! sid))
      else m !! sid) as Hfold.
  { induction l as [|x l IH]; intros m; simpl; [done|].
    rewrite IH. destruct (decide (sid ∈ l)) as [Hi|Hi].
    - by rewrite decide_True by (by right).
    - destruct (decide (sid = x)) as [->|Hne].
      + by rewrite lookup_insert_eq, decide_True by left.
      + rewrite lookup_insert_ne by done.
        rewrite decide_False; [done|]. by intros [?|?]%elem_of_cons. }
  rewrite Hfold. by rewrite lookup_empty.
Qed.

Lemma batches_or_skip order process_func bs mw dbb mr rd pc ids
    (results : gmap string ResolutionResult) :
  order_ok order → 0 < bs → 0 < mw → (0 <= dbb)%Q → (0 <= rd)%Q →
  ∃ t res,
    (if bool_decide (ids ≠ []) then
       bind (process_in_batches order process_func bs mw dbb mr rd pc ids)
            (λ batch_results, ret (batch_results ∪ results))
     else ret results)
    = (t, inr (res ∪ results)) ∧
    batches_post process_func dbb mr rd ids t res.
Proof.
  intros Horder Hbs Hmw Hdbb Hrd.
  destruct (process_in_batches_spec order Horder process_func bs mw dbb mr rd pc
              Hbs Hmw Hdbb Hrd ids) as (t & res & Heq & Hpost).
  exists t, res. split; [|done].
  case_bool_decide as Hne.
  - rewrite Heq. simpl. by rewrite app_nil_r.
  - subst ids.
    rewrite process_in_batches_nil in Heq. injection Heq as <- <-.
    by rewrite (left_id ∅ _).
Qed.

Lemma when_tell b es : when b (tell es) = (if b then es else [], inr tt).
Proof. by destruct b. Qed.

Theorem convert_sra_ids_spec KNOWN w cfg fs sra_ids :
  order_ok (set_order w) → sane_config cfg →
  ∃ tr out fs',
    convert_sra_ids KNOWN w cfg fs sra_ids = (tr, inr (out, fs')) ∧
    convert_post KNOWN w cfg fs sra_ids tr out fs'.
Proof.
  intros Horder (Hbs & Hmw & Hdbb & Hrd).
  unfold convert_sra_ids, convert_post. cbv zeta.
  destruct (load_cache_spec cfg fs) as (Hload & _).
  destruct (load_cache cfg fs) as [t_load [e|cache]] eqn:Hlc; [done|].
  simpl in Hload. injection Hload as ->.
  remember (set_order w (list_to_set sra_ids)) as unique eqn:Hunique.
  destruct (short_circuit_fold KNOWN cfg fs unique ∅ []) as (res0 & Hfold & Hres0).
  cbn [bind]. rewrite Hfold. cbv beta iota. rewrite app_nil_l.
  remember (filter (λ sid, stored KNOWN cfg fs sid = None) unique)
    as remaining eqn:Hremaining.
  remember (filter (λ sid, is_srp sid = true) remaining) as srp_ids eqn:Hsrp.
  remember (filter (λ sid, is_erp sid = true) remaining) as erp_ids eqn:Herp.
  remember (filter (λ sid, is_other sid = true) remaining) as other_ids eqn:Hother.
  destruct (batches_or_skip (set_order w)
              (λ round sid, Returned (process_srp_id KNOWN (srp_net w round sid) sid))
              (batch_size cfg) (max_workers cfg) (delay_between_batches cfg)
              (max_retries cfg) (retry_delay cfg) (progress_callback cfg)
              srp_ids res0 Horder Hbs Hmw Hdbb Hrd)
    as (t_srp & res_srp & Heq_srp & Hpost_srp).
  destruct (batches_or_skip (set_order w)
              (λ round sid, Returned (process_erp_id KNOWN (erp_net w round sid) sid))
              (batch_size cfg) (max_workers cfg) (delay_between_batches cfg)
              (max_retries cfg) (retry_delay cfg) (progress_callback cfg)
              erp_ids (res_srp ∪ res0) Horder Hbs Hmw Hdbb Hrd)
    as (t_erp & res_erp & Heq_erp & Hpost_erp).
  destruct (save_cache_spec w cfg (loaded_cache cfg fs) (res_erp ∪ (res_srp ∪ res0)) fs)
    as (fs' & Hsave & _).
  destruct (save_cache w cfg (loaded_cache cfg fs) (res_erp ∪ (res_srp ∪ res0)) fs)
    as [t_save r_save] eqn:Hsc.
  simpl in Hsave. subst r_save.
  rewrite !when_tell. cbn [bind]. rewrite Heq_srp. cbn [bind].
  rewrite Heq_erp. cbn [bind]. rewrite Hsc. cbn [bind ret].
  eexists _, _, fs'. split; [reflexivity|].
  exists t_srp, res_srp, t_erp, res_erp, (res_erp ∪ (res_srp ∪ res0)).
  split; [exact Hpost_srp|]. split; [exact Hpost_erp|].
  rewrite Hsc. cbn [trace outcome fst snd].
  split; [by rewrite ?app_nil_r, <- ?app_assoc|].
  split; [|done].
  intros sid.
  pose proof (batches_post_dom Hpost_srp) as Hdom_s.
  pose proof (batches_post_dom Hpost_erp) as Hdom_e.
  assert (∀ x, x ∈ unique ↔ x ∈ sra_ids) as Hu.
  { intros x. rewrite Hunique, (Horder _), elem_of_elements.
    apply elem_of_list_to_set. }
  assert (∀ x, x ∈ srp_ids ↔ x ∈ sra_ids ∧ stored KNOWN cfg fs x = None ∧ is_srp x = true)
    as Hs.
  { intros x. rewrite Hsrp, Hremaining, !list_elem_of_filter, Hu. tauto. }
  assert (∀ x, x ∈ erp_ids ↔ x ∈ sra_ids ∧ stored KNOWN cfg fs x = None ∧ is_erp x = true)
    as He.
  { intros x. rewrite Herp, Hremaining, !list_elem_of_filter, Hu. tauto. }
  assert (res_srp !! sid = None ∨ sid ∈ srp_ids) as Hcs.
  { destruct (res_srp !! sid) eqn:E; [right|by left]. apply Hdom_s. by eexists. }
  assert (res_erp !! sid = None ∨ sid ∈ erp_ids) as Hce.
  { destruct (res_erp !! sid) eqn:E; [right|by left]. apply Hdom_e. by eexists. }
  rewrite !lookup_union, Hres0, lookup_empty.
  destruct (stored KNOWN cfg fs sid) as [r|] eqn:Hst.
  - destruct Hcs as [->|Hin]; [|apply Hs in Hin as (_ & ? & _); congruence].
    destruct Hce as [->|Hin]; [|apply He in Hin as (_ & ? & _); congruence].
    rewrite !(left_id None _).
    destruct (decide (sid ∈ unique)) as [Hi|Hi], (decide (sid ∈ sra_ids)) as [Hj|Hj];
      try done; rewrite Hu in Hi; done.
  - assert ((if decide (sid ∈ unique)
             then from_option Some (None : option ResolutionResult) None else None)
            = None) as -> by (by destruct (decide _)).
    rewrite (right_id None _).
    destruct (is_srp sid) eqn:Hsrp_sid.
    + destruct Hce as [->|Hin]; [by rewrite (left_id None _)|].
      apply He in Hin as (_ & _ & ?). apply is_srp_not_erp in Hsrp_sid. congruence.
    + destruct Hcs as [->|Hin]; [|apply Hs in Hin as (_ & _ & ?); congruence].
      rewrite (right_id None _).
      destruct (is_erp sid) eqn:Herp_sid; [done|].
      destruct Hce as [->|Hin]; [done|]. apply He in Hin as (_ & _ & ?). congruence.
Qed.

(** ** Claims *)

Lemma no_invocations sid tr :
  (∀ j, (j, sid) ∉ submits tr) → invocations sid tr = O.
Proof.
  intros Hno. unfold invocations.
  assert (filter (λ p : nat * string, p.2 = sid) (submits tr) = []) as ->; [|done].
  apply elem_of_nil_inv. intros [j x] [Hx Hin]%list_elem_of_filter.
  simpl in Hx. subst x. by apply (Hno j).
Qed.

Lemma convert_post_submitted KNOWN w cfg fs sra_ids tr out fs' j sid :
  order_ok (set_order w) →
  convert_post KNOWN w cfg fs sra_ids tr out fs' →
  (j, sid) ∈ submits tr →
  sid ∈ sra_ids ∧ stored KNOWN cfg fs sid = None ∧ is_other sid = false ∧
  (Z.of_nat j ≤ max_retries cfg).
Proof.
  intros Horder (t_srp & res_srp & t_erp & res_erp & results
                 & Hps & Hpe & -> & Hres & -> & Hsave).
  destruct (load_cache_spec cfg fs) as (_ & Hl & _).
  destruct (save_cache_spec w cfg (loaded_cache cfg fs) results fs) as (fs2 & _ & Hs & _).
  rewrite !submits_app, Hl, Hs, app_nil_r.
  assert (∀ b es, submits (if b : bool then [Progress es] else []) = []) as ->
    by (by intros []).
  assert (∀ b e, submits (if b : bool then [LogWarning e] else []) = []) as ->
    by (by intros []).
  simpl. rewrite elem_of_app.
  assert (∀ x, x ∈ set_order w (list_to_set sra_ids) ↔ x ∈ sra_ids) as Hu.
  { intros x. rewrite (Horder _), elem_of_elements. apply elem_of_list_to_set. }
  intros [Hin|Hin].
  - apply (batches_post_submitted Hps) in Hin as [Hin ?].
    apply list_elem_of_filter in Hin as [Hsrp Hin].
    apply list_elem_of_filter in Hin as [Hst Hin]. apply Hu in Hin.
    split; [done|]. split; [done|]. split; [|done].
    unfold is_other. by rewrite Hsrp.
  - apply (batches_post_submitted Hpe) in Hin as [Hin ?].
    apply list_elem_of_filter in Hin as [Herp Hin].
    apply list_elem_of_filter in Hin as [Hst Hin]. apply Hu in Hin.
    split; [done|]. split; [done|]. split; [|done].
    unfold is_other. rewrite Herp. by destruct (is_srp sid).
Qed.

Lemma convert_post_stored KNOWN w cfg fs sra_ids tr out fs' sid r :
  convert_post KNOWN w cfg fs sra_ids tr out fs' →
  sid ∈ sra_ids → stored KNOWN cfg fs sid = Some r → out !! sid = Some r.
Proof.
  intros (t_srp & res_srp & t_erp & res_erp & results
          & Hps & Hpe & -> & Hres & -> & Hsave) Hin Hst.
  rewrite final_output_lookup, decide_True by done.
  by rewrite Hres, Hst, decide_True.
Qed.

Lemma convert_post_dom KNOWN w cfg fs sra_ids tr out fs' sid :
  convert_post KNOWN w cfg fs sra_ids tr out fs' →
  sid ∈ sra_ids ↔ is_Some (out !! sid).
Proof.
  intros (t_srp & res_srp & t_erp & res_erp & results
          & Hps & Hpe & -> & Hres & -> & Hsave).
  rewrite final_output_lookup. destruct (decide (sid ∈ sra_ids)).
  - split; [by eexists|done].
  - split; [done|]. by intros [? [=]].
Qed.

(** C1: for every input list, the mapping returned by [convert_sra_ids]
    has exactly one entry for each element of the input, duplicates and
    unrecognized prefixes included, and no other entry: every input id is
    a key bound to a single record, every key is an input id, and the
    number of entries is the number of distinct input ids. *)
Theorem C1_one_entry_per_input KNOWN w cfg fs sra_ids :
  order_ok (set_order w) → sane_config cfg →
  ∃ tr out fs',
    convert_sra_ids KNOWN w cfg fs sra_ids = (tr, inr (out, fs')) ∧
    (∀ sid, sid ∈ sra_ids →
       ∃ r, out !! sid = Some r ∧ ∀ r', out !! sid = Some r' → r' = r) ∧
    (∀ sid, is_Some (out !! sid) → sid ∈ sra_ids) ∧
    size out = length (remove_dups sra_ids).
Proof.
  intros Horder Hsane.
  destruct (convert_sra_ids_spec KNOWN w cfg fs sra_ids Horder Hsane)
    as (tr & out & fs' & Heq & Hpost).
  exists tr, out, fs'. split; [done|].
  pose proof (λ sid, convert_post_dom _ _ _ _ _ _ _ _ sid Hpost) as Hdom.
  split; [|split].
  - intros sid Hin. apply Hdom in Hin as [r Hr]. exists r. split; [done|].
    intros r' Hr'. congruence.
  - intros sid. apply Hdom.
  - rewrite <- size_dom.
    assert (dom out = list_to_set (remove_dups sra_ids)) as ->.
    { apply set_eq. intros sid.
      rewrite elem_of_dom, <- Hdom, elem_of_list_to_set, elem_of_remove_dups. done. }
    apply size_list_to_set, NoDup_remove_dups.
Qed.

Lemma C1_one_entry_per_input_witness :
  ∃ tr out fs',
    convert_sra_ids ∅ dead_world cached_config ∅ ["SRP1"; "XYZ123"; "SRP1"]
    = (tr, inr (out, fs')) ∧
    (∀ sid, sid ∈ ["SRP1"; "XYZ123"; "SRP1"] →
       ∃ r, out !! sid = Some r ∧ ∀ r', out !! sid = Some r' → r' = r) ∧
    (∀ sid, is_Some (out !! sid) → sid ∈ ["SRP1"; "XYZ123"; "SRP1"]) ∧
    size out = length (remove_dups ["SRP1"; "XYZ123"; "SRP1"]).
Proof.
  apply (C1_one_entry_per_input ∅ dead_world cached_config ∅
           ["SRP1"; "XYZ123"; "SRP1"]).
  - intros X. reflexivity.
  - unfold sane_config, Qle. simpl. lia.
Defined.

Lemma convert_post_no_network KNOWN w cfg fs sra_ids tr out fs' sid r :
  order_ok (set_order w) →
  convert_post KNOWN w cfg fs sra_ids tr out fs' →
  stored KNOWN cfg fs sid = Some r → invocations sid tr = O.
Proof.
  intros Horder Hpost Hst. apply no_invocations. intros j Hin.
  apply (convert_post_submitted _ _ _ _ _ _ _ _ _ _ Horder Hpost) in Hin
    as (_ & Hno & _). congruence.
Qed.

(** C2: an input id that has a record in the known-mappings table or in
    the loaded cache (the known mapping taking precedence, as [stored]
    spells out) is returned with exactly that record and the per-id lookup
    function, the only place where requests are issued, is never invoked
    on it. In particular the input [["ERP127673"; "SRP324458"]] with the
    two documented known mappings yields exactly these two records and no
    invocation at all. *)
Theorem C2_stored_record_no_network KNOWN w cfg fs sra_ids :
  order_ok (set_order w) → sane_config cfg →
  ∃ tr out fs',
    convert_sra_ids KNOWN w cfg fs sra_ids = (tr, inr (out, fs')) ∧
    (∀ sid r, sid ∈ sra_ids → stored KNOWN cfg fs sid = Some r →
       out !! sid = Some r ∧ invocations sid tr = O) ∧
    (KNOWN = example_known → sra_ids = ["ERP127673"; "SRP324458"] →
       out = example_known ∧ submits tr = []).
Proof.
  intros Horder Hsane.
  destruct (convert_sra_ids_spec KNOWN w cfg fs sra_ids Horder Hsane)
    as (tr & out & fs' & Heq & Hpost).
  exists tr, out, fs'. split; [done|]. split.
  - intros sid r Hin Hst. split.
    + by eapply convert_post_stored.
    + by eapply convert_post_no_network.
  - intros -> ->.
    assert (stored example_known cfg fs "ERP127673"
            = Some (mkResult "PRJEB43688" "E-MTAB-10220")) as He by done.
    assert (stored example_known cfg fs "SRP324458"
            = Some (mkResult "PRJNA738600" "GSE178360")) as Hs by done.
    split.
    + apply map_eq. intros sid.
      destruct (decide (sid = "ERP127673")) as [->|Hne1].
      { rewrite (convert_post_stored _ _ _ _ _ _ _ _ "ERP127673" _ Hpost
                   ltac:(by left) He). done. }
      destruct (decide (sid = "SRP324458")) as [->|Hne2].
      { rewrite (convert_post_stored _ _ _ _ _ _ _ _ "SRP324458" _ Hpost
                   ltac:(by right; left) Hs). done. }
      unfold example_known. rewrite !lookup_insert_ne, lookup_empty by done.
      destruct (out !! sid) as [r|] eqn:Hout; [|done].
      assert (sid ∈ ["ERP127673"; "SRP324458"]) as Hin.
      { apply (convert_post_dom _ _ _ _ _ _ _ _ sid Hpost). by eexists. }
      set_solver.
    + apply elem_of_nil_inv. intros [j sid] Hin.
      apply (convert_post_submitted _ _ _ _ _ _ _ _ _ _ Horder Hpost) in Hin
        as (Hin & Hno & _).
      apply elem_of_cons in Hin as [->|Hin]; [congruence|].
      apply list_elem_of_singleton in Hin as ->. congruence.
Qed.

Lemma C2_stored_record_no_network_witness :
  ∃ tr out fs',
    convert_sra_ids example_known dead_world cached_config ∅
      ["ERP127673"; "SRP324458"] = (tr, inr (out, fs')) ∧
    (∀ sid r, sid ∈ ["ERP127673"; "SRP324458"] →
       stored example_known cached_config ∅ sid = Some r →
       out !! sid = Some r ∧ invocations sid tr = O) ∧
    (example_known = example_known →
       ["ERP127673"; "SRP324458"] = ["ERP127673"; "SRP324458"] →
       out = example_known ∧ submits tr = []).
Proof.
  apply (C2_stored_record_no_network example_known dead_world cached_config ∅
           ["ERP127673"; "SRP324458"]).
  - intros X. reflexivity.
  - unfold sane_config, Qle. simpl. lia.
Defined.

(** C4: in [process_in_batches] the per-id function is invoked on each id
    at most [1 + max_retries] times, in rounds numbered [0..max_retries] on
    input ids only; an id is retried in round [j+1] only if it was tried
    and failed in round [j]; the trace splits into at most [1 + max_retries]
    round traces of which every retry round opens with a sleep of exactly
    [retry_delay]; and every input id is a key of the returned map, bound
    to the explicit empty record when none of its attempts succeeded. *)
Theorem C4_bounded_retry_rounds order process_func batch_size max_workers
    delay_between_batches max_retries retry_delay progress_callback ids :
  order_ok order → 0 < batch_size → 0 < max_workers →
  (0 <= delay_between_batches)%Q → (0 <= retry_delay)%Q →
  ∃ tr results,
    process_in_batches order process_func batch_size max_workers
      delay_between_batches max_retries retry_delay progress_callback ids
    = (tr, inr results) ∧
    (∀ sid, (invocations sid tr ≤ Z.to_nat (1 + max_retries))%nat) ∧
    (∀ j sid, (j, sid) ∈ submits tr → sid ∈ ids ∧ (Z.of_nat j ≤ max_retries)) ∧
    (∀ j sid, (S j, sid) ∈ submits tr →
       (j, sid) ∈ submits tr ∧ attempt_ok process_func j sid = None) ∧
    (∃ rts tail,
       tr = concat rts ++ tail ∧
       (submits tail = [] ∧ sleeps tail = [] ∧ progress_values tail = []) ∧
       (length rts ≤ Z.to_nat (1 + max_retries))%nat ∧
       (∀ i rt, rts !! i = Some rt →
          round_shape delay_between_batches retry_delay i rt)) ∧
    (∀ sid, sid ∈ ids → is_Some (results !! sid)) ∧
    (∀ sid, sid ∈ ids →
       (∀ j, (j, sid) ∈ submits tr → attempt_ok process_func j sid = None) →
       results !! sid = Some empty_result).
Proof.
  intros Horder Hbs Hmw Hdbb Hrd.
  destruct (process_in_batches_spec order Horder process_func batch_size
              max_workers delay_between_batches max_retries retry_delay
              progress_callback Hbs Hmw Hdbb Hrd ids) as (tr & results & Heq & Hpost).
  exists tr, results. split; [done|].
  split; [apply (batches_post_invocations Hpost)|].
  split; [apply (batches_post_submitted Hpost)|].
  split; [apply (batches_post_retried Hpost)|].
  split; [apply (batches_post_rounds Hpost)|].
  split; [intros sid; apply (batches_post_dom Hpost)|].
  apply (batches_post_unresolved Hpost).
Qed.

Lemma C4_bounded_retry_rounds_witness :
  ∃ tr results,
    process_in_batches elements (srp_func ∅ dead_world) 5 2 (2 # 1)%Q 2 (5 # 1)%Q
      true ["SRP1"; "SRP2"]
    = (tr, inr results) ∧
    (∀ sid, (invocations sid tr ≤ Z.to_nat (1 + 2))%nat) ∧
    (∀ j sid, (j, sid) ∈ submits tr → sid ∈ ["SRP1"; "SRP2"] ∧ (Z.of_nat j ≤ 2)) ∧
    (∀ j sid, (S j, sid) ∈ submits tr →
       (j, sid) ∈ submits tr ∧ attempt_ok (srp_func ∅ dead_world) j sid = None) ∧
    (∃ rts tail,
       tr = concat rts ++ tail ∧
       (submits tail = [] ∧ sleeps tail = [] ∧ progress_values tail = []) ∧
       (length rts ≤ Z.to_nat (1 + 2))%nat ∧
       (∀ i rt, rts !! i = Some rt → round_shape (2 # 1)%Q (5 # 1)%Q i rt)) ∧
    (∀ sid, sid ∈ ["SRP1"; "SRP2"] → is_Some (results !! sid)) ∧
    (∀ sid, sid ∈ ["SRP1"; "SRP2"] →
       (∀ j, (j, sid) ∈ submits tr →
          attempt_ok (srp_func ∅ dead_world) j sid = None) →
       results !! sid = Some empty_result).
Proof.
  apply (C4_bounded_retry_rounds elements (srp_func ∅ dead_world) 5 2 (2 # 1)%Q 2
           (5 # 1)%Q true ["SRP1"; "SRP2"]).
  - intros X. reflexivity.
  - lia.
  - lia.
  - unfold Qle. simpl. lia.
  - unfold Qle. simpl. lia.
Defined.

Lemma nonempty_true s : nonempty s = true ↔ s ≠ "".
Proof. by destruct s. Qed.

Lemma is_success_fields r :
  is_success r = true ↔ bioproject_id r ≠ "" ∨ geo_id r ≠ "".
Proof.
  unfold is_success. rewrite orb_true_iff, !nonempty_true. done.
Qed.

(** With a cache file that can be written, the file holds afterwards the
    returned record of every input id that was short-circuited or that
    carries an SRP or ERP prefix. *)
Lemma convert_post_cached KNOWN w cfg fs sra_ids tr out fs' p :
  order_ok (set_order w) →
  convert_post KNOWN w cfg fs sra_ids tr out fs' →
  cache_path cfg = Some p → cache_write w = WriteOk →
  ∃ cache,
    fs' = <[p := JsonObject cache]> fs ∧
    (∀ sid, cache !! sid = None → loaded_cache cfg fs !! sid = None) ∧
    (∀ sid, sid ∈ sra_ids →
       is_other sid = false ∨ is_Some (stored KNOWN cfg fs sid) →
       cache !! sid = out !! sid ∧ is_Some (out !! sid)) ∧
    (∀ sid, sid ∈ sra_ids → is_other sid = true →
       stored KNOWN cfg fs sid = None → cache !! sid = None).
Proof.
  intros Horder (t_srp & res_srp & t_erp & res_erp & results
          & Hps & Hpe & -> & Hres & -> & Hsave) Hp Hw.
  rewrite (save_cache_written _ _ _ _ _ _ Hp Hw) in Hsave. injection Hsave as <-.
  exists (results ∪ loaded_cache cfg fs). split; [done|].
  assert (∀ sid, sid ∈ sra_ids →
            sid ∈ filter (λ x, stored KNOWN cfg fs x = None)
                    (set_order w (list_to_set sra_ids))
            ↔ stored KNOWN cfg fs sid = None) as Hrem.
  { intros sid Hin. rewrite list_elem_of_filter, (Horder _), elem_of_elements,
      elem_of_list_to_set. tauto. }
  split; [|split].
  - intros sid. rewrite lookup_union.
    destruct (results !! sid), (loaded_cache cfg fs !! sid); done.
  - intros sid Hin Hkind.
    rewrite final_output_lookup, decide_True by done.
    assert (is_Some (results !! sid)) as [r Hr].
    { rewrite Hres. destruct (stored KNOWN cfg fs sid) as [r|] eqn:Hst.
      - rewrite decide_True by done. by eexists.
      - destruct Hkind as [Hk|[? [=]]].
        unfold is_other in Hk. apply negb_false_iff, orb_true_iff in Hk.
        destruct (is_srp sid) eqn:Hsrp.
        + apply (batches_post_dom Hps). apply list_elem_of_filter.
          split; [done|]. by apply Hrem.
        + destruct Hk as [?|Herp]; [done|]. rewrite Herp.
          apply (batches_post_dom Hpe). apply list_elem_of_filter.
          split; [done|]. by apply Hrem. }
    rewrite lookup_union, Hr. simpl. split; [|by eexists].
    by destruct (loaded_cache cfg fs !! sid).
  - intros sid Hin Hk Hst. rewrite lookup_union, Hres, Hst.
    unfold is_other in Hk. apply negb_true_iff, orb_false_iff in Hk as [-> ->].
    unfold stored in Hst. destruct (KNOWN !! sid); [done|]. by rewrite Hst.
Qed.

(** Where a submission in a [convert_sra_ids] trace comes from. *)
Lemma convert_post_submits KNOWN w cfg fs sra_ids tr out fs' :
  order_ok (set_order w) →
  convert_post KNOWN w cfg fs sra_ids tr out fs' →
  ∃ t_srp res_srp t_erp res_erp srp_ids erp_ids,
    batches_post (srp_func KNOWN w) (delay_between_batches cfg) (max_retries cfg)
      (retry_delay cfg) srp_ids t_srp res_srp ∧
    batches_post (erp_func KNOWN w) (delay_between_batches cfg) (max_retries cfg)
      (retry_delay cfg) erp_ids t_erp res_erp ∧
    submits tr = submits t_srp ++ submits t_erp ∧
    (∀ sid, sid ∈ srp_ids ↔
       sid ∈ sra_ids ∧ stored KNOWN cfg fs sid = None ∧ is_srp sid = true) ∧
    (∀ sid, sid ∈ erp_ids ↔
       sid ∈ sra_ids ∧ stored KNOWN cfg fs sid = None ∧ is_erp sid = true) ∧
    (∀ sid, sid ∈ srp_ids → out !! sid = res_srp !! sid) ∧
    (∀ sid, sid ∈ erp_ids → out !! sid = res_erp !! sid).
Proof.
  intros Horder (t_srp & res_srp & t_erp & res_erp & results
                 & Hps & Hpe & -> & Hres & -> & Hsave).
  assert (∀ x, x ∈ set_order w (list_to_set sra_ids) ↔ x ∈ sra_ids) as Hu.
  { intros x. rewrite (Horder _), elem_of_elements. apply elem_of_list_to_set. }
  eexists t_srp, res_srp, t_erp, res_erp, _, _.
  split; [exact Hps|]. split; [exact Hpe|].
  assert (∀ sid, sid ∈ filter (λ sid, is_srp sid = true)
                   (filter (λ sid, stored KNOWN cfg fs sid = None)
                      (set_order w (list_to_set sra_ids)))
          ↔ sid ∈ sra_ids ∧ stored KNOWN cfg fs sid = None ∧ is_srp sid = true) as Hs.
  { intros x. rewrite !list_elem_of_filter, Hu. tauto. }
  assert (∀ sid, sid ∈ filter (λ sid, is_erp sid = true)
                   (filter (λ sid, stored KNOWN cfg fs sid = None)
                      (set_order w (list_to_set sra_ids)))
          ↔ sid ∈ sra_ids ∧ stored KNOWN cfg fs sid = None ∧ is_erp sid = true) as He.
  { intros x. rewrite !list_elem_of_filter, Hu. tauto. }
  split; [|split; [exact Hs|split; [exact He|split]]].
  - destruct (load_cache_spec cfg fs) as (_ & Hl & _).
    destruct (save_cache_spec w cfg (loaded_cache cfg fs) results fs)
      as (fs2 & _ & Hsv & _).
    rewrite !submits_app, Hl, Hsv, app_nil_r.
    assert (∀ b es, submits (if b : bool then [Progress es] else []) = []) as ->
      by (by intros []).
    assert (∀ b e, submits (if b : bool then [LogWarning e] else []) = []) as ->
      by (by intros []).
    done.
  - intros sid Hin. pose proof Hin as Hin'. apply Hs in Hin as (Hin & Hst & Hsrp).
    rewrite final_output_lookup, decide_True, Hres, Hst, Hsrp by done.
    apply (batches_post_dom Hps) in Hin' as [r ->]. done.
  - intros sid Hin. pose proof Hin as Hin'. apply He in Hin as (Hin & Hst & Herp).
    rewrite final_output_lookup, decide_True, Hres, Hst, Herp by done.
    assert (is_srp sid = false) as ->.
    { destruct (is_srp sid) eqn:E; [|done]. apply is_srp_not_erp in E. congruence. }
    apply (batches_post_dom Hpe) in Hin' as [r ->]. done.
Qed.

(** A success of the per-id function is final: it is the record returned
    for the id, and the id is not submitted again. *)
Lemma convert_post_accepted KNOWN w cfg fs sra_ids tr out fs' j sid r :
  order_ok (set_order w) →
  convert_post KNOWN w cfg fs sra_ids tr out fs' →
  (j, sid) ∈ submits tr →
  attempt_ok (per_id_func KNOWN w sid) j sid = Some r →
  out !! sid = Some r ∧ ∀ j', (j < j')%nat → (j', sid) ∉ submits tr.
Proof.
  intros Horder Hpost Hin Hok.
  destruct (convert_post_submits _ _ _ _ _ _ _ _ Horder Hpost)
    as (t_srp & res_srp & t_erp & res_erp & srp_ids & erp_ids
        & Hps & Hpe & Hsub & Hs & He & Hos & Hoe).
  rewrite Hsub in *. unfold per_id_func in Hok.
  assert (∀ j', (j', sid) ∈ submits t_srp → is_srp sid = true) as Hsrp_only.
  { intros j' H. apply (batches_post_submitted Hps) in H as [H _].
    by apply Hs in H as (_ & _ & ?). }
  assert (∀ j', (j', sid) ∈ submits t_erp → is_srp sid = false) as Herp_only.
  { intros j' H. apply (batches_post_submitted Hpe) in H as [H _].
    apply He in H as (_ & _ & H). destruct (is_srp sid) eqn:E; [|done].
    apply is_srp_not_erp in E. congruence. }
  apply elem_of_app in Hin as [Hin|Hin].
  - rewrite (Hsrp_only _ Hin) in Hok.
    destruct (batches_post_accepted Hps j sid r Hin Hok) as [Hr Hlater].
    split.
    + rewrite Hos; [done|]. by apply (batches_post_submitted Hps) in Hin as [? _].
    + intros j' Hj' [H|H]%elem_of_app; [by apply (Hlater j' Hj')|].
      apply Herp_only in H. apply Hsrp_only in Hin. congruence.
  - rewrite (Herp_only _ Hin) in Hok.
    destruct (batches_post_accepted Hpe j sid r Hin Hok) as [Hr Hlater].
    split.
    + rewrite Hoe; [done|]. by apply (batches_post_submitted Hpe) in Hin as [? _].
    + intros j' Hj' [H|H]%elem_of_app; [|by apply (Hlater j' Hj')].
      apply Hsrp_only in H. apply Herp_only in Hin. congruence.
Qed.

(** ** Runs against the cache written by an earlier run *)

Lemma stored_after_write KNOWN cfg fs p cache sid :
  cache_path cfg = Some p →
  stored KNOWN cfg (<[p := JsonObject cache]> fs) sid
  = match KNOWN !! sid with Some r => Some r | None => cache !! sid end.
Proof.
  intros Hp. unfold stored, loaded_cache. by rewrite Hp, lookup_insert_eq.
Qed.

(** An id without stored record and without SRP or ERP prefix gets the
    empty record, and the unknown-format warning is logged. *)
Lemma convert_post_other KNOWN w cfg fs sra_ids tr out fs' sid :
  order_ok (set_order w) →
  convert_post KNOWN w cfg fs sra_ids tr out fs' →
  sid ∈ sra_ids → is_other sid = true → stored KNOWN cfg fs sid = None →
  out !! sid = Some empty_result ∧
  ∃ n first5, LogWarning (UnknownFormat n first5) ∈ tr.
Proof.
  intros Horder (t_srp & res_srp & t_erp & res_erp & results
                 & Hps & Hpe & -> & Hres & -> & Hsave) Hin Hk Hst.
  split.
  - rewrite final_output_lookup, decide_True, Hres, Hst by done.
    unfold is_other in Hk. by apply negb_true_iff, orb_false_iff in Hk as [-> ->].
  - rewrite bool_decide_eq_true_2.
    + eexists _, _. rewrite !elem_of_app. right. right. left. by left.
    + intros Hnil.
      assert (sid ∈ filter (λ sid, is_other sid = true)
                      (filter (λ sid, stored KNOWN cfg fs sid = None)
                         (set_order w (list_to_set sra_ids)))) as Hmem.
      { rewrite !list_elem_of_filter, (Horder _), elem_of_elements,
          elem_of_list_to_set. done. }
      rewrite Hnil in Hmem. by apply elem_of_nil in Hmem.
Qed.

(** What the first run wrote decides the second run: an id whose record
    was cached is answered from the cache without any lookup. *)
Lemma rerun_from_cache KNOWN w1 w2 cfg fs sra_ids tr1 out1 fs1 p sra_ids2 :
  order_ok (set_order w1) → order_ok (set_order w2) → sane_config cfg →
  convert_post KNOWN w1 cfg fs sra_ids tr1 out1 fs1 →
  cache_path cfg = Some p → cache_write w1 = WriteOk →
  ∃ tr2 out2 fs2,
    convert_sra_ids KNOWN w2 cfg fs1 sra_ids2 = (tr2, inr (out2, fs2)) ∧
    (∀ sid, sid ∈ sra_ids →
       is_other sid = false ∨ is_Some (stored KNOWN cfg fs sid) →
       stored KNOWN cfg fs1 sid = out1 !! sid ∧ is_Some (out1 !! sid) ∧
       invocations sid tr2 = O ∧
       (sid ∈ sra_ids2 → out2 !! sid = out1 !! sid)) ∧
    (∀ sid, sid ∈ sra_ids → is_other sid = true →
       stored KNOWN cfg fs sid = None →
       stored KNOWN cfg fs1 sid = None ∧ invocations sid tr2 = O ∧
       (sid ∈ sra_ids2 → out2 !! sid = out1 !! sid)).
Proof.
  intros Horder1 Horder2 Hsane Hpost1 Hp Hw.
  destruct (convert_post_cached _ _ _ _ _ _ _ _ p Horder1 Hpost1 Hp Hw)
    as (cache & -> & Hold & Hcache & Hother).
  destruct (convert_sra_ids_spec KNOWN w2 cfg (<[p := JsonObject cache]> fs)
              sra_ids2 Horder2 Hsane) as (tr2 & out2 & fs2 & Heq2 & Hpost2).
  exists tr2, out2, fs2. split; [done|]. split.
  - intros sid Hin Hkind.
    destruct (Hcache sid Hin Hkind) as [Hc [r Hr]].
    assert (stored KNOWN cfg (<[p := JsonObject cache]> fs) sid = out1 !! sid)
      as Hst2.
    { rewrite stored_after_write by done.
      destruct (KNOWN !! sid) as [k|] eqn:Hk; [|done].
      symmetry. eapply convert_post_stored; [exact Hpost1|done|].
      unfold stored. by rewrite Hk. }
    split; [done|]. split; [by eexists|]. rewrite Hr in Hst2. split.
    + by eapply convert_post_no_network.
    + intros Hin2. rewrite Hr. by eapply convert_post_stored.
  - intros sid Hin Hk Hst.
    assert (stored KNOWN cfg (<[p := JsonObject cache]> fs) sid = None) as Hst2.
    { rewrite stored_after_write by done.
      pose proof (Hother sid Hin Hk Hst) as Hc.
      unfold stored in Hst. by destruct (KNOWN !! sid). }
    split; [done|]. split.
    + apply no_invocations. intros j Hj.
      apply (convert_post_submitted _ _ _ _ _ _ _ _ _ _ Horder2 Hpost2) in Hj
        as (_ & _ & ? & _). congruence.
    + intros Hin2.
      destruct (convert_post_other _ _ _ _ _ _ _ _ sid Horder1 Hpost1 Hin Hk Hst)
        as [-> _].
      by destruct (convert_post_other _ _ _ _ _ _ _ _ sid Horder2 Hpost2 Hin2 Hk Hst2)
        as [-> _].
Qed.

(** C9: running [convert_sra_ids] a second time with the same input list,
    the same known mappings and the cache file as the first run left it
    returns the same mapping as the first run, whatever the network
    answers the second time; the second run issues no lookup at all. *)
Theorem C9_idempotent_runs KNOWN w1 w2 cfg fs sra_ids p :
  order_ok (set_order w1) → order_ok (set_order w2) → sane_config cfg →
  cache_path cfg = Some p → cache_write w1 = WriteOk →
  ∃ tr1 out fs1 tr2 fs2,
    convert_sra_ids KNOWN w1 cfg fs sra_ids = (tr1, inr (out, fs1)) ∧
    convert_sra_ids KNOWN w2 cfg fs1 sra_ids = (tr2, inr (out, fs2)) ∧
    submits tr2 = [].
Proof.
  intros Horder1 Horder2 Hsane Hp Hw.
  destruct (convert_sra_ids_spec KNOWN w1 cfg fs sra_ids Horder1 Hsane)
    as (tr1 & out1 & fs1 & Heq1 & Hpost1).
  destruct (rerun_from_cache KNOWN w1 w2 cfg fs sra_ids tr1 out1 fs1 p sra_ids
              Horder1 Horder2 Hsane Hpost1 Hp Hw)
    as (tr2 & out2 & fs2 & Heq2 & Hhit & Hmiss).
  assert (∀ sid, sid ∈ sra_ids →
            invocations sid tr2 = O ∧ out2 !! sid = out1 !! sid) as Hsame.
  { intros sid Hin.
    destruct (is_other sid) eqn:Hk.
    - destruct (stored KNOWN cfg fs sid) as [r|] eqn:Hst.
      + destruct (Hhit sid Hin) as (_ & _ & ? & Ho); [right; by eexists|]. auto.
      + destruct (Hmiss sid Hin Hk Hst) as (_ & ? & Ho). auto.
    - destruct (Hhit sid Hin (or_introl Hk)) as (_ & _ & ? & Ho). auto. }
  destruct (convert_sra_ids_spec KNOWN w2 cfg fs1 sra_ids Horder2 Hsane)
    as (tr2' & out2' & fs2' & Heq2' & Hpost2).
  rewrite Heq2 in Heq2'. injection Heq2' as <- <- <-.
  assert (out2 = out1) as ->.
  { apply map_eq. intros sid. destruct (decide (sid ∈ sra_ids)) as [Hin|Hin].
    - by apply Hsame.
    - destruct (out2 !! sid) eqn:H2.
      { exfalso. apply Hin, (convert_post_dom _ _ _ _ _ _ _ _ sid Hpost2). by eexists. }
      destruct (out1 !! sid) eqn:H1; [|done].
      exfalso. apply Hin, (convert_post_dom _ _ _ _ _ _ _ _ sid Hpost1). by eexists. }
  exists tr1, out1, fs1, tr2, fs2. split; [done|]. split; [done|].
  apply elem_of_nil_inv. intros [j sid] Hj.
  pose proof (convert_post_submitted _ _ _ _ _ _ _ _ _ _ Horder2 Hpost2 Hj)
    as (Hin & _).
  destruct (Hsame sid Hin) as [Hinv _].
  unfold invocations in Hinv. apply length_zero_iff_nil in Hinv.
  assert ((j, sid) ∈ filter (λ p : nat * string, p.2 = sid) (submits tr2)) as Hmem
    by (by apply list_elem_of_filter).
  rewrite Hinv in Hmem. by apply elem_of_nil in Hmem.
Qed.

Lemma C9_idempotent_runs_witness :
  ∃ tr1 out fs1 tr2 fs2,
    convert_sra_ids ∅ partial_world cached_config ∅ ["SRP1"; "XYZ123"; "ERP5"]
    = (tr1, inr (out, fs1)) ∧
    convert_sra_ids ∅ dead_world cached_config fs1 ["SRP1"; "XYZ123"; "ERP5"]
    = (tr2, inr (out, fs2)) ∧
    submits tr2 = [].
Proof.
  apply (C9_idempotent_runs ∅ partial_world dead_world cached_config ∅
           ["SRP1"; "XYZ123"; "ERP5"] "cache.json").
  - intros X. reflexivity.
  - intros X. reflexivity.
  - unfold sane_config, Qle. simpl. lia.
  - reflexivity.
  - reflexivity.
Defined.

(** The claim C6 as stated fails when the unrecognized id has a cached
    record: the cached record is returned and no warning is logged. *)
Lemma C6_counterexample :
  is_other "XYZ123" = true ∧
  convert_sra_ids ∅ dead_world cached_config seeded_fs ["XYZ123"]
  = ([Progress 1],
     inr ({["XYZ123" := mkResult "PRJNA1" "GSE1"]}, seeded_fs)) ∧
  mkResult "PRJNA1" "GSE1" ≠ empty_result.
Proof. split; [reflexivity|]. split; [vm_compute; reflexivity|discriminate]. Qed.

(** C6, amended: an input id with an unrecognized prefix that has no
    record in the known mappings or the loaded cache is returned with the
    empty record; the per-id lookup function is never invoked on it, so
    neither lookup nor retry is attempted; the unknown-format warning is
    logged; and the call returns normally. *)
Theorem C6_unrecognized_prefix KNOWN w cfg fs sra_ids sid :
  order_ok (set_order w) → sane_config cfg →
  sid ∈ sra_ids → is_other sid = true → stored KNOWN cfg fs sid = None →
  ∃ tr out fs',
    convert_sra_ids KNOWN w cfg fs sra_ids = (tr, inr (out, fs')) ∧
    out !! sid = Some empty_result ∧
    invocations sid tr = O ∧
    ∃ n first5, LogWarning (UnknownFormat n first5) ∈ tr.
Proof.
  intros Horder Hsane Hin Hk Hst.
  destruct (convert_sra_ids_spec KNOWN w cfg fs sra_ids Horder Hsane)
    as (tr & out & fs' & Heq & Hpost).
  exists tr, out, fs'. split; [done|].
  destruct (convert_post_other _ _ _ _ _ _ _ _ sid Horder Hpost Hin Hk Hst)
    as [Hout Hwarn].
  split; [done|]. split; [|done].
  apply no_invocations. intros j Hj.
  apply (convert_post_submitted _ _ _ _ _ _ _ _ _ _ Horder Hpost) in Hj
    as (_ & _ & ? & _). congruence.
Qed.

Lemma C6_unrecognized_prefix_witness :
  ∃ tr out fs',
    convert_sra_ids ∅ dead_world cached_config ∅ ["SRP1"; "XYZ123"]
    = (tr, inr (out, fs')) ∧
    out !! "XYZ123" = Some empty_result ∧
    invocations "XYZ123" tr = O ∧
    ∃ n first5, LogWarning (UnknownFormat n first5) ∈ tr.
Proof.
  apply (C6_unrecognized_prefix ∅ dead_world cached_config ∅
           ["SRP1"; "XYZ123"] "XYZ123").
  - intros X. reflexivity.
  - unfold sane_config, Qle. simpl. lia.
  - right. left.
  - reflexivity.
  - reflexivity.
Defined.

(** The claim C5 as stated fails for an unrecognized prefix: the final
    result is the empty record, and the cache file written at the end of
    the run has no entry for the id. *)
Lemma C5_counterexample :
  convert_sra_ids ∅ dead_world cached_config ∅ ["XYZ123"]
  = ([LogWarning (UnknownFormat 1 ["XYZ123"])],
     inr ({["XYZ123" := empty_result]}, {["cache.json" := JsonObject ∅]})) ∧
  (∅ : gmap string ResolutionResult) !! "XYZ123" = None.
Proof. split; [vm_compute; reflexivity|reflexivity]. Qed.

(** C5, amended: with a cache file that can be written, every input id
    that carries an SRP or ERP prefix (or was short-circuited) and whose
    final result is the all-empty record has that empty record in the
    cache file at the end of the run, and a later run never invokes the
    lookup function on it. An id with an unrecognized prefix and no stored
    record also ends with the empty record, but is not written to the
    cache; no run ever invokes the lookup function on it. *)
Theorem C5_empty_results_cached KNOWN w cfg fs sra_ids p :
  order_ok (set_order w) → sane_config cfg →
  cache_path cfg = Some p → cache_write w = WriteOk →
  ∃ tr out cache,
    convert_sra_ids KNOWN w cfg fs sra_ids
    = (tr, inr (out, <[p := JsonObject cache]> fs)) ∧
    (∀ sid, sid ∈ sra_ids → out !! sid = Some empty_result →
       is_other sid = false ∨ is_Some (stored KNOWN cfg fs sid) →
       cache !! sid = Some empty_result ∧
       ∀ w2 sra_ids2, order_ok (set_order w2) →
         ∃ tr2 out2 fs2,
           convert_sra_ids KNOWN w2 cfg (<[p := JsonObject cache]> fs) sra_ids2
           = (tr2, inr (out2, fs2)) ∧
           invocations sid tr2 = O) ∧
    (∀ sid, sid ∈ sra_ids → is_other sid = true →
       stored KNOWN cfg fs sid = None →
       out !! sid = Some empty_result ∧ cache !! sid = None ∧
       invocations sid tr = O ∧
       ∀ w2 sra_ids2, order_ok (set_order w2) →
         ∃ tr2 out2 fs2,
           convert_sra_ids KNOWN w2 cfg (<[p := JsonObject cache]> fs) sra_ids2
           = (tr2, inr (out2, fs2)) ∧
           invocations sid tr2 = O).
Proof.
  intros Horder Hsane Hp Hw.
  destruct (convert_sra_ids_spec KNOWN w cfg fs sra_ids Horder Hsane)
    as (tr & out & fs' & Heq & Hpost).
  destruct (convert_post_cached _ _ _ _ _ _ _ _ p Horder Hpost Hp Hw)
    as (cache & Hfs & _ & Hcache & Hother).
  subst fs'. exists tr, out, cache. split; [done|]. split.
  - intros sid Hin Hout Hkind. destruct (Hcache sid Hin Hkind) as [Hc _].
    split; [congruence|].
    intros w2 sra_ids2 Horder2.
    destruct (rerun_from_cache KNOWN w w2 cfg fs sra_ids tr out _ p sra_ids2
                Horder Horder2 Hsane Hpost Hp Hw)
      as (tr2 & out2 & fs2 & Heq2 & Hhit & _).
    exists tr2, out2, fs2. split; [done|].
    by destruct (Hhit sid Hin Hkind) as (_ & _ & ? & _).
  - intros sid Hin Hk Hst.
    destruct (convert_post_other _ _ _ _ _ _ _ _ sid Horder Hpost Hin Hk Hst)
      as [Hout _].
    split; [done|]. split; [by apply Hother|]. split.
    + apply no_invocations. intros j Hj.
      apply (convert_post_submitted _ _ _ _ _ _ _ _ _ _ Horder Hpost) in Hj
        as (_ & _ & ? & _). congruence.
    + intros w2 sra_ids2 Horder2.
      destruct (rerun_from_cache KNOWN w w2 cfg fs sra_ids tr out _ p sra_ids2
                  Horder Horder2 Hsane Hpost Hp Hw)
        as (tr2 & out2 & fs2 & Heq2 & _ & Hmiss).
      exists tr2, out2, fs2. split; [done|].
      by destruct (Hmiss sid Hin Hk Hst) as (_ & ? & _).
Qed.

Lemma C5_empty_results_cached_witness :
  ∃ tr out cache,
    convert_sra_ids ∅ dead_world cached_config ∅ ["SRP1"; "XYZ123"]
    = (tr, inr (out, <["cache.json" := JsonObject cache]> ∅)) ∧
    (∀ sid, sid ∈ ["SRP1"; "XYZ123"] → out !! sid = Some empty_result →
       is_other sid = false ∨ is_Some (stored ∅ cached_config ∅ sid) →
       cache !! sid = Some empty_result ∧
       ∀ w2 sra_ids2, order_ok (set_order w2) →
         ∃ tr2 out2 fs2,
           convert_sra_ids ∅ w2 cached_config
             (<["cache.json" := JsonObject cache]> ∅) sra_ids2
           = (tr2, inr (out2, fs2)) ∧
           invocations sid tr2 = O) ∧
    (∀ sid, sid ∈ ["SRP1"; "XYZ123"] → is_other sid = true →
       stored ∅ cached_config ∅ sid = None →
       out !! sid = Some empty_result ∧ cache !! sid = None ∧
       invocations sid tr = O ∧
       ∀ w2 sra_ids2, order_ok (set_order w2) →
         ∃ tr2 out2 fs2,
           convert_sra_ids ∅ w2 cached_config
             (<["cache.json" := JsonObject cache]> ∅) sra_ids2
           = (tr2, inr (out2, fs2)) ∧
           invocations sid tr2 = O).
Proof.
  apply (C5_empty_results_cached ∅ dead_world cached_config ∅
           ["SRP1"; "XYZ123"] "cache.json").
  - intros X. reflexivity.
  - unfold sane_config, Qle. simpl. lia.
  - reflexivity.
  - reflexivity.
Defined.

(** The run behind the witness: the SRP id that could not be resolved in
    three rounds is cached with the empty record, the unrecognized id is
    not. *)
Example empty_result_run :
  convert_sra_ids ∅ dead_world cached_config ∅ ["SRP1"; "XYZ123"]
  = ([LogWarning (UnknownFormat 1 ["XYZ123"]);
      Submit 0 "SRP1"; Sleep (5 # 1); Submit 1 "SRP1"; Sleep (5 # 1);
      Submit 2 "SRP1"; LogWarning (FailedAfterRetries 1 2)],
     inr ({["SRP1" := empty_result; "XYZ123" := empty_result]},
          {["cache.json" := JsonObject {["SRP1" := empty_result]}]})).
Proof. vm_compute. reflexivity. Qed.

(** ** The ERP fallback *)

(** When every network method falls through, [process_erp_id] still
    returns the BioProject id derived from the digits of the accession. *)
Lemma process_erp_id_fallback KNOWN net erp_id digits :
  KNOWN !! erp_id = None → all_methods_fail net →
  re_search_ERP erp_id = Some digits →
  process_erp_id KNOWN net erp_id = mkResult ("PRJEB" +:+ digits) "".
Proof.
  intros Hk (H1 & H2 & H3) Hre.
  unfold process_erp_id, get_arrayexpress_from_erp, get_bioproject_from_erp.
  by rewrite Hk, H1, H2, H3, Hre.
Qed.

(** The claim C3 as stated fails: with every lookup method failing in
    every round and [max_retries = 2], the entry of ["ERP999999"] is not
    the empty record but the one with the derived BioProject id, obtained
    in round 0 without any retry. *)
Lemma C3_counterexample :
  (∀ round, all_methods_fail (erp_net dead_world round "ERP999999")) ∧
  max_retries cached_config = 2 ∧
  convert_sra_ids ∅ dead_world cached_config ∅ ["ERP999999"]
  = ([Submit 0 "ERP999999"; Progress 1],
     inr ({["ERP999999" := mkResult "PRJEB999999" ""]},
          {["cache.json" := JsonObject {["ERP999999" := mkResult "PRJEB999999" ""]}]})) ∧
  mkResult "PRJEB999999" "" ≠ empty_result.
Proof.
  split; [by intros round|]. split; [reflexivity|].
  split; [vm_compute; reflexivity|discriminate].
Qed.

(** C3, amended: if every lookup method for ["ERP999999"] fails in every
    round and [max_retries = 2], the id is submitted in round 0 only (no
    retry round), its final output entry is
    [{"bioproject_id": "PRJEB999999", "geo_id": ""}], that record is
    written to the cache file, and a later run with the same cache file
    never invokes the lookup function on it and returns the same
    record. *)
Theorem C3_erp_fallback_result KNOWN w cfg fs sra_ids p :
  order_ok (set_order w) → sane_config cfg → max_retries cfg = 2 →
  cache_path cfg = Some p → cache_write w = WriteOk →
  "ERP999999" ∈ sra_ids → stored KNOWN cfg fs "ERP999999" = None →
  (∀ round, all_methods_fail (erp_net w round "ERP999999")) →
  ∃ tr out cache,
    convert_sra_ids KNOWN w cfg fs sra_ids
    = (tr, inr (out, <[p := JsonObject cache]> fs)) ∧
    out !! "ERP999999" = Some (mkResult "PRJEB999999" "") ∧
    (O, "ERP999999") ∈ submits tr ∧
    (∀ j, (j, "ERP999999") ∈ submits tr → j = O) ∧
    cache !! "ERP999999" = Some (mkResult "PRJEB999999" "") ∧
    ∀ w2, order_ok (set_order w2) →
      ∃ tr2 out2 fs2,
        convert_sra_ids KNOWN w2 cfg (<[p := JsonObject cache]> fs) sra_ids
        = (tr2, inr (out2, fs2)) ∧
        invocations "ERP999999" tr2 = O ∧
        out2 !! "ERP999999" = Some (mkResult "PRJEB999999" "").
Proof.
  intros Horder Hsane Hmr Hp Hw Hin Hst Hfail.
  destruct (convert_sra_ids_spec KNOWN w cfg fs sra_ids Horder Hsane)
    as (tr & out & fs' & Heq & Hpost).
  destruct (convert_post_cached _ _ _ _ _ _ _ _ p Horder Hpost Hp Hw)
    as (cache & Hfs & _ & Hcache & _).
  subst fs'. exists tr, out, cache. split; [done|].
  assert (KNOWN !! "ERP999999" = None) as Hk.
  { unfold stored in Hst. by destruct (KNOWN !! "ERP999999"). }
  assert (attempt_ok (per_id_func KNOWN w "ERP999999") 0 "ERP999999"
          = Some (mkResult "PRJEB999999" "")) as Hok.
  { unfold attempt_ok, per_id_func, erp_func. simpl.
    by rewrite (process_erp_id_fallback KNOWN _ "ERP999999" "999999" Hk (Hfail O)). }
  assert ((O, "ERP999999") ∈ submits tr) as Hsub.
  { destruct (convert_post_submits _ _ _ _ _ _ _ _ Horder Hpost)
      as (t_srp & res_srp & t_erp & res_erp & srp_ids & erp_ids
          & Hps & Hpe & -> & Hs & He & _).
    apply elem_of_app. right. apply (batches_post_first Hpe); [|lia].
    by apply He. }
  destruct (convert_post_accepted _ _ _ _ _ _ _ _ O "ERP999999" _ Horder Hpost
              Hsub Hok) as [Hout Hlater].
  split; [done|]. split; [done|]. split.
  { intros j Hj. destruct j as [|j]; [done|].
    exfalso. apply (Hlater (S j)); [lia|done]. }
  destruct (Hcache "ERP999999" Hin (or_introl eq_refl)) as [Hc _].
  split; [congruence|].
  intros w2 Horder2.
  destruct (rerun_from_cache KNOWN w w2 cfg fs sra_ids tr out _ p sra_ids
              Horder Horder2 Hsane Hpost Hp Hw)
    as (tr2 & out2 & fs2 & Heq2 & Hhit & _).
  exists tr2, out2, fs2. split; [done|].
  destruct (Hhit "ERP999999" Hin (or_introl eq_refl)) as (_ & _ & ? & Hsame).
  split; [done|]. rewrite Hsame by done. done.
Qed.

Lemma C3_erp_fallback_result_witness :
  ∃ tr out cache,
    convert_sra_ids ∅ dead_world cached_config ∅ ["ERP999999"]
    = (tr, inr (out, <["cache.json" := JsonObject cache]> ∅)) ∧
    out !! "ERP999999" = Some (mkResult "PRJEB999999" "") ∧
    (O, "ERP999999") ∈ submits tr ∧
    (∀ j, (j, "ERP999999") ∈ submits tr → j = O) ∧
    cache !! "ERP999999" = Some (mkResult "PRJEB999999" "") ∧
    ∀ w2, order_ok (set_order w2) →
      ∃ tr2 out2 fs2,
        convert_sra_ids ∅ w2 cached_config
          (<["cache.json" := JsonObject cache]> ∅) ["ERP999999"]
        = (tr2, inr (out2, fs2)) ∧
        invocations "ERP999999" tr2 = O ∧
        out2 !! "ERP999999" = Some (mkResult "PRJEB999999" "").
Proof.
  apply (C3_erp_fallback_result ∅ dead_world cached_config ∅ ["ERP999999"]
           "cache.json").
  - intros X. reflexivity.
  - unfold sane_config, Qle. simpl. lia.
  - reflexivity.
  - reflexivity.
  - reflexivity.
  - left.
  - reflexivity.
  - intros round. unfold all_methods_fail. simpl. repeat split; reflexivity.
Defined.

(** ** Request helpers *)

Lemma sleep_backoff i :
  sleep (inject_Z (2 ^ Z.of_nat i)) = ([Sleep (inject_Z (2 ^ Z.of_nat i))], inr tt).
Proof.
  apply sleep_ok. unfold Qle. simpl.
  pose proof (Z.pow_nonneg 2 (Z.of_nat i)). lia.
Qed.

(** The retry loop from iteration [i] on: [n] attempts are made, attempt
    [i + k] after a sleep of [2 ** (i + k)]; every attempt but the last
    met a transient reply, and the last one decides the outcome. *)
Lemma retry_from_spec reply base_url remaining : ∀ i,
  ∃ tr res n,
    retry_from reply base_url i remaining = (tr, res) ∧
    (n ≤ remaining)%nat ∧
    sleeps tr = (λ k : nat, inject_Z (2 ^ Z.of_nat k)) <$> seq i n ∧
    requests tr = replicate n base_url ∧
    (∀ k, (k < n)%nat → (S k < n)%nat ∨ res = inr None →
          transient (reply (i + k)%nat) = true) ∧
    match res with
    | inr None => n = remaining
    | inr (Some r) =>
        ∃ m, n = S m ∧ reply (i + m)%nat = BodyJson r ∧
             has_key r = true ∧ has_error r = false
    | inl e =>
        e = RequestException ∧
        ∃ m, n = S m ∧ reply (i + m)%nat = ConnectionFailed
    end.
Proof.
  induction remaining as [|remaining IH]; intros i.
  - exists [], (inr None), O. simpl. repeat split; try done. intros k Hk. lia.
  - simpl retry_from. rewrite sleep_backoff.
    destruct (IH (S i)) as (tr & res & n & Heq & Hn & Hsl & Hrq & Htr & Hres).
    assert (∀ k, (k < S n)%nat → (S k < S n)%nat ∨ res = inr None →
              transient (reply i) = true →
              transient (reply (i + k)%nat) = true) as Hstep.
    { intros [|k] Hk Hlast Hi; [by rewrite Nat.add_0_r|].
      replace (i + S k)%nat with (S i + k)%nat by lia.
      apply Htr; [lia|]. destruct Hlast as [?|?]; [left; lia|by right]. }
    assert (match res with
            | inr None => S n = S remaining
            | inr (Some r) =>
                ∃ m, S n = S m ∧ reply (i + m)%nat = BodyJson r ∧
                     has_key r = true ∧ has_error r = false
            | inl e =>
                e = RequestException ∧
                ∃ m, S n = S m ∧ reply (i + m)%nat = ConnectionFailed
            end) as Hres'.
    { destruct res as [e|[r|]].
      - destruct Hres as (-> & m & -> & Hm). split; [done|].
        exists (S m). split; [done|]. by rewrite <- Nat.add_succ_comm.
      - destruct Hres as (m & -> & Hm & ? & ?).
        exists (S m). split; [done|]. by rewrite <- Nat.add_succ_comm.
      - by subst n. }
    destruct (reply i) as [| |r] eqn:Hri.
    + exists [Sleep (inject_Z (2 ^ Z.of_nat i)); HttpGet base_url],
             (inl RequestException), 1%nat.
      simpl. split; [done|]. split; [lia|]. split; [done|]. split; [done|].
      split.
      * intros k Hk [?|[=]]. lia.
      * split; [done|]. exists O. by rewrite Nat.add_0_r.
    + exists (Sleep (inject_Z (2 ^ Z.of_nat i)) :: HttpGet base_url :: tr), res, (S n).
      simpl. rewrite Heq. split; [done|]. split; [lia|].
      split; [by rewrite Hsl|]. split; [by rewrite Hrq|].
      split; [|done]. intros k Hk Hlast. by apply Hstep.
    + destruct (has_key r && negb (has_error r)) eqn:Hgood.
      * exists [Sleep (inject_Z (2 ^ Z.of_nat i)); HttpGet base_url],
               (inr (Some r)), 1%nat.
        simpl. split; [done|]. split; [lia|].
        split; [done|]. split; [done|]. split.
        -- intros k Hk [?|[=]]. lia.
        -- exists O. rewrite Nat.add_0_r.
           apply andb_true_iff in Hgood as [? ?%negb_true_iff]. done.
      * exists (Sleep (inject_Z (2 ^ Z.of_nat i)) :: HttpGet base_url :: tr), res, (S n).
        simpl. rewrite Heq. split; [done|]. split; [lia|].
        split; [by rewrite Hsl|]. split; [by rewrite Hrq|].
        split; [|done]. intros k Hk Hlast. apply Hstep; [done|done|].
        simpl. by rewrite Hgood.
Qed.





(** ** Progress reporting *)





(** The counter restarts in every call of [process_in_batches]: two ids
    answered from the cache and one resolved over the network are
    reported as 2 and then 1. *)
Example progress_restarts_per_phase :
  progress_values
    (trace (convert_sra_ids ∅ live_world cached_config two_cached_fs
              ["SRP1"; "SRP2"; "SRP3"]))
  = [2; 1].
Proof. vm_compute. reflexivity. Qed.



(** ** Arguments outside the intended range *)

Lemma list_to_set_nonempty (ids : list string) :
  ids ≠ [] → (list_to_set ids : gset string) ≠ ∅.
Proof.
  destruct ids as [|x ids]; [done|]. intros _ Hempty.
  assert (x ∈ (list_to_set (x :: ids) : gset string)) as Hx
    by (apply elem_of_list_to_set; left).
  rewrite Hempty in Hx. by apply not_elem_of_empty in Hx.
Qed.

Lemma loop_guard_first max_retries (ids : list string) :
  ids ≠ [] → 0 ≤ max_retries →
  loop_guard max_retries 0 (list_to_set ids) = true ∧
  ∃ fuel, rounds_left max_retries 0 = S fuel.
Proof.
  intros Hne Hmr. split.
  - unfold loop_guard. apply andb_true_iff. split.
    + apply bool_decide_eq_true. by apply list_to_set_nonempty.
    + apply Z.leb_le. lia.
  - exists (Z.to_nat max_retries). unfold rounds_left. lia.
Qed.

Lemma process_in_batches_zero_step order process_func max_workers
    delay_between_batches max_retries retry_delay progress_callback ids :
  ids ≠ [] → 0 ≤ max_retries →
  process_in_batches order process_func 0 max_workers delay_between_batches
    max_retries retry_delay progress_callback ids
  = ([], inl (ValueError "range() arg 3 must not be zero")).
Proof.
  intros Hne Hmr. unfold process_in_batches.
  destruct (loop_guard_first max_retries ids Hne Hmr) as [Hguard [fuel ->]].
  simpl while_loop. rewrite Hguard. reflexivity.
Qed.

(** X1: with [batch_size = 0], [range(0, len(current_ids), 0)] raises
    [ValueError] in the first round, before anything is submitted. *)
Theorem batch_size_zero_raises order process_func max_workers
    delay_between_batches max_retries retry_delay progress_callback ids :
  ids ≠ [] → 0 ≤ max_retries →
  process_in_batches order process_func 0 max_workers delay_between_batches
    max_retries retry_delay progress_callback ids
  = ([], inl (ValueError "range() arg 3 must not be zero")).
Proof. apply process_in_batches_zero_step. Qed.

Lemma batch_size_zero_raises_witness :
  process_in_batches elements (srp_func ∅ live_world) 0 2 (2 # 1)%Q 3 (5 # 1)%Q
    true ["SRP1"]
  = ([], inl (ValueError "range() arg 3 must not be zero")).
Proof.
  apply (batch_size_zero_raises elements (srp_func ∅ live_world) 2 (2 # 1)%Q 3
           (5 # 1)%Q true ["SRP1"]).
  - discriminate.
  - lia.
Defined.

Lemma py_range_negative_step stop step :
  0 ≤ stop → step < 0 → py_range 0 stop step = ([], inr []).
Proof.
  intros Hstop Hstep. unfold py_range.
  rewrite (proj2 (Z.eqb_neq _ _)) by lia.
  rewrite (proj2 (Z.ltb_ge _ _)) by lia.
  assert ((0 - stop - step - 1) `div` (- step) ≤ 0) as Hq.
  { destruct (decide (0 - stop - step - 1 < 0)) as [Hneg|Hpos].
    - pose proof (Z.div_lt_upper_bound (0 - stop - step - 1) (- step) 0
                    ltac:(lia) ltac:(lia)). lia.
    - rewrite Z.div_small; lia. }
  replace (Z.to_nat ((0 - stop - step - 1) `div` (- step))) with O by lia.
  reflexivity.
Qed.

(** X2: a negative [batch_size] makes every round empty: nothing is
    submitted, nothing fails, and the returned map is empty, so the input
    ids are absent from it. *)
Theorem negative_batch_size_drops_ids order process_func batch_size max_workers
    delay_between_batches max_retries retry_delay progress_callback ids :
  batch_size < 0 → 0 ≤ max_retries →
  process_in_batches order process_func batch_size max_workers
    delay_between_batches max_retries retry_delay progress_callback ids
  = ([], inr ∅).
Proof.
  intros Hbs Hmr. unfold process_in_batches.
  assert (∀ fuel k res total,
            while_loop order process_func batch_size max_workers
              delay_between_batches max_retries retry_delay progress_callback
              fuel k ∅ res total = ([], inr (res, ∅, total))) as Hdone.
  { intros [|fuel] k res total; simpl; [done|].
    unfold loop_guard. by rewrite bool_decide_eq_false_2 by (intros H; by apply H). }
  destruct (decide (ids = [])) as [->|Hne].
  { rewrite list_to_set_nil, Hdone. simpl.
    by rewrite bool_decide_eq_false_2 by (intros H; by apply H). }
  destruct (loop_guard_first max_retries ids Hne Hmr) as [Hguard [fuel ->]].
  simpl while_loop. rewrite Hguard. unfold run_round.
  rewrite py_range_negative_step by (unfold len; lia).
  simpl. rewrite Hdone. simpl.
  by rewrite bool_decide_eq_false_2 by (intros H; by apply H).
Qed.

Lemma negative_batch_size_drops_ids_witness :
  process_in_batches elements (srp_func ∅ live_world) (-1) 2 (2 # 1)%Q 3
    (5 # 1)%Q true ["SRP1"; "SRP2"]
  = ([], inr ∅).
Proof.
  apply (negative_batch_size_drops_ids elements (srp_func ∅ live_world) (-1) 2
           (2 # 1)%Q 3 (5 # 1)%Q true ["SRP1"; "SRP2"]).
  - lia.
  - lia.
Defined.

(** X3: a negative [max_retries] skips the loop altogether: the per-id
    function is never invoked, whatever the other arguments are, and every
    input id gets the empty record. *)
Theorem negative_max_retries_no_attempt order process_func batch_size
    max_workers delay_between_batches max_retries retry_delay
    progress_callback ids :
  order_ok order → max_retries < 0 →
  ∃ tr results,
    process_in_batches order process_func batch_size max_workers
      delay_between_batches max_retries retry_delay progress_callback ids
    = (tr, inr results) ∧
    submits tr = [] ∧ sleeps tr = [] ∧
    ∀ sid, results !! sid = if decide (sid ∈ ids) then Some empty_result else None.
Proof.
  intros Horder Hmr. unfold process_in_batches.
  assert (rounds_left max_retries 0 = O) as -> by (unfold rounds_left; lia).
  simpl. destruct (bool_decide (list_to_set ids ≠ ∅)) eqn:Hne; simpl.
  - eexists _, _. split; [reflexivity|]. split; [done|]. split; [done|].
    intros sid. rewrite (add_empty_results_lookup order Horder), lookup_empty.
    destruct (decide (sid ∈ (list_to_set ids : gset string))) as [Hi|Hi],
             (decide (sid ∈ ids)) as [Hj|Hj]; try done;
      rewrite elem_of_list_to_set in Hi; done.
  - eexists _, _. split; [reflexivity|]. split; [done|]. split; [done|].
    intros sid. rewrite lookup_empty.
    apply bool_decide_eq_false in Hne. apply dec_stable in Hne.
    destruct (decide (sid ∈ ids)) as [Hj|Hj]; [|done].
    apply (elem_of_list_to_set (C := gset string)) in Hj. rewrite Hne in Hj.
    by apply not_elem_of_empty in Hj.
Qed.

Lemma negative_max_retries_no_attempt_witness :
  ∃ tr results,
    process_in_batches elements (srp_func ∅ live_world) 0 0 (2 # 1)%Q (-1)
      (5 # 1)%Q true ["SRP1"]
    = (tr, inr results) ∧
    submits tr = [] ∧ sleeps tr = [] ∧
    ∀ sid, results !! sid
           = if decide (sid ∈ ["SRP1"]) then Some empty_result else None.
Proof.
  apply (negative_max_retries_no_attempt elements (srp_func ∅ live_world) 0 0
           (2 # 1)%Q (-1) (5 # 1)%Q true ["SRP1"]).
  - intros X. reflexivity.
  - lia.
Defined.

(** X4: with [max_workers <= 0], [ThreadPoolExecutor] raises [ValueError]
    when the first batch is set up, before any submission. *)
Theorem max_workers_nonpositive_raises order process_func batch_size
    max_workers delay_between_batches max_retries retry_delay
    progress_callback ids :
  order_ok order → ids ≠ [] → 0 ≤ max_retries → 0 < batch_size →
  max_workers ≤ 0 →
  process_in_batches order process_func batch_size max_workers
    delay_between_batches max_retries retry_delay progress_callback ids
  = ([], inl (ValueError "max_workers must be greater than 0")).
Proof.
  intros Horder Hne Hmr Hbs Hmw. unfold process_in_batches.
  destruct (loop_guard_first max_retries ids Hne Hmr) as [Hguard [fuel ->]].
  simpl while_loop. rewrite Hguard. unfold run_round.
  rewrite (py_range_batches batch_size Hbs).
  assert (order (list_to_set ids) ≠ []) as Hcur.
  { intros Hnil. apply (list_to_set_nonempty ids Hne).
    apply set_eq. intros x. rewrite <- (order_elem order Horder), Hnil.
    split; [by intros ?%elem_of_nil|by intros ?%not_elem_of_empty]. }
  assert (∃ m, Z.to_nat ((len (order (list_to_set ids)) + batch_size - 1)
                           `div` batch_size) = S m) as [m ->].
  { destruct (order (list_to_set ids)) as [|x l] eqn:Hl; [done|].
    assert (1 ≤ (len (x :: l) + batch_size - 1) `div` batch_size).
    { apply Z.div_le_lower_bound; [lia|]. unfold len. simpl length. lia. }
    exists (Z.to_nat ((len (x :: l) + batch_size - 1) `div` batch_size) - 1)%nat.
    lia. }
  simpl. unfold run_batch at 1.
  rewrite (proj2 (Z.leb_le _ _)) by lia. reflexivity.
Qed.

Lemma max_workers_nonpositive_raises_witness :
  process_in_batches elements (srp_func ∅ live_world) 5 0 (2 # 1)%Q 3 (5 # 1)%Q
    true ["SRP1"]
  = ([], inl (ValueError "max_workers must be greater than 0")).
Proof.
  apply (max_workers_nonpositive_raises elements (srp_func ∅ live_world) 5 0
           (2 # 1)%Q 3 (5 # 1)%Q true ["SRP1"]).
  - intros X. reflexivity.
  - discriminate.
  - lia.
  - lia.
  - lia.
Defined.

(** ** The submissions of one call of [process_in_batches] *)

Lemma while_loop_submits_NoDup order (Horder : order_ok order) process_func
    batch_size max_workers delay_between_batches max_retries retry_delay
    progress_callback
    (Hbs : 0 < batch_size) (Hmw : 0 < max_workers)
    (Hdbb : (0 <= delay_between_batches)%Q) (Hrd : (0 <= retry_delay)%Q) fuel :
  ∀ k F res total tr st,
    while_loop order process_func batch_size max_workers delay_between_batches
      max_retries retry_delay progress_callback fuel k F res total
    = (tr, inr st) →
    NoDup (submits tr) ∧ ∀ j sid, (j, sid) ∈ submits tr → (k ≤ j)%nat.
Proof.
  induction fuel as [|fuel IH]; intros k F res total tr st Heq; simpl in Heq.
  { injection Heq as <- _. split; [constructor|by intros j sid ?%elem_of_nil]. }
  destruct (loop_guard max_retries k F).
  2: { injection Heq as <- _. split; [constructor|by intros j sid ?%elem_of_nil]. }
  destruct (run_round_spec order Horder process_func batch_size max_workers
              delay_between_batches retry_delay progress_callback Hbs Hmw Hdbb Hrd
              k F res total)
    as (t1 & res1 & F1 & total1 & Heq1 & _ & Hsub1 & _).
  rewrite Heq1 in Heq. unfold bind in Heq.
  destruct (while_loop order process_func batch_size max_workers
              delay_between_batches max_retries retry_delay progress_callback
              fuel (S k) F1 res1 total1) as [t2 r2] eqn:Heq2.
  injection Heq as <- ->.
  destruct (IH _ _ _ _ _ _ Heq2) as [Hnd2 Hge2].
  rewrite submits_app, Hsub1. split.
  - apply NoDup_app. split; [|split; [|done]].
    + apply NoDup_fmap_2; [by intros x y [= ->]|]. by apply order_NoDup.
    + intros [j sid] Hin1 Hin2.
      apply list_elem_of_fmap in Hin1 as (? & [= -> ->] & _).
      apply Hge2 in Hin2. lia.
  - intros j sid [Hin|Hin]%elem_of_app.
    + apply list_elem_of_fmap in Hin as (? & [= -> ->] & _). lia.
    + apply Hge2 in Hin. lia.
Qed.

Lemma process_in_batches_NoDup order process_func batch_size max_workers
    delay_between_batches max_retries retry_delay progress_callback ids :
  order_ok order → 0 < batch_size → 0 < max_workers →
  (0 <= delay_between_batches)%Q → (0 <= retry_delay)%Q →
  ∃ tr results,
    process_in_batches order process_func batch_size max_workers
      delay_between_batches max_retries retry_delay progress_callback ids
    = (tr, inr results) ∧
    NoDup (submits tr) ∧
    batches_post process_func delay_between_batches max_retries retry_delay
      ids tr results.
Proof.
  intros Horder Hbs Hmw Hdbb Hrd.
  destruct (process_in_batches_spec order Horder process_func batch_size
              max_workers delay_between_batches max_retries retry_delay
              progress_callback Hbs Hmw Hdbb Hrd ids) as (tr & results & Heq & Hpost).
  exists tr, results. split; [done|]. split; [|done].
  unfold process_in_batches in Heq. unfold bind in Heq.
  destruct (while_loop order process_func batch_size max_workers
              delay_between_batches max_retries retry_delay progress_callback
              (rounds_left max_retries 0) 0 (list_to_set ids) ∅ 0)
    as [t1 [e|[[res1 F1] total1]]] eqn:Hloop; [done|].
  destruct (while_loop_submits_NoDup order Horder process_func batch_size
              max_workers delay_between_batches max_retries retry_delay
              progress_callback Hbs Hmw Hdbb Hrd _ _ _ _ _ _ _ Hloop) as [Hnd _].
  destruct (bool_decide (F1 ≠ ∅)); simpl in Heq; injection Heq as <- _;
    rewrite submits_app; simpl; by rewrite app_nil_r.
Qed.

(** X5: no pair of a round and an id is submitted twice: within one round an
    id goes to the worker pool once, however often it occurs in [ids]. *)
Theorem submits_NoDup order process_func batch_size max_workers
    delay_between_batches max_retries retry_delay progress_callback ids :
  order_ok order → 0 < batch_size → 0 < max_workers →
  (0 <= delay_between_batches)%Q → (0 <= retry_delay)%Q →
  ∃ tr results,
    process_in_batches order process_func batch_size max_workers
      delay_between_batches max_retries retry_delay progress_callback ids
    = (tr, inr results) ∧
    NoDup (submits tr).
Proof.
  intros Horder Hbs Hmw Hdbb Hrd.
  destruct (process_in_batches_NoDup order process_func batch_size max_workers
              delay_between_batches max_retries retry_delay progress_callback ids
              Horder Hbs Hmw Hdbb Hrd) as (tr & results & Heq & Hnd & _).
  by exists tr, results.
Qed.

Lemma submits_NoDup_witness :
  ∃ tr results,
    process_in_batches elements (srp_func ∅ dead_world) 5 2 (2 # 1)%Q 2
      (5 # 1)%Q true ["SRP1"; "SRP1"; "SRP2"]
    = (tr, inr results) ∧
    NoDup (submits tr).
Proof.
  apply (submits_NoDup elements (srp_func ∅ dead_world) 5 2 (2 # 1)%Q 2
           (5 # 1)%Q true ["SRP1"; "SRP1"; "SRP2"]).
  - intros X. reflexivity.
  - lia.
  - lia.
  - unfold Qle. simpl. lia.
  - unfold Qle. simpl. lia.
Defined.

Lemma batches_post_submitted_iff process_func dbb mr rd ids tr results sid :
  batches_post process_func dbb mr rd ids tr results →
  sid ∈ ids →
  ∀ j, (j, sid) ∈ submits tr ↔
       Z.of_nat j ≤ mr ∧ ∀ i, (i < j)%nat → attempt_ok process_func i sid = None.
Proof.
  intros Hpost Hin j. split.
  - intros Hj. split; [by destruct (batches_post_submitted Hpost j sid Hj)|].
    induction j as [|j IH]; [intros i; lia|].
    apply (batches_post_retried Hpost) in Hj as [Hj Hfail].
    intros i Hi. destruct (decide (i = j)) as [->|Hne]; [done|].
    apply (IH Hj). lia.
  - induction j as [|j IH]; intros [Hle Hfail].
    + apply (batches_post_first Hpost); [done|lia].
    + apply (batches_post_retry Hpost); [|apply Hfail; lia|done].
      apply IH. split; [lia|]. intros i Hi. apply Hfail. lia.
Qed.

(** X6: an input id is submitted in round [j] exactly when [j <=
    max_retries] and the id failed in every round before [j]. *)
Theorem submitted_iff_failed_before order process_func batch_size max_workers
    delay_between_batches max_retries retry_delay progress_callback ids :
  order_ok order → 0 < batch_size → 0 < max_workers →
  (0 <= delay_between_batches)%Q → (0 <= retry_delay)%Q →
  ∃ tr results,
    process_in_batches order process_func batch_size max_workers
      delay_between_batches max_retries retry_delay progress_callback ids
    = (tr, inr results) ∧
    ∀ sid j, sid ∈ ids →
      ((j, sid) ∈ submits tr ↔
       Z.of_nat j ≤ max_retries ∧
       ∀ i, (i < j)%nat → attempt_ok process_func i sid = None).
Proof.
  intros Horder Hbs Hmw Hdbb Hrd.
  destruct (process_in_batches_spec order Horder process_func batch_size
              max_workers delay_between_batches max_retries retry_delay
              progress_callback Hbs Hmw Hdbb Hrd ids) as (tr & results & Heq & Hpost).
  exists tr, results. split; [done|].
  intros sid j Hin. by apply (batches_post_submitted_iff _ _ _ _ _ _ _ _ Hpost).
Qed.

Lemma submitted_iff_failed_before_witness :
  ∃ tr results,
    process_in_batches elements (srp_func ∅ dead_world) 5 2 (2 # 1)%Q 2
      (5 # 1)%Q true ["SRP1"; "SRP2"]
    = (tr, inr results) ∧
    ∀ sid j, sid ∈ ["SRP1"; "SRP2"] →
      ((j, sid) ∈ submits tr ↔
       Z.of_nat j ≤ 2 ∧
       ∀ i, (i < j)%nat → attempt_ok (srp_func ∅ dead_world) i sid = None).
Proof.
  apply (submitted_iff_failed_before elements (srp_func ∅ dead_world) 5 2
           (2 # 1)%Q 2 (5 # 1)%Q true ["SRP1"; "SRP2"]).
  - intros X. reflexivity.
  - lia.
  - lia.
  - unfold Qle. simpl. lia.
  - unfold Qle. simpl. lia.
Defined.

Lemma invocations_rounds sid (tr : list Event) (n : nat) :
  NoDup (submits tr) →
  (∀ j, (j, sid) ∈ submits tr ↔ (j < n)%nat) →
  invocations sid tr = n.
Proof.
  intros Hnd Hmem. unfold invocations.
  set (L := filter (λ p : nat * string, p.2 = sid) (submits tr)).
  assert (NoDup L) as HndL by (by apply NoDup_filter).
  assert (fst <$> L ≡ₚ seq 0 n) as Hperm.
  { apply NoDup_Permutation.
    - apply NoDup_fmap_2_strong; [|done].
      intros [j1 s1] [j2 s2] [H1 _]%list_elem_of_filter [H2 _]%list_elem_of_filter.
      simpl in *. intros ->. by subst.
    - apply NoDup_seq.
    - intros j. rewrite elem_of_seq, list_elem_of_fmap. split.
      + intros ([j' s] & -> & [Hs Hin]%list_elem_of_filter). simpl in *. subst s.
        apply Hmem in Hin. lia.
      + intros [_ Hj]. exists (j, sid). split; [done|].
        apply list_elem_of_filter. split; [done|]. apply Hmem. lia. }
  rewrite <- (length_fmap fst L), Hperm. apply length_seq.
Qed.

(** X7: the exact number of invocations on an input id: one per round up to
    and including the first round in which it resolves, and [1 +
    max_retries] when it never does; the record returned for it is the one
    of that first success, or the empty record. *)
Theorem invocations_exact order process_func batch_size max_workers
    delay_between_batches max_retries retry_delay progress_callback ids :
  order_ok order → 0 < batch_size → 0 < max_workers →
  (0 <= delay_between_batches)%Q → (0 <= retry_delay)%Q → 0 ≤ max_retries →
  ∃ tr results,
    process_in_batches order process_func batch_size max_workers
      delay_between_batches max_retries retry_delay progress_callback ids
    = (tr, inr results) ∧
    (∀ sid j r, sid ∈ ids → Z.of_nat j ≤ max_retries →
       (∀ i, (i < j)%nat → attempt_ok process_func i sid = None) →
       attempt_ok process_func j sid = Some r →
       invocations sid tr = S j ∧ results !! sid = Some r) ∧
    (∀ sid, sid ∈ ids →
       (∀ i, Z.of_nat i ≤ max_retries → attempt_ok process_func i sid = None) →
       invocations sid tr = Z.to_nat (1 + max_retries) ∧
       results !! sid = Some empty_result).
Proof.
  intros Horder Hbs Hmw Hdbb Hrd Hmr.
  destruct (process_in_batches_NoDup order process_func batch_size max_workers
              delay_between_batches max_retries retry_delay progress_callback ids
              Horder Hbs Hmw Hdbb Hrd) as (tr & results & Heq & Hnd & Hpost).
  exists tr, results. split; [done|]. split.
  - intros sid j r Hin Hj Hfail Hok.
    pose proof (batches_post_submitted_iff _ _ _ _ _ _ _ sid Hpost Hin) as Hiff.
    split.
    + apply invocations_rounds; [done|]. intros i. rewrite Hiff. split.
      * intros [_ Hi]. destruct (decide (i < S j)%nat) as [|Hge]; [done|].
        rewrite (Hi j) in Hok by lia. done.
      * intros Hi. split; [lia|]. intros i' Hi'. apply Hfail. lia.
    + apply (batches_post_accepted Hpost j sid r); [|done].
      apply Hiff. by split.
  - intros sid Hin Hfail.
    pose proof (batches_post_submitted_iff _ _ _ _ _ _ _ sid Hpost Hin) as Hiff.
    split.
    + apply invocations_rounds; [done|]. intros i. rewrite Hiff. split.
      * intros [Hi _]. lia.
      * intros Hi. split; [lia|]. intros i' Hi'. apply Hfail. lia.
    + apply (batches_post_unresolved Hpost); [done|].
      intros j Hj. apply Hfail. by destruct (batches_post_submitted Hpost j sid Hj).
Qed.

Lemma invocations_exact_witness :
  ∃ tr results,
    process_in_batches elements (srp_func ∅ dead_world) 5 2 (2 # 1)%Q 2
      (5 # 1)%Q true ["SRP1"; "SRP2"]
    = (tr, inr results) ∧
    (∀ sid j r, sid ∈ ["SRP1"; "SRP2"] → Z.of_nat j ≤ 2 →
       (∀ i, (i < j)%nat → attempt_ok (srp_func ∅ dead_world) i sid = None) →
       attempt_ok (srp_func ∅ dead_world) j sid = Some r →
       invocations sid tr = S j ∧ results !! sid = Some r) ∧
    (∀ sid, sid ∈ ["SRP1"; "SRP2"] →
       (∀ i, Z.of_nat i ≤ 2 → attempt_ok (srp_func ∅ dead_world) i sid = None) →
       invocations sid tr = Z.to_nat (1 + 2) ∧
       results !! sid = Some empty_result).
Proof.
  apply (invocations_exact elements (srp_func ∅ dead_world) 5 2 (2 # 1)%Q 2
           (5 # 1)%Q true ["SRP1"; "SRP2"]).
  - intros X. reflexivity.
  - lia.
  - lia.
  - unfold Qle. simpl. lia.
  - unfold Qle. simpl. lia.
  - lia.
Defined.

(** X8: the worker pool receives at most [(1 + max_retries) * n] submissions
    in all, [n] being the number of distinct input ids. *)
Theorem total_submissions_bound order process_func batch_size max_workers
    delay_between_batches max_retries retry_delay progress_callback ids :
  order_ok order → 0 < batch_size → 0 < max_workers →
  (0 <= delay_between_batches)%Q → (0 <= retry_delay)%Q →
  ∃ tr results,
    process_in_batches order process_func batch_size max_workers
      delay_between_batches max_retries retry_delay progress_callback ids
    = (tr, inr results) ∧
    (length (submits tr)
     ≤ Z.to_nat (1 + max_retries) * size (list_to_set ids : gset string))%nat.
Proof.
  intros Horder Hbs Hmw Hdbb Hrd.
  destruct (process_in_batches_NoDup order process_func batch_size max_workers
              delay_between_batches max_retries retry_delay progress_callback ids
              Horder Hbs Hmw Hdbb Hrd) as (tr & results & Heq & Hnd & Hpost).
  exists tr, results. split; [done|].
  set (grid := list_prod (seq 0 (Z.to_nat (1 + max_retries)))
                 (elements (list_to_set ids : gset string))).
  assert (submits tr ⊆+ grid) as Hsub.
  { apply NoDup_submseteq; [done|]. intros [j sid] Hin.
    apply (batches_post_submitted Hpost) in Hin as [Hid Hj].
    apply list_elem_of_In, in_prod_iff. split.
    - apply in_seq. lia.
    - apply list_elem_of_In, elem_of_elements, elem_of_list_to_set. done. }
  apply submseteq_length in Hsub. unfold grid in Hsub.
  rewrite length_prod, length_seq in Hsub. done.
Qed.

Lemma total_submissions_bound_witness :
  ∃ tr results,
    process_in_batches elements (srp_func ∅ dead_world) 5 2 (2 # 1)%Q 2
      (5 # 1)%Q true ["SRP1"; "SRP1"; "SRP2"]
    = (tr, inr results) ∧
    (length (submits tr)
     ≤ Z.to_nat (1 + 2) * size (list_to_set ["SRP1"; "SRP1"; "SRP2"] : gset string))%nat.
Proof.
  apply (total_submissions_bound elements (srp_func ∅ dead_world) 5 2 (2 # 1)%Q
           2 (5 # 1)%Q true ["SRP1"; "SRP1"; "SRP2"]).
  - intros X. reflexivity.
  - lia.
  - lia.
  - unfold Qle. simpl. lia.
  - unfold Qle. simpl. lia.
Defined.

(** ** The delays of one call of [process_in_batches] *)

Lemma run_batch_sleeps order (Horder : order_ok order) process_func
    batch_size max_workers delay_between_batches retry_delay progress_callback
    (Hbs : 0 < batch_size) (Hmw : 0 < max_workers)
    (Hdbb : (0 <= delay_between_batches)%Q) (Hrd : (0 <= retry_delay)%Q)
    round l st i tr st' :
  run_batch process_func batch_size max_workers delay_between_batches
    progress_callback round l st i = (tr, inr st') →
  sleeps tr = if i + batch_size <? len l then [delay_between_batches] else [].
Proof.
  destruct st as [[res bf] total]. unfold run_batch.
  rewrite (proj2 (Z.leb_gt _ _) Hmw), when_false.
  destruct (foldM_collect_spec order Horder process_func batch_size max_workers
              delay_between_batches retry_delay Hbs Hmw Hdbb Hrd round
              (slice l i (i + batch_size)) ∅ bf)
    as (t1 & br & bf' & Heq & (Hs1 & Hl1 & Hp1) & _).
  simpl bind at 1. unfold tell. simpl bind at 1. rewrite Heq. simpl.
  destruct (progress_callback && _); simpl;
    destruct (i + batch_size <? len l); simpl;
    rewrite ?(sleep_ok _ Hdbb); simpl; intros [= <- _];
    rewrite !sleeps_app, sleeps_Submit, Hl1; done.
Qed.

Lemma foldM_run_batch_sleeps order (Horder : order_ok order) process_func
    batch_size max_workers delay_between_batches retry_delay progress_callback
    (Hbs : 0 < batch_size) (Hmw : 0 < max_workers)
    (Hdbb : (0 <= delay_between_batches)%Q) (Hrd : (0 <= retry_delay)%Q)
    round (l : list string) m :
  ∀ a st tr st',
    (a + m)%nat = Z.to_nat ((len l + batch_size - 1) / batch_size) →
    foldM (run_batch process_func batch_size max_workers delay_between_batches
             progress_callback round l) st
          ((λ j : nat, 0 + Z.of_nat j * batch_size) <$> seq a m)
    = (tr, inr st') →
    sleeps tr = replicate (m - 1) delay_between_batches.
Proof.
  pose proof (Z.mul_succ_div_gt (len l + batch_size - 1) batch_size Hbs) as Hup.
  pose proof (Z.mul_div_le (len l + batch_size - 1) batch_size Hbs) as Hlo.
  assert (0 <= (len l + batch_size - 1) / batch_size) as Hq
    by (apply Z.div_pos; unfold len; lia).
  induction m as [|m IH]; intros a st tr st' Ham Heq.
  { simpl in Heq. by injection Heq as <- _. }
  rewrite <- cons_seq, fmap_cons in Heq. simpl foldM in Heq.
  apply bind_inr_inv in Heq as (t1 & st1 & t2 & Heq1 & Heq2 & ->).
  apply (run_batch_sleeps order Horder _ _ _ _ retry_delay _ Hbs Hmw Hdbb Hrd)
    in Heq1.
  apply IH in Heq2; [|lia].
  rewrite sleeps_app, Heq1, Heq2.
  destruct m as [|m].
  - rewrite (proj2 (Z.ltb_ge _ _)); [done|]. nia.
  - rewrite (proj2 (Z.ltb_lt _ _)); [|nia].
    simpl. by rewrite Nat.sub_0_r.
Qed.

Lemma run_round_sleeps order (Horder : order_ok order) process_func
    batch_size max_workers delay_between_batches retry_delay progress_callback
    (Hbs : 0 < batch_size) (Hmw : 0 < max_workers)
    (Hdbb : (0 <= delay_between_batches)%Q) (Hrd : (0 <= retry_delay)%Q)
    k F res total tr st :
  run_round order process_func batch_size max_workers delay_between_batches
    retry_delay progress_callback k F res total = (tr, inr st) →
  sleeps tr
  = (if (0 <? Z.of_nat k) then [retry_delay] else [])
    ++ replicate (Z.to_nat ((Z.of_nat (size F) + batch_size - 1) / batch_size) - 1)
         delay_between_batches.
Proof.
  unfold run_round. rewrite (py_range_batches batch_size Hbs).
  assert (len (order F) = Z.of_nat (size F)) as Hlen.
  { unfold len, size, set_size. simpl. by rewrite (Horder F). }
  intros Heq.
  apply bind_inr_inv in Heq as (t0 & [] & t1 & Heq0 & Heq1 & ->).
  apply bind_inr_inv in Heq1 as (t1' & idxs & t2 & [= <- <-] & Heq1 & ->).
  apply (foldM_run_batch_sleeps order Horder _ _ _ _ retry_delay _ Hbs Hmw Hdbb Hrd)
    in Heq1; [|lia].
  simpl app.
  rewrite sleeps_app, Heq1, Hlen. f_equal.
  destruct (0 <? Z.of_nat k); simpl in Heq0.
  - rewrite (sleep_ok _ Hrd) in Heq0. by injection Heq0 as <-.
  - by injection Heq0 as <-.
Qed.

(** X9: when every id resolves in the first round, the only delays are the
    inter-batch ones: one between consecutive batches and none after the
    last, so a run that fits one batch does not sleep at all. *)
Theorem sleeps_when_all_resolve order process_func batch_size max_workers
    delay_between_batches max_retries retry_delay progress_callback ids :
  order_ok order → 0 < batch_size → 0 < max_workers →
  (0 <= delay_between_batches)%Q → (0 <= retry_delay)%Q → 0 ≤ max_retries →
  (∀ sid, sid ∈ ids → is_Some (attempt_ok process_func 0 sid)) →
  ∃ tr results,
    process_in_batches order process_func batch_size max_workers
      delay_between_batches max_retries retry_delay progress_callback ids
    = (tr, inr results) ∧
    sleeps tr
    = replicate
        (Z.to_nat ((Z.of_nat (size (list_to_set ids : gset string))
                    + batch_size - 1) / batch_size) - 1)
        delay_between_batches.
Proof.
  intros Horder Hbs Hmw Hdbb Hrd Hmr Hall.
  destruct (process_in_batches_spec order Horder process_func batch_size
              max_workers delay_between_batches max_retries retry_delay
              progress_callback Hbs Hmw Hdbb Hrd ids) as (tr & results & Heq & _).
  exists tr, results. split; [done|].
  unfold process_in_batches in Heq.
  rewrite while_loop_unfold in Heq.
  destruct (loop_guard max_retries 0 (list_to_set ids)) eqn:Hguard.
  2: { simpl in Heq. unfold loop_guard in Hguard.
       rewrite (proj2 (Z.leb_le _ _)), andb_true_r in Hguard by lia.
       rewrite Hguard in Heq. injection Heq as <- _.
       apply bool_decide_eq_false in Hguard. apply dec_stable in Hguard.
       rewrite Hguard, size_empty, Z.div_small by lia. done. }
  destruct (run_round_spec order Horder process_func batch_size max_workers
              delay_between_batches retry_delay progress_callback Hbs Hmw Hdbb Hrd
              0 (list_to_set ids) ∅ 0)
    as (t1 & res1 & F1 & total1 & Heq1 & _ & _ & _ & _ & HF1).
  pose proof (run_round_sleeps order Horder _ _ _ _ _ _ Hbs Hmw Hdbb Hrd
                _ _ _ _ _ _ Heq1) as Hsl. simpl in Hsl.
  assert (F1 = ∅) as ->.
  { apply set_eq. intros sid. rewrite HF1, elem_of_list_to_set. split.
    - intros [Hin Hno]. apply Hall in Hin as [r Hr]. congruence.
    - by intros ?%not_elem_of_empty. }
  rewrite Heq1 in Heq. unfold bind at 2 in Heq.
  rewrite while_loop_unfold in Heq. unfold loop_guard in Heq.
  rewrite bool_decide_eq_false_2 in Heq by (intros H; by apply H).
  simpl in Heq.
  rewrite bool_decide_eq_false_2 in Heq by (intros H; by apply H).
  injection Heq as <- _. by rewrite !app_nil_r.
Qed.

Lemma sleeps_when_all_resolve_witness :
  ∃ tr results,
    process_in_batches elements (srp_func ∅ live_world) 2 2 (2 # 1)%Q 3
      (5 # 1)%Q true ["SRP1"; "SRP2"; "SRP3"]
    = (tr, inr results) ∧
    sleeps tr
    = replicate
        (Z.to_nat ((Z.of_nat (size (list_to_set ["SRP1"; "SRP2"; "SRP3"]
                                     : gset string))
                    + 2 - 1) / 2) - 1)
        (2 # 1)%Q.
Proof.
  apply (sleeps_when_all_resolve elements (srp_func ∅ live_world) 2 2 (2 # 1)%Q
           3 (5 # 1)%Q true ["SRP1"; "SRP2"; "SRP3"]).
  - intros X. reflexivity.
  - lia.
  - lia.
  - unfold Qle. simpl. lia.
  - unfold Qle. simpl. lia.
  - lia.
  - intros sid _. by eexists.
Defined.

Lemma while_loop_sleeps_all_fail order (Horder : order_ok order) process_func
    batch_size max_workers delay_between_batches max_retries retry_delay
    progress_callback
    (Hbs : 0 < batch_size) (Hmw : 0 < max_workers)
    (Hdbb : (0 <= delay_between_batches)%Q) (Hrd : (0 <= retry_delay)%Q)
    (F : gset string) :
  F ≠ ∅ →
  (∀ j sid, sid ∈ F → attempt_ok process_func j sid = None) →
  ∀ fuel k res total tr st,
    Z.of_nat k + Z.of_nat fuel ≤ max_retries →
    while_loop order process_func batch_size max_workers delay_between_batches
      max_retries retry_delay progress_callback fuel (S k) F res total
    = (tr, inr st) →
    sleeps tr
    = concat (replicate fuel
        (retry_delay
         :: replicate
              (Z.to_nat ((Z.of_nat (size F) + batch_size - 1) / batch_size) - 1)
              delay_between_batches))
    ∧ st.1.2 = F.
Proof.
  intros Hne Hfail.
  induction fuel as [|fuel IH]; intros k res total tr st Hk Heq; simpl in Heq.
  { by injection Heq as <- <-. }
  unfold loop_guard in Heq.
  rewrite bool_decide_eq_true_2 in Heq by done.
  rewrite (proj2 (Z.leb_le (Z.of_nat (S k)) max_retries)) in Heq by lia.
  simpl in Heq.
  apply bind_inr_inv in Heq as (t1 & [[res1 F1] total1] & t2 & Heq1 & Heq2 & ->).
  pose proof (run_round_sleeps order Horder _ _ _ _ _ _ Hbs Hmw Hdbb Hrd
                _ _ _ _ _ _ Heq1) as Hsl.
  destruct (run_round_spec order Horder process_func batch_size max_workers
              delay_between_batches retry_delay progress_callback Hbs Hmw Hdbb Hrd
              (S k) F res total)
    as (t1' & res1' & F1' & total1' & Heq1' & _ & _ & _ & _ & HF1).
  rewrite Heq1 in Heq1'. injection Heq1' as <- <- <- <-.
  assert (F1 = F) as ->.
  { apply set_eq. intros sid. rewrite HF1. naive_solver. }
  apply IH in Heq2 as [Hsl2 HF]; [|lia].
  split; [|done].
  rewrite sleeps_app, Hsl, Hsl2.
  rewrite (proj2 (Z.ltb_lt _ _)) by lia. done.
Qed.

(** X10: the worst case: when no id ever resolves, round 0 sleeps between
    its batches and each of the [max_retries] retry rounds sleeps
    [retry_delay] and then again between its batches. *)
Theorem sleeps_when_none_resolves order process_func batch_size max_workers
    delay_between_batches max_retries retry_delay progress_callback ids :
  order_ok order → 0 < batch_size → 0 < max_workers →
  (0 <= delay_between_batches)%Q → (0 <= retry_delay)%Q → 0 ≤ max_retries →
  ids ≠ [] →
  (∀ j sid, sid ∈ ids → attempt_ok process_func j sid = None) →
  ∃ tr results,
    process_in_batches order process_func batch_size max_workers
      delay_between_batches max_retries retry_delay progress_callback ids
    = (tr, inr results) ∧
    let gaps :=
      replicate
        (Z.to_nat ((Z.of_nat (size (list_to_set ids : gset string))
                    + batch_size - 1) / batch_size) - 1)
        delay_between_batches in
    sleeps tr
    = gaps ++ concat (replicate (Z.to_nat max_retries) (retry_delay :: gaps)).
Proof.
  intros Horder Hbs Hmw Hdbb Hrd Hmr Hne Hfail.
  destruct (process_in_batches_spec order Horder process_func batch_size
              max_workers delay_between_batches max_retries retry_delay
              progress_callback Hbs Hmw Hdbb Hrd ids) as (tr & results & Heq & _).
  exists tr, results. split; [done|]. intros gaps.
  unfold process_in_batches in Heq.
  apply bind_inr_inv in Heq as (t1 & [[res1 F1] total1] & t2 & Heq1 & Heq2 & ->).
  assert (rounds_left max_retries 0 = S (Z.to_nat max_retries)) as Hfuel
    by (unfold rounds_left; lia).
  rewrite Hfuel in Heq1. simpl in Heq1.
  unfold loop_guard in Heq1.
  assert ((list_to_set ids : gset string) ≠ ∅) as HneF.
  { destruct ids as [|x ids]; [done|]. intros Hempty.
    assert (x ∈ (list_to_set (x :: ids) : gset string)) as Hx
      by (apply elem_of_list_to_set; left).
    rewrite Hempty in Hx. by apply not_elem_of_empty in Hx. }
  rewrite bool_decide_eq_true_2 in Heq1 by done.
  rewrite (proj2 (Z.leb_le (Z.of_nat 0) max_retries)) in Heq1 by (simpl; lia).
  simpl in Heq1.
  apply bind_inr_inv in Heq1 as (t0 & [[res0 F0] total0] & t1' & Heq0 & Heq1 & ->).
  pose proof (run_round_sleeps order Horder _ _ _ _ _ _ Hbs Hmw Hdbb Hrd
                _ _ _ _ _ _ Heq0) as Hsl0. simpl in Hsl0.
  destruct (run_round_spec order Horder process_func batch_size max_workers
              delay_between_batches retry_delay progress_callback Hbs Hmw Hdbb Hrd
              0 (list_to_set ids) ∅ 0)
    as (t0' & res0' & F0' & total0' & Heq0' & _ & _ & _ & _ & HF0).
  rewrite Heq0 in Heq0'. injection Heq0' as <- <- <- <-.
  assert (F0 = list_to_set ids) as ->.
  { apply set_eq. intros sid. rewrite HF0, elem_of_list_to_set. naive_solver. }
  apply (while_loop_sleeps_all_fail order Horder _ _ _ _ _ _ _ Hbs Hmw Hdbb Hrd
           _ HneF) in Heq1 as [Hsl1 HF1]; [| |lia].
  2: { intros j sid Hin. apply Hfail. by apply elem_of_list_to_set in Hin. }
  simpl in HF1. subst F1.
  rewrite bool_decide_eq_true_2 in Heq2 by done. simpl in Heq2.
  injection Heq2 as <- _.
  rewrite !sleeps_app, Hsl0, Hsl1. simpl. by rewrite app_nil_r.
Qed.

Lemma sleeps_when_none_resolves_witness :
  ∃ tr results,
    process_in_batches elements (srp_func ∅ dead_world) 2 2 (2 # 1)%Q 3
      (5 # 1)%Q true ["SRP1"; "SRP2"; "SRP3"]
    = (tr, inr results) ∧
    let gaps :=
      replicate
        (Z.to_nat ((Z.of_nat (size (list_to_set ["SRP1"; "SRP2"; "SRP3"]
                                     : gset string))
                    + 2 - 1) / 2) - 1)
        (2 # 1)%Q in
    sleeps tr
    = gaps ++ concat (replicate (Z.to_nat 3) ((5 # 1)%Q :: gaps)).
Proof.
  apply (sleeps_when_none_resolves elements (srp_func ∅ dead_world) 2 2
           (2 # 1)%Q 3 (5 # 1)%Q true ["SRP1"; "SRP2"; "SRP3"]).
  - intros X. reflexivity.
  - lia.
  - lia.
  - unfold Qle. simpl. lia.
  - unfold Qle. simpl. lia.
  - lia.
  - discriminate.
  - intros j sid _. reflexivity.
Defined.

(** ** The cache file *)

Lemma with_cache_write_same w : with_cache_write w (cache_write w) = w.
Proof. by destruct w. Qed.

(** A run that returns has computed [results] before it turns to the cache
    file; the content of the file system matters only through the loaded
    cache, and the outcome of the write only in the last step. *)
Lemma convert_sra_ids_inv KNOWN w cfg fs sra_ids tr out fs' :
  convert_sra_ids KNOWN w cfg fs sra_ids = (tr, inr (out, fs')) →
  ∃ t1 results t2,
    save_cache w cfg (loaded_cache cfg fs) results fs = (t2, inr fs') ∧
    tr = trace (load_cache cfg fs) ++ t1 ++ t2 ∧
    out = final_output results sra_ids ∧
    ∀ cw fs2 t2' fs'',
      loaded_cache cfg fs2 = loaded_cache cfg fs →
      save_cache (with_cache_write w cw) cfg (loaded_cache cfg fs) results fs2
      = (t2', inr fs'') →
      convert_sra_ids KNOWN (with_cache_write w cw) cfg fs2 sra_ids
      = (trace (load_cache cfg fs2) ++ t1 ++ t2', inr (out, fs'')).
Proof.
  unfold convert_sra_ids, with_cache_write.
  cbn [set_order srp_net erp_net cache_write].
  destruct (load_cache_spec cfg fs) as (Hload & _).
  destruct (load_cache cfg fs) as [t0 r0] eqn:Hl. simpl in Hload. subst r0.
  intros H.
  apply bind_inr_inv in H as (? & cache & u0 & [= <- <-] & H & ->).
  destruct (foldl _ _ _) as [results remaining] eqn:Hfold.
  apply bind_inr_inv in H as (ta & [] & ua & Ha & H & ->).
  apply bind_inr_inv in H as (tb & [] & ub & Hb & H & ->).
  apply bind_inr_inv in H as (tc & res1 & uc & Hc & H & ->).
  apply bind_inr_inv in H as (td & res2 & ud & Hd & H & ->).
  apply bind_inr_inv in H as (te & fs1 & ue & He & [= <- <- <-] & ->).
  exists (ta ++ tb ++ tc ++ td), res2, te.
  split; [done|]. split; [simpl; by rewrite app_nil_r, <- !app_assoc|].
  split; [done|].
  intros cw fs2 t2' fs'' Hsame Hsave.
  destruct (load_cache_spec cfg fs2) as (Hload2 & _).
  destruct (load_cache cfg fs2) as [t0' r0'] eqn:Hl2. simpl in Hload2. subst r0'.
  rewrite Hsame. simpl trace.
  replace (t0' ++ (ta ++ tb ++ tc ++ td) ++ t2')
    with (t0' ++ ta ++ tb ++ tc ++ td ++ t2' ++ [])
    by (by rewrite app_nil_r, <- !app_assoc).
  eapply bind_inr; [reflexivity|]. cbv beta. rewrite Hfold.
  eapply bind_inr; [exact Ha|].
  eapply bind_inr; [exact Hb|].
  eapply bind_inr; [exact Hc|].
  eapply bind_inr; [exact Hd|].
  eapply bind_inr; [exact Hsave|]. reflexivity.
Qed.

(** X11: when the cache file cannot be written the call returns the mapping
    it returns otherwise and logs one more warning; the file is left as it
    was when it cannot be opened, and left without valid content when
    [json.dump] fails half-way. *)
Theorem cache_write_failure_harmless KNOWN w cfg fs sra_ids p cw :
  order_ok (set_order w) → sane_config cfg →
  cache_path cfg = Some p → cache_write w = WriteOk → cw ≠ WriteOk →
  ∃ tr out fs',
    convert_sra_ids KNOWN w cfg fs sra_ids = (tr, inr (out, fs')) ∧
    convert_sra_ids KNOWN (with_cache_write w cw) cfg fs sra_ids
    = (tr ++ [LogWarning (CacheWriteError p)],
       inr (out, match cw with DumpFails => <[p := NotJson]> fs | _ => fs end)).
Proof.
  intros Horder Hsane Hp Hw Hcw.
  destruct (convert_sra_ids_spec KNOWN w cfg fs sra_ids Horder Hsane)
    as (tr & out & fs' & Heq & _).
  exists tr, out, fs'. split; [done|].
  apply convert_sra_ids_inv in Heq as (t1 & results & t2 & Hsave & -> & -> & Hany).
  unfold save_cache in Hsave. rewrite Hp, Hw in Hsave. injection Hsave as <- <-.
  rewrite app_nil_r, <- app_assoc.
  apply Hany; [done|].
  unfold save_cache, with_cache_write. rewrite Hp. simpl.
  by destruct cw.
Qed.

Lemma cache_write_failure_harmless_witness :
  ∃ tr out fs',
    convert_sra_ids ∅ live_world cached_config ∅ ["SRP1"] = (tr, inr (out, fs')) ∧
    convert_sra_ids ∅ (with_cache_write live_world OpenFails) cached_config ∅
      ["SRP1"]
    = (tr ++ [LogWarning (CacheWriteError "cache.json")],
       inr (out, match OpenFails with
                 | DumpFails => <["cache.json" := NotJson]> ∅
                 | _ => ∅
                 end)).
Proof.
  apply (cache_write_failure_harmless ∅ live_world cached_config ∅ ["SRP1"]
           "cache.json" OpenFails).
  - intros X. reflexivity.
  - unfold sane_config, Qle. simpl. lia.
  - reflexivity.
  - reflexivity.
  - discriminate.
Defined.

(** X12: a successful run never loses a cached record: the new cache file
    holds every record of the old one, replaced only by the known mapping of
    an id that was asked for. *)
Theorem cache_entries_preserved KNOWN w cfg fs sra_ids p :
  order_ok (set_order w) → sane_config cfg →
  cache_path cfg = Some p → cache_write w = WriteOk →
  ∃ tr out cache,
    convert_sra_ids KNOWN w cfg fs sra_ids
    = (tr, inr (out, <[p := JsonObject cache]> fs)) ∧
    ∀ sid r, loaded_cache cfg fs !! sid = Some r →
      cache !! sid
      = Some (if decide (sid ∈ sra_ids) then default r (KNOWN !! sid) else r).
Proof.
  intros Horder Hsane Hp Hw.
  destruct (convert_sra_ids_spec KNOWN w cfg fs sra_ids Horder Hsane)
    as (tr & out & fs' & Heq & Hpost).
  destruct Hpost as (t_srp & res_srp & t_erp & res_erp & results
                     & Hps & Hpe & -> & Hres & -> & Hsave).
  rewrite (save_cache_written _ _ _ _ _ _ Hp Hw) in Hsave. injection Hsave as <-.
  eexists _, _, (results ∪ loaded_cache cfg fs). split; [exact Heq|].
  intros sid r Hold. rewrite lookup_union, Hres, Hold. unfold stored.
  rewrite Hold.
  destruct (KNOWN !! sid) as [known|]; destruct (decide (sid ∈ sra_ids)); done.
Qed.

Lemma cache_entries_preserved_witness :
  ∃ tr out cache,
    convert_sra_ids ∅ live_world cached_config two_cached_fs ["SRP3"]
    = (tr, inr (out, <["cache.json" := JsonObject cache]> two_cached_fs)) ∧
    ∀ sid r, loaded_cache cached_config two_cached_fs !! sid = Some r →
      cache !! sid
      = Some (if decide (sid ∈ ["SRP3"])
              then default r ((∅ : gmap string ResolutionResult) !! sid) else r).
Proof.
  apply (cache_entries_preserved ∅ live_world cached_config two_cached_fs
           ["SRP3"] "cache.json").
  - intros X. reflexivity.
  - unfold sane_config, Qle. simpl. lia.
  - reflexivity.
  - reflexivity.
Defined.

(** X13: a cache file that [json.load] rejects costs one warning and is
    otherwise treated like a missing file; a successful write replaces it by
    a valid cache. *)
Theorem corrupt_cache_tolerated KNOWN w cfg fs sra_ids p :
  order_ok (set_order w) → sane_config cfg →
  cache_path cfg = Some p → fs !! p = Some NotJson →
  ∃ tr out fs1 fs2,
    convert_sra_ids KNOWN w cfg (delete p fs) sra_ids = (tr, inr (out, fs1)) ∧
    convert_sra_ids KNOWN w cfg fs sra_ids
    = (LogWarning (CacheLoadError p) :: tr, inr (out, fs2)) ∧
    (cache_write w = WriteOk →
     ∃ cache, fs1 = <[p := JsonObject cache]> (delete p fs) ∧
              fs2 = <[p := JsonObject cache]> fs).
Proof.
  intros Horder Hsane Hp Hbad.
  destruct (convert_sra_ids_spec KNOWN w cfg (delete p fs) sra_ids Horder Hsane)
    as (tr & out & fs1 & Heq & _).
  assert (loaded_cache cfg fs = loaded_cache cfg (delete p fs)) as Hsame.
  { unfold loaded_cache. by rewrite Hp, Hbad, lookup_delete_eq. }
  assert (load_cache cfg (delete p fs) = ([], inr ∅)) as Hl1.
  { unfold load_cache. by rewrite Hp, lookup_delete_eq. }
  assert (load_cache cfg fs = ([LogWarning (CacheLoadError p)], inr ∅)) as Hl2.
  { unfold load_cache. by rewrite Hp, Hbad. }
  destruct (convert_sra_ids_inv _ _ _ _ _ _ _ _ Heq)
    as (t1 & results & t2 & Hsave & -> & -> & Hany).
  destruct (save_cache_spec w cfg (loaded_cache cfg (delete p fs)) results fs)
    as (fs2 & Hout2 & _).
  destruct (save_cache w cfg (loaded_cache cfg (delete p fs)) results fs)
    as [t2' r2] eqn:Hsave2. simpl in Hout2. subst r2.
  assert (t2' = t2) as ->.
  { unfold save_cache in Hsave, Hsave2. rewrite Hp in Hsave, Hsave2.
    destruct (cache_write w); unfold ret, bind, tell in *; simpl in *; congruence. }
  specialize (Hany (cache_write w) fs t2 fs2 Hsame).
  rewrite with_cache_write_same in Hany. specialize (Hany Hsave2).
  exists (t1 ++ t2), (final_output results sra_ids), fs1, fs2.
  rewrite Hl1 in *. rewrite Hl2 in Hany. simpl in *.
  split; [done|]. split; [done|].
  intros Hw. exists (results ∪ loaded_cache cfg (delete p fs)).
  unfold save_cache in Hsave, Hsave2. rewrite Hp, Hw in Hsave, Hsave2.
  unfold ret in *. split; congruence.
Qed.

Lemma corrupt_cache_tolerated_witness :
  ∃ tr out fs1 fs2,
    convert_sra_ids ∅ live_world cached_config
      (delete "cache.json" {["cache.json" := NotJson]}) ["SRP1"]
    = (tr, inr (out, fs1)) ∧
    convert_sra_ids ∅ live_world cached_config {["cache.json" := NotJson]}
      ["SRP1"]
    = (LogWarning (CacheLoadError "cache.json") :: tr, inr (out, fs2)) ∧
    (cache_write live_world = WriteOk →
     ∃ cache,
       fs1 = <["cache.json" := JsonObject cache]>
               (delete "cache.json" {["cache.json" := NotJson]}) ∧
       fs2 = <["cache.json" := JsonObject cache]> {["cache.json" := NotJson]}).
Proof.
  apply (corrupt_cache_tolerated ∅ live_world cached_config
           {["cache.json" := NotJson]} ["SRP1"] "cache.json").
  - intros X. reflexivity.
  - unfold sane_config, Qle. simpl. lia.
  - reflexivity.
  - reflexivity.
Defined.

(** X14: without a cache file ([None] or the empty string) the file system
    is neither read nor written: trace and mapping are the same whatever it
    holds, and it is handed back unchanged. *)
Theorem no_cache_file_no_file_access KNOWN w cfg sra_ids :
  order_ok (set_order w) → sane_config cfg → cache_path cfg = None →
  ∃ tr out,
    ∀ fs, convert_sra_ids KNOWN w cfg fs sra_ids = (tr, inr (out, fs)).
Proof.
  intros Horder Hsane Hp.
  destruct (convert_sra_ids_spec KNOWN w cfg ∅ sra_ids Horder Hsane)
    as (tr & out & fs' & Heq & _).
  exists tr, out. intros fs.
  destruct (convert_sra_ids_inv _ _ _ _ _ _ _ _ Heq)
    as (t1 & results & t2 & Hsave & -> & -> & Hany).
  specialize (Hany (cache_write w) fs [] fs).
  rewrite with_cache_write_same in Hany.
  unfold save_cache in Hsave, Hany. unfold load_cache, loaded_cache in *.
  rewrite Hp in *. injection Hsave as <- <-.
  by apply Hany.
Qed.

Lemma no_cache_file_no_file_access_witness :
  ∃ tr out,
    ∀ fs, convert_sra_ids ∅ live_world default_config fs ["SRP1"]
          = (tr, inr (out, fs)).
Proof.
  apply (no_cache_file_no_file_access ∅ live_world default_config ["SRP1"]).
  - intros X. reflexivity.
  - unfold sane_config, Qle. simpl. lia.
  - reflexivity.
Defined.

Lemma convert_sra_ids_nil KNOWN w cfg fs :
  order_ok (set_order w) →
  ∃ tr fs',
    convert_sra_ids KNOWN w cfg fs [] = (tr, inr (∅, fs')) ∧
    submits tr = [] ∧ sleeps tr = [] ∧ progress_values tr = [] ∧
    (∀ p, cache_path cfg = Some p → cache_write w = WriteOk →
          fs' = <[p := JsonObject (loaded_cache cfg fs)]> fs) ∧
    (cache_path cfg = None → fs' = fs).
Proof.
  intros Horder.
  destruct (load_cache_spec cfg fs) as (Hload & Hs0 & Hl0 & Hp0).
  destruct (save_cache_spec w cfg (loaded_cache cfg fs) ∅ fs)
    as (fs' & Hsave & Hs1 & Hl1 & Hp1).
  destruct (load_cache cfg fs) as [t0 r0] eqn:Hl. simpl in *. subst r0.
  destruct (save_cache w cfg (loaded_cache cfg fs) ∅ fs) as [t1 r1] eqn:Hsv.
  simpl in *. subst r1.
  assert (set_order w (list_to_set []) = []) as Hnil.
  { apply Permutation_nil_r. rewrite (Horder (list_to_set [])).
    by rewrite list_to_set_nil, elements_empty. }
  exists (t0 ++ t1), fs'. split; [|split; [|split; [|split; [|split]]]].
  - unfold convert_sra_ids. rewrite Hl, Hnil.
    eapply bind_inr; [reflexivity|]. simpl foldl. cbv beta match.
    rewrite !filter_nil.
    rewrite !(bool_decide_eq_false_2 (@nil string ≠ [])) by (intros H; by apply H).
    unfold len. simpl length. simpl (0 <? _). rewrite andb_false_r, !when_false.
    rewrite <- (app_nil_r t1).
    change (t1 ++ []) with ([] ++ [] ++ [] ++ [] ++ t1 ++ []).
    eapply bind_inr; [reflexivity|].
    eapply bind_inr; [reflexivity|].
    eapply bind_inr; [reflexivity|].
    eapply bind_inr; [reflexivity|].
    eapply bind_inr; [exact Hsv|]. reflexivity.
  - by rewrite submits_app, Hs0, Hs1.
  - by rewrite sleeps_app, Hl0, Hl1.
  - by rewrite progress_values_app, Hp0, Hp1.
  - intros p Hp Hw. unfold save_cache in Hsv. rewrite Hp, Hw in Hsv.
    injection Hsv as _ <-. by rewrite (left_id_L ∅ (∪)).
  - intros Hp. unfold save_cache in Hsv. rewrite Hp in Hsv. by injection Hsv as _ <-.
Qed.

(** X15: the empty input: whatever the configuration, the call returns the
    empty mapping without a lookup, a delay or a progress report; with a
    cache file it still rewrites the file, creating it when it is missing. *)
Theorem convert_empty_input KNOWN w cfg fs :
  order_ok (set_order w) →
  ∃ tr fs',
    convert_sra_ids KNOWN w cfg fs [] = (tr, inr (∅, fs')) ∧
    submits tr = [] ∧ sleeps tr = [] ∧ progress_values tr = [] ∧
    (∀ p, cache_path cfg = Some p → cache_write w = WriteOk →
          fs' = <[p := JsonObject (loaded_cache cfg fs)]> fs) ∧
    (cache_path cfg = None → fs' = fs).
Proof. apply convert_sra_ids_nil. Qed.

Lemma convert_empty_input_witness :
  ∃ tr fs',
    convert_sra_ids ∅ live_world cached_config ∅ [] = (tr, inr (∅, fs')) ∧
    submits tr = [] ∧ sleeps tr = [] ∧ progress_values tr = [] ∧
    (∀ p, cache_path cached_config = Some p → cache_write live_world = WriteOk →
          fs' = <[p := JsonObject (loaded_cache cached_config ∅)]> ∅) ∧
    (cache_path cached_config = None → fs' = ∅).
Proof.
  apply (convert_empty_input ∅ live_world cached_config ∅).
  intros X. reflexivity.
Defined.

(** ** The two passes of [convert_sra_ids] *)

(** X16: duplicates in the input do not multiply the work: over the whole
    call an id is handed to the worker pool at most [1 + max_retries] times,
    and every SRP lookup comes before every ERP lookup. *)
Theorem convert_invocations_bound KNOWN w cfg fs sra_ids :
  order_ok (set_order w) → sane_config cfg →
  ∃ tr out fs',
    convert_sra_ids KNOWN w cfg fs sra_ids = (tr, inr (out, fs')) ∧
    (∀ sid, (invocations sid tr ≤ Z.to_nat (1 + max_retries cfg))%nat) ∧
    ∃ s_srp s_erp,
      submits tr = s_srp ++ s_erp ∧
      (∀ j sid, (j, sid) ∈ s_srp → is_srp sid = true) ∧
      (∀ j sid, (j, sid) ∈ s_erp → is_erp sid = true).
Proof.
  intros Horder Hsane.
  destruct (convert_sra_ids_spec KNOWN w cfg fs sra_ids Horder Hsane)
    as (tr & out & fs' & Heq & Hpost).
  exists tr, out, fs'. split; [done|].
  destruct (convert_post_submits _ _ _ _ _ _ _ _ Horder Hpost)
    as (t_srp & res_srp & t_erp & res_erp & srp_ids & erp_ids
        & Hps & Hpe & Hsub & Hsrp & Herp & _).
  assert (∀ j sid, (j, sid) ∈ submits t_srp → is_srp sid = true) as Hs1.
  { intros j sid Hin. apply (batches_post_submitted Hps) in Hin as [Hin _].
    by apply Hsrp in Hin as (_ & _ & ?). }
  assert (∀ j sid, (j, sid) ∈ submits t_erp → is_erp sid = true) as Hs2.
  { intros j sid Hin. apply (batches_post_submitted Hpe) in Hin as [Hin _].
    by apply Herp in Hin as (_ & _ & ?). }
  split; [|by exists (submits t_srp), (submits t_erp)].
  intros sid. unfold invocations. rewrite Hsub, filter_app, length_app.
  fold (invocations sid t_srp). fold (invocations sid t_erp).
  destruct (is_srp sid) eqn:Hk.
  - rewrite (no_invocations sid t_erp).
    + pose proof (batches_post_invocations Hps sid). lia.
    + intros j Hin. apply Hs2 in Hin. apply is_srp_not_erp in Hk. congruence.
  - rewrite (no_invocations sid t_srp).
    + pose proof (batches_post_invocations Hpe sid). lia.
    + intros j Hin. apply Hs1 in Hin. congruence.
Qed.

Lemma convert_invocations_bound_witness :
  ∃ tr out fs',
    convert_sra_ids ∅ dead_world cached_config ∅ ["SRP1"; "ERP1"; "SRP1"]
    = (tr, inr (out, fs')) ∧
    (∀ sid, (invocations sid tr ≤ Z.to_nat (1 + max_retries cached_config))%nat) ∧
    ∃ s_srp s_erp,
      submits tr = s_srp ++ s_erp ∧
      (∀ j sid, (j, sid) ∈ s_srp → is_srp sid = true) ∧
      (∀ j sid, (j, sid) ∈ s_erp → is_erp sid = true).
Proof.
  apply (convert_invocations_bound ∅ dead_world cached_config ∅
           ["SRP1"; "ERP1"; "SRP1"]).
  - intros X. reflexivity.
  - unfold sane_config, Qle. simpl. lia.
Defined.

(** ** The standard ERP conversion *)

Lemma digits_prefix_all d : all_digits d = true → digits_prefix d = d.
Proof.
  induction d as [|c d IH]; [done|]. simpl.
  intros [-> Hd]%andb_true_iff. by rewrite IH.
Qed.

Lemma digits_prefix_spec s :
  all_digits (digits_prefix s) = true ∧ ∃ post, s = digits_prefix s +:+ post.
Proof.
  induction s as [|c s [IH1 [post IH2]]]; [split; [done|by exists ""]|].
  simpl. destruct (is_digit c) eqn:Hc.
  - simpl. rewrite Hc, IH1. split; [done|]. exists post. by rewrite IH2 at 1.
  - split; [done|]. by eexists.
Qed.

Lemma substring_all s : String.substring 0 (String.length s) s = s.
Proof. induction s as [|c s IH]; [done|]. simpl. by rewrite IH. Qed.

Lemma prefix_ERP s :
  String.prefix "ERP" s = true →
  s = "ERP" +:+ String.substring 3 (String.length s - 3) s.
Proof.
  destruct s as [|a s]; [done|]. rewrite prefix_cons.
  destruct (ascii_dec _ a) as [<-|]; [|done].
  destruct s as [|b s]; [done|]. rewrite prefix_cons.
  destruct (ascii_dec _ b) as [<-|]; [|done].
  destruct s as [|c s]; [done|]. rewrite prefix_cons.
  destruct (ascii_dec _ c) as [<-|]; [|done].
  intros _. cbn [String.length String.substring Nat.sub].
  by rewrite Nat.sub_0_r, substring_all.
Qed.

Lemma re_search_ERP_sound s d :
  re_search_ERP s = Some d →
  d ≠ "" ∧ all_digits d = true ∧ ∃ pre post, s = pre +:+ "ERP" +:+ d +:+ post.
Proof.
  induction s as [|c s IH]; [done|].
  assert (re_search_ERP s = Some d →
          d ≠ "" ∧ all_digits d = true ∧
          ∃ pre post, String c s = pre +:+ "ERP" +:+ d +:+ post) as Hrest.
  { intros (? & ? & pre & post & ->)%IH. split; [done|]. split; [done|].
    by exists (String c pre), post. }
  cbn [re_search_ERP].
  destruct (String.prefix "ERP" (String c s)) eqn:Hpre; [|done].
  apply prefix_ERP in Hpre.
  destruct (digits_prefix_spec
              (String.substring 3 (String.length (String c s) - 3) (String c s)))
    as [Hall [post Hpost]].
  destruct (digits_prefix _) as [|c' d'] eqn:Hd; [done|].
  intros [= <-]. split; [done|]. split; [done|].
  exists "", post. rewrite Hpre at 1. by rewrite Hpost at 1.
Qed.

Lemma re_search_ERP_digits d :
  d ≠ "" → all_digits d = true → re_search_ERP ("ERP" +:+ d) = Some d.
Proof.
  intros Hne Hd.
  change ("ERP" +:+ d) with (String "E" (String "R" (String "P" d))).
  cbn [re_search_ERP].
  replace (String.prefix "ERP" (String "E" (String "R" (String "P" d))))
    with true
    by (rewrite !prefix_cons; repeat (destruct (ascii_dec _ _); [|done]);
        by destruct d).
  cbn [String.length String.substring Nat.sub].
  rewrite Nat.sub_0_r, substring_all, (digits_prefix_all d Hd).
  by destruct d.
Qed.

(** X17: an accession [ERP<digits>] for which every ENA and BioStudies query
    fails still gets a BioProject id, [PRJEB<digits>], and nothing else. *)
Theorem erp_standard_conversion KNOWN net d :
  d ≠ "" → all_digits d = true →
  KNOWN !! ("ERP" +:+ d) = None → all_methods_fail net →
  process_erp_id KNOWN net ("ERP" +:+ d)
  = mkResult ("PRJEB" +:+ d) "" ∧
  is_success (process_erp_id KNOWN net ("ERP" +:+ d)) = true.
Proof.
  intros Hne Hd Hk Hfail.
  rewrite (process_erp_id_fallback KNOWN net ("ERP" +:+ d) d Hk Hfail
             (re_search_ERP_digits d Hne Hd)).
  split; [done|]. reflexivity.
Qed.

Lemma erp_standard_conversion_witness :
  process_erp_id ∅ erp_unreachable ("ERP" +:+ "127673")
  = mkResult ("PRJEB" +:+ "127673") "" ∧
  is_success (process_erp_id ∅ erp_unreachable ("ERP" +:+ "127673")) = true.
Proof.
  apply (erp_standard_conversion ∅ erp_unreachable "127673").
  - discriminate.
  - reflexivity.
  - reflexivity.
  - unfold all_methods_fail. simpl. done.
Defined.

(** X18: what [get_bioproject_from_erp] answers when no query produced a
    value is never made up from nothing: it is [PRJEB] followed by a
    non-empty run of digits that stands right after [ERP] in the accession,
    and [None] when the accession has no such run. *)
Theorem erp_fallback_sound KNOWN net erp_id :
  KNOWN !! erp_id = None →
  first_return [portal_filereport net; browser_xml net; portal_study net] = None →
  match get_bioproject_from_erp KNOWN net erp_id with
  | Some v =>
      ∃ d, v = "PRJEB" +:+ d ∧ d ≠ "" ∧ all_digits d = true ∧
           ∃ pre post, erp_id = pre +:+ "ERP" +:+ d +:+ post
  | None => ∀ d, d ≠ "" → all_digits d = true → erp_id ≠ "ERP" +:+ d
  end.
Proof.
  intros Hk Hfirst. unfold get_bioproject_from_erp. rewrite Hk, Hfirst.
  destruct (re_search_ERP erp_id) as [d|] eqn:Hre.
  - exists d. split; [done|]. by apply re_search_ERP_sound.
  - intros d Hne Hd ->. by rewrite re_search_ERP_digits in Hre.
Qed.

Lemma erp_fallback_sound_witness :
  match get_bioproject_from_erp ∅ no_bioproject "ERP12" with
  | Some v =>
      ∃ d, v = "PRJEB" +:+ d ∧ d ≠ "" ∧ all_digits d = true ∧
           ∃ pre post, "ERP12" = pre +:+ "ERP" +:+ d +:+ post
  | None => ∀ d, d ≠ "" → all_digits d = true → "ERP12" ≠ "ERP" +:+ d
  end.
Proof.
  apply (erp_fallback_sound ∅ no_bioproject "ERP12").
  - reflexivity.
  - reflexivity.
Defined.

(** ** Batched SRX to GSM conversion *)

Lemma dict_zip_snoc rows row :
  dict_zip (rows ++ [row]) = <[row.1 := row.2]> (dict_zip rows).
Proof. unfold dict_zip. by rewrite foldl_app. Qed.

Lemma dict_zip_Some rows k v :
  dict_zip rows !! k = Some v → (k, v) ∈ rows.
Proof.
  induction rows as [|[k' v'] rows IH] using rev_ind; [done|].
  rewrite dict_zip_snoc, elem_of_app, list_elem_of_singleton. simpl.
  destruct (decide (k' = k)) as [->|Hne].
  - rewrite lookup_insert_eq. intros [= ->]. by right.
  - rewrite lookup_insert_ne by done. intros ?%IH. by left.
Qed.

Lemma dict_zip_None rows k :
  dict_zip rows !! k = None ↔ ∀ v, (k, v) ∉ rows.
Proof.
  induction rows as [|[k' v'] rows IH] using rev_ind.
  { split; [by intros _ v ?%elem_of_nil|done]. }
  rewrite dict_zip_snoc. simpl.
  destruct (decide (k' = k)) as [->|Hne].
  - rewrite lookup_insert_eq. split; [done|].
    intros H. exfalso. apply (H v'), elem_of_app. right. by left.
  - rewrite lookup_insert_ne, IH by done. split.
    + intros H v [?|Hin]%elem_of_app; [by apply (H v)|].
      apply list_elem_of_singleton in Hin. congruence.
    + intros H v Hin. apply (H v), elem_of_app. by left.
Qed.

Section srx.
Context (order : gset string → list string) (Horder : order_ok order).
Context (srx_to_gsm : list string → SrxReply).
Context (batch_size : Z) (api_key : option string) (Hbs : 0 < batch_size).
(** no call of [srx_to_gsm] raises *)
Context (Hok : ∀ batch, ∃ r, srx_to_gsm batch = inr r).

Local Abbreviation delay :=
  (match api_key with None => (3 # 1)%Q | Some _ => (1 # 1)%Q end).

Lemma foldM_srx_batch (l : list string) m : ∀ a acc,
  (a + m)%nat = Z.to_nat ((len l + batch_size - 1) / batch_size) →
  ∃ tr,
    foldM (srx_batch srx_to_gsm batch_size api_key l) acc
          ((λ j : nat, 0 + Z.of_nat j * batch_size) <$> seq a m)
    = (tr, inr (acc ++ omap (srx_found srx_to_gsm)
                         ((λ a : nat, take (Z.to_nat batch_size)
                                        (drop (a * Z.to_nat batch_size) l))
                            <$> seq a m))) ∧
    tr = Sleep <$> replicate (m - 1) delay.
Proof.
  pose proof (Z.mul_succ_div_gt (len l + batch_size - 1) batch_size Hbs) as Hup.
  pose proof (Z.mul_div_le (len l + batch_size - 1) batch_size Hbs) as Hlo.
  assert (0 <= (len l + batch_size - 1) / batch_size) as Hq
    by (apply Z.div_pos; unfold len; lia).
  induction m as [|m IH]; intros a acc Ham.
  { exists []. simpl. by rewrite app_nil_r. }
  rewrite <- cons_seq, !fmap_cons. cbn [foldM].
  unfold srx_batch at 1. rewrite (slice_batch batch_size Hbs).
  set (batch := take (Z.to_nat batch_size) (drop (a * Z.to_nat batch_size) l)).
  set (rest := (λ a0 : nat, take (Z.to_nat batch_size)
                              (drop (a0 * Z.to_nat batch_size) l))
                 <$> seq (S a) m).
  destruct (Hok batch) as [r Hr].
  assert (omap (srx_found srx_to_gsm) (batch :: rest)
          = match r with
            | Some df => if bool_decide (df ≠ []) then [df] else []
            | None => []
            end ++ omap (srx_found srx_to_gsm) rest) as ->.
  { change (omap (srx_found srx_to_gsm) (batch :: rest))
      with (match srx_found srx_to_gsm batch with
            | Some y => y :: omap (srx_found srx_to_gsm) rest
            | None => omap (srx_found srx_to_gsm) rest
            end).
    unfold srx_found at 1. rewrite Hr.
    destruct r as [df|]; [destruct (bool_decide (df ≠ []))|]; done. }
  rewrite Hr. subst rest.
  set (acc' := match r with
               | Some df => if bool_decide (df ≠ []) then acc ++ [df] else acc
               | None => acc
               end).
  destruct (IH (S a) acc') as (t2 & Heq2 & Ht2); [lia|].
  assert (sleep delay = ([Sleep delay], inr tt)) as Hsleep.
  { apply sleep_ok. destruct api_key; unfold Qle; simpl; lia. }
  exists ((if 0 + Z.of_nat a * batch_size + batch_size <? len l
           then [Sleep delay] else []) ++ t2).
  split.
  - unfold ret at 1. simpl bind at 2. fold acc'.
    destruct (0 + Z.of_nat a * batch_size + batch_size <? len l); simpl when;
      rewrite ?Hsleep; simpl bind at 2; simpl bind at 1; rewrite Heq2;
      simpl; (do 2 f_equal); subst acc';
      (destruct r as [df|]; [destruct (bool_decide (df ≠ []))|]); simpl;
      by rewrite <- ?app_assoc, ?app_nil_r.
  - rewrite Ht2. destruct m as [|m].
    + by rewrite (proj2 (Z.ltb_ge _ _)) by nia.
    + rewrite (proj2 (Z.ltb_lt _ _)) by nia. simpl. by rewrite Nat.sub_0_r.
Qed.

Lemma batch_srx_to_gsm_spec srx_list :
  let unique_srx := order (list_to_set srx_list) in
  let found := omap (srx_found srx_to_gsm) (srx_batches unique_srx batch_size) in
  batch_srx_to_gsm order srx_to_gsm batch_size api_key srx_list
  = (Sleep <$> replicate (length (srx_batches unique_srx batch_size) - 1) delay,
     inr (if bool_decide (found = []) then []
          else (λ srx, (srx, dict_zip (concat found) !! srx)) <$> srx_list)).
Proof.
  intros unique_srx found. unfold batch_srx_to_gsm. fold unique_srx.
  rewrite (py_range_batches batch_size Hbs).
  destruct (foldM_srx_batch unique_srx
              (Z.to_nat ((len unique_srx + batch_size - 1) / batch_size)) 0 [])
    as (tr & Heq & ->); [lia|].
  simpl bind at 1. rewrite Heq. simpl.
  fold (srx_batches unique_srx batch_size). fold found.
  unfold srx_batches at 1. rewrite length_fmap, length_seq.
  destruct (bool_decide (found = [])); simpl; by rewrite app_nil_r.
Qed.

End srx.



Lemma elem_of_concat {A} (x : A) (ls : list (list A)) :
  x ∈ concat ls ↔ ∃ l, x ∈ l ∧ l ∈ ls.
Proof.
  induction ls as [|l ls IH]; simpl.
  - split; [by intros ?%elem_of_nil|by intros (? & _ & ?%elem_of_nil)].
  - rewrite elem_of_app, IH. split.
    + intros [?|(l' & ? & ?)]; [exists l; split; [done|by left]|].
      exists l'. split; [done|by right].
    + intros (l' & ? & [->|?]%elem_of_cons); [by left|]. right. by exists l'.
Qed.

Lemma srx_found_Some srx_to_gsm batch df :
  srx_found srx_to_gsm batch = Some df ↔
  srx_to_gsm batch = inr (Some df) ∧ df ≠ [].
Proof.
  unfold srx_found. destruct (srx_to_gsm batch) as [e|[df'|]].
  - naive_solver.
  - case_bool_decide; naive_solver.
  - naive_solver.
Qed.

(** X19: the result is all or nothing: as soon as one batch yields a row
    there is exactly one row per element of [srx_list], in the order of the
    input and with its duplicates; when no batch yields a row the frame has
    no rows at all, whatever the input. *)
Theorem batch_srx_to_gsm_rows order srx_to_gsm batch_size api_key srx_list :
  0 < batch_size → (∀ batch, ∃ r, srx_to_gsm batch = inr r) →
  ∃ tr out,
    batch_srx_to_gsm order srx_to_gsm batch_size api_key srx_list
    = (tr, inr out) ∧
    let batches := srx_batches (order (list_to_set srx_list)) batch_size in
    ((∃ batch df, batch ∈ batches ∧ srx_to_gsm batch = inr (Some df) ∧ df ≠ []) →
     out.*1 = srx_list) ∧
    ((∀ batch df, batch ∈ batches → srx_to_gsm batch = inr (Some df) → df = []) →
     out = []).
Proof.
  intros Hbs Hok. eexists _, _.
  split; [apply (batch_srx_to_gsm_spec order srx_to_gsm batch_size api_key Hbs Hok)|].
  intros batches. fold batches. split.
  - intros (batch & df & Hin & Hreply & Hne).
    rewrite bool_decide_eq_false_2.
    + rewrite <- list_fmap_compose. apply list_fmap_id.
    + intros Hnil.
      assert (df ∈ omap (srx_found srx_to_gsm) batches) as Hdf.
      { apply list_elem_of_omap. exists batch. split; [done|].
        by apply srx_found_Some. }
      rewrite Hnil in Hdf. by apply elem_of_nil in Hdf.
  - intros Hnone. rewrite bool_decide_eq_true_2; [done|].
    apply elem_of_nil_inv. intros df (batch & Hin & [Hr Hne]%srx_found_Some)%list_elem_of_omap.
    by apply Hne, (Hnone batch).
Qed.

Lemma batch_srx_to_gsm_rows_witness :
  ∃ tr out,
    batch_srx_to_gsm elements (λ batch, inr (Some ((λ s, (s, "GSM1")) <$> batch)))
      2 None ["SRX2"; "SRX1"; "SRX2"]
    = (tr, inr out) ∧
    let batches :=
      srx_batches (elements (list_to_set ["SRX2"; "SRX1"; "SRX2"] : gset string)) 2 in
    ((∃ batch df, batch ∈ batches ∧
        (λ batch, inr (Some ((λ s, (s, "GSM1")) <$> batch)) : SrxReply) batch
        = inr (Some df) ∧ df ≠ []) →
     out.*1 = ["SRX2"; "SRX1"; "SRX2"]) ∧
    ((∀ batch df, batch ∈ batches →
        (λ batch, inr (Some ((λ s, (s, "GSM1")) <$> batch)) : SrxReply) batch
        = inr (Some df) → df = []) →
     out = []).
Proof.
  apply (batch_srx_to_gsm_rows elements
           (λ batch, inr (Some ((λ s, (s, "GSM1")) <$> batch)))
           2 None ["SRX2"; "SRX1"; "SRX2"]).
  - lia.
  - intros batch. eexists. reflexivity.
Defined.

(** X20: where an alias comes from: an alias in the result is the alias of a
    row that some batch returned for that accession, and an accession is
    left without alias only if no batch returned a row for it. *)
Theorem batch_srx_to_gsm_alias order srx_to_gsm batch_size api_key srx_list :
  0 < batch_size → (∀ batch, ∃ r, srx_to_gsm batch = inr r) →
  ∃ tr out,
    batch_srx_to_gsm order srx_to_gsm batch_size api_key srx_list
    = (tr, inr out) ∧
    let batches := srx_batches (order (list_to_set srx_list)) batch_size in
    (∀ srx alias, (srx, Some alias) ∈ out →
       ∃ batch df, batch ∈ batches ∧ srx_to_gsm batch = inr (Some df) ∧
                   (srx, alias) ∈ df) ∧
    (∀ srx, (srx, None) ∈ out →
       ∀ batch df alias, batch ∈ batches → srx_to_gsm batch = inr (Some df) →
                         (srx, alias) ∉ df).
Proof.
  intros Hbs Hok. eexists _, _.
  split; [apply (batch_srx_to_gsm_spec order srx_to_gsm batch_size api_key Hbs Hok)|].
  intros batches. fold batches.
  set (found := omap (srx_found srx_to_gsm) batches).
  case_bool_decide as Hfound.
  { split; [by intros ? ? ?%elem_of_nil|by intros ? ?%elem_of_nil]. }
  split.
  - intros srx alias (? & [= <- Hdict] & _)%list_elem_of_fmap.
    symmetry in Hdict. apply dict_zip_Some, elem_of_concat in Hdict.
    destruct Hdict as (df & Hrow & Hdf).
    apply list_elem_of_omap in Hdf as (batch & Hin & [Hr _]%srx_found_Some).
    by exists batch, df.
  - intros srx (? & [= <- Hdict] & _)%list_elem_of_fmap batch df alias Hin Hr Hrow.
    symmetry in Hdict. apply (proj1 (dict_zip_None _ _) Hdict alias).
    apply elem_of_concat. exists df. split; [done|].
    apply list_elem_of_omap. exists batch. split; [done|].
    apply srx_found_Some. split; [done|]. intros ->. by apply elem_of_nil in Hrow.
Qed.

Lemma batch_srx_to_gsm_alias_witness :
  ∃ tr out,
    batch_srx_to_gsm elements (λ batch, inr (Some ((λ s, (s, "GSM1")) <$> batch)))
      2 None ["SRX2"; "SRX1"; "SRX2"]
    = (tr, inr out) ∧
    let batches :=
      srx_batches (elements (list_to_set ["SRX2"; "SRX1"; "SRX2"] : gset string)) 2 in
    (∀ srx alias, (srx, Some alias) ∈ out →
       ∃ batch df, batch ∈ batches ∧
         (λ batch, inr (Some ((λ s, (s, "GSM1")) <$> batch)) : SrxReply) batch
         = inr (Some df) ∧
         (srx, alias) ∈ df) ∧
    (∀ srx, (srx, None) ∈ out →
       ∀ batch df alias, batch ∈ batches →
         (λ batch, inr (Some ((λ s, (s, "GSM1")) <$> batch)) : SrxReply) batch
         = inr (Some df) →
         (srx, alias) ∉ df).
Proof.
  apply (batch_srx_to_gsm_alias elements
           (λ batch, inr (Some ((λ s, (s, "GSM1")) <$> batch)))
           2 None ["SRX2"; "SRX1"; "SRX2"]).
  - lia.
  - intros batch. eexists. reflexivity.
Defined.



(** ** Configurations the scheduler rejects *)

(** X22: [convert_sra_ids] does not validate its configuration: with
    [batch_size = 0] it raises [ValueError] as soon as one requested SRP or
    ERP id is neither a known mapping nor cached, before any lookup. *)
Theorem convert_batch_size_zero_raises KNOWN w cfg fs sra_ids sid :
  order_ok (set_order w) → batch_size cfg = 0 → 0 ≤ max_retries cfg →
  sid ∈ sra_ids → stored KNOWN cfg fs sid = None → is_other sid = false →
  ∃ tr,
    convert_sra_ids KNOWN w cfg fs sra_ids
    = (tr, inl (ValueError "range() arg 3 must not be zero")) ∧
    submits tr = [] ∧ sleeps tr = [].
Proof.
  intros Horder Hbs Hmr Hin Hst Hkind.
  destruct (load_cache_spec cfg fs) as (Hload & Hs0 & Hl0 & _).
  destruct (load_cache cfg fs) as [t0 r0] eqn:Hl. simpl in Hload, Hs0, Hl0.
  subst r0.
  destruct (short_circuit_fold KNOWN cfg fs (set_order w (list_to_set sra_ids)) ∅ [])
    as (res & Hfold & _).
  simpl app in Hfold.
  set (remaining := filter (λ x, stored KNOWN cfg fs x = None)
                      (set_order w (list_to_set sra_ids))) in *.
  assert (sid ∈ remaining) as Hrem.
  { apply list_elem_of_filter. split; [done|].
    rewrite (Horder _). by apply elem_of_elements, elem_of_list_to_set. }
  unfold convert_sra_ids. rewrite Hl, Hbs.
  set (srp_ids := filter (λ x, is_srp x = true) remaining).
  set (erp_ids := filter (λ x, is_erp x = true) remaining).
  assert (srp_ids ≠ [] ∨ (srp_ids = [] ∧ erp_ids ≠ [])) as Hcase.
  { destruct srp_ids as [|x l] eqn:Hsrp; [|by left]. right. split; [done|].
    unfold is_other in Hkind. apply negb_false_iff, orb_true_iff in Hkind.
    destruct Hkind as [Hk|Hk].
    - assert (sid ∈ srp_ids) as Hx by (by apply list_elem_of_filter).
      rewrite Hsrp in Hx. by apply elem_of_nil in Hx.
    - assert (sid ∈ erp_ids) as Hx by (by apply list_elem_of_filter).
      intros Hnil. rewrite Hnil in Hx. by apply elem_of_nil in Hx. }
  destruct Hcase as [Hsrp|[Hsrp Herp]].
  - eexists. split.
    + eapply bind_inr; [reflexivity|]. cbv beta. rewrite Hfold.
      rewrite !when_tell.
      eapply bind_inr; [reflexivity|].
      eapply bind_inr; [reflexivity|].
      apply bind_inl. fold remaining. fold srp_ids.
      rewrite bool_decide_eq_true_2 by done.
      apply bind_inl. by apply process_in_batches_zero_step.
    + rewrite !submits_app, !sleeps_app, Hs0, Hl0.
      split; by repeat case_match.
  - eexists. split.
    + eapply bind_inr; [reflexivity|]. cbv beta. rewrite Hfold.
      rewrite !when_tell.
      eapply bind_inr; [reflexivity|].
      eapply bind_inr; [reflexivity|].
      fold remaining. fold srp_ids. fold erp_ids. rewrite Hsrp.
      rewrite (bool_decide_eq_false_2 (@nil string ≠ [])) by (intros H; by apply H).
      eapply bind_inr; [reflexivity|].
      apply bind_inl.
      rewrite bool_decide_eq_true_2 by done.
      apply bind_inl. by apply process_in_batches_zero_step.
    + rewrite !submits_app, !sleeps_app, Hs0, Hl0.
      split; by repeat case_match.
Qed.

Lemma convert_batch_size_zero_raises_witness :
  ∃ tr,
    convert_sra_ids ∅ live_world
      {| batch_size := 0; max_workers := 2; delay_between_batches := (2 # 1)%Q;
         cache_file := None; max_retries := 3; retry_delay := (5 # 1)%Q;
         progress_callback := false |}
      ∅ ["SRP1"]
    = (tr, inl (ValueError "range() arg 3 must not be zero")) ∧
    submits tr = [] ∧ sleeps tr = [].
Proof.
  apply (convert_batch_size_zero_raises ∅ live_world
           {| batch_size := 0; max_workers := 2;
              delay_between_batches := (2 # 1)%Q; cache_file := None;
              max_retries := 3; retry_delay := (5 # 1)%Q;
              progress_callback := false |}
           ∅ ["SRP1"] "SRP1").
  - intros X. reflexivity.
  - reflexivity.
  - simpl. lia.
  - left.
  - reflexivity.
  - reflexivity.
Defined.

(** ** Reading accession lists *)










(** ** The batch front end *)

Lemma cache_path_with_progress cfg callback :
  cache_path (with_progress cfg callback) = cache_path cfg.
Proof. done. Qed.

(** X24: [process_sra_ids] cannot process the empty list: whatever the
    configuration, [convert_sra_ids] returns without a lookup and rewrites
    the cache file, and the summary then divides by [len(sra_ids)] and
    raises [ZeroDivisionError]. *)
Theorem process_sra_ids_empty_input KNOWN w1 w2 cfg show_progress fs :
  order_ok (set_order w1) →
  ∃ tr fs',
    process_sra_ids KNOWN w1 w2 cfg show_progress fs []
    = (tr, fs', inl ZeroDivisionError) ∧
    submits tr = [] ∧ sleeps tr = [] ∧
    (∀ p, cache_path cfg = Some p → cache_write w1 = WriteOk →
          fs' = <[p := JsonObject (loaded_cache cfg fs)]> fs) ∧
    (cache_path cfg = None → fs' = fs).
Proof.
  intros Horder. unfold process_sra_ids.
  destruct (convert_sra_ids_nil KNOWN w1 (with_progress cfg true) fs Horder)
    as (tr1 & fs1 & Heq1 & Hs1 & Hl1 & _ & Hw1 & Hn1).
  destruct (convert_sra_ids_nil KNOWN w1 (with_progress cfg false) fs Horder)
    as (tr2 & fs2 & Heq2 & Hs2 & Hl2 & _ & Hw2 & Hn2).
  rewrite Heq1, Heq2.
  destruct show_progress; simpl; eexists _, _; (split; [reflexivity|]); auto.
Qed.

Lemma process_sra_ids_empty_input_witness :
  ∃ tr fs',
    process_sra_ids ∅ live_world live_world cached_config true ∅ []
    = (tr, fs', inl ZeroDivisionError) ∧
    submits tr = [] ∧ sleeps tr = [] ∧
    (∀ p, cache_path cached_config = Some p → cache_write live_world = WriteOk →
          fs' = <[p := JsonObject (loaded_cache cached_config ∅)]> ∅) ∧
    (cache_path cached_config = None → fs' = ∅).
Proof.
  apply (process_sra_ids_empty_input ∅ live_world live_world cached_config true ∅).
  intros X. reflexivity.
Defined.



(** ** Paging and worst-case waiting of the SRX helpers *)

Lemma py_range_sorted step a m :
  0 < step →
  StronglySorted Z.lt ((λ j : nat, 0 + Z.of_nat j * step) <$> seq a m).
Proof.
  intros Hpos. revert a. induction m as [|m IH]; intros a; [constructor|].
  rewrite <- cons_seq, fmap_cons. constructor; [apply IH|].
  apply Forall_forall. intros s (j & -> & [Hj _]%elem_of_seq)%list_elem_of_fmap.
  nia.
Qed.

(** X26: with a positive page size [get_retmax] yields the multiples of
    [retmax] below [n_records], in increasing order, so that every record
    index lies in the page [[s, s + retmax)] of exactly one offset [s]; no
    offset at all when there is no record. *)
Theorem get_retmax_pages n_records retmax :
  0 < retmax →
  ∃ starts,
    get_retmax n_records retmax = ([], inr starts) ∧
    (∀ s, s ∈ starts ↔ 0 ≤ s < n_records ∧ s mod retmax = 0) ∧
    StronglySorted Z.lt starts ∧
    (∀ r, 0 ≤ r < n_records →
       ∃ s, s ∈ starts ∧ s ≤ r < s + retmax ∧
            ∀ s', s' ∈ starts → s' ≤ r < s' + retmax → s' = s).
Proof.
  intros Hpos. unfold get_retmax. rewrite (py_range_batches retmax Hpos).
  eexists. split; [reflexivity|].
  set (m := Z.to_nat ((n_records + retmax - 1) / retmax)).
  assert (∀ j : nat, (j < m)%nat ↔ Z.of_nat j * retmax < n_records) as Hm.
  { intros j. unfold m.
    destruct (decide (n_records ≤ 0)) as [Hn|Hn].
    - assert ((n_records + retmax - 1) / retmax ≤ 0).
      { destruct (decide (n_records + retmax - 1 < 0)).
        - pose proof (Z.div_lt_upper_bound (n_records + retmax - 1) retmax 0
                        ltac:(lia) ltac:(lia)). lia.
        - rewrite Z.div_small; lia. }
      split; [lia|nia].
    - pose proof (Z.mul_succ_div_gt (n_records + retmax - 1) retmax Hpos).
      pose proof (Z.mul_div_le (n_records + retmax - 1) retmax Hpos).
      assert (0 <= (n_records + retmax - 1) / retmax) by (apply Z.div_pos; lia).
      split; intros; nia. }
  assert (∀ s, s ∈ (λ j : nat, 0 + Z.of_nat j * retmax) <$> seq 0 m
               ↔ 0 ≤ s < n_records ∧ s mod retmax = 0) as Hmem.
  { intros s. rewrite list_elem_of_fmap. split.
    - intros (j & -> & [_ Hj]%elem_of_seq). simpl in Hj. apply Hm in Hj.
      split; [lia|]. rewrite Z.add_0_l. apply Z.mod_mul. lia.
    - intros [Hs Hmod]. exists (Z.to_nat (s / retmax)).
      apply Z.mod_divide in Hmod as [q ->]; [|lia].
      rewrite Z.div_mul by lia.
      assert (0 ≤ q) by nia.
      split; [lia|]. apply elem_of_seq. split; [lia|]. simpl. apply Hm. lia. }
  split; [exact Hmem|]. split.
  - by apply py_range_sorted.
  - intros r Hr. exists (r / retmax * retmax).
    pose proof (Z.mul_div_le r retmax Hpos).
    pose proof (Z.mul_succ_div_gt r retmax Hpos).
    assert (0 <= r / retmax) by (apply Z.div_pos; lia).
    split; [|split; [lia|]].
    + apply Hmem. split; [lia|]. apply Z.mod_mul. lia.
    + intros s' [_ Hmod]%Hmem Hs'.
      apply Z.mod_divide in Hmod as [q ->]; [|lia].
      f_equal. apply (Z.div_unique r retmax q (r - q * retmax)); lia.
Qed.

Lemma get_retmax_pages_witness :
  ∃ starts,
    get_retmax 1200 500 = ([], inr starts) ∧
    (∀ s, s ∈ starts ↔ 0 ≤ s < 1200 ∧ s mod 500 = 0) ∧
    StronglySorted Z.lt starts ∧
    (∀ r, 0 ≤ r < 1200 →
       ∃ s, s ∈ starts ∧ s ≤ r < s + 500 ∧
            ∀ s', s' ∈ starts → s' ≤ r < s' + 500 → s' = s).
Proof.
  apply (get_retmax_pages 1200 500). lia.
Defined.

Lemma backoff_sum i n :
  (foldr Qplus 0 ((λ k : nat, inject_Z (2 ^ Z.of_nat k)) <$> seq i n)
   == inject_Z (2 ^ Z.of_nat (i + n) - 2 ^ Z.of_nat i))%Q.
Proof.
  revert i. induction n as [|n IH]; intros i.
  - rewrite Nat.add_0_r, Z.sub_diag. reflexivity.
  - rewrite <- cons_seq, fmap_cons. cbn [foldr]. rewrite IH, <- inject_Z_plus.
    replace (i + S n)%nat with (S i + n)%nat by lia.
    replace (Z.of_nat (S i)) with (Z.succ (Z.of_nat i)) by lia.
    rewrite Z.pow_succ_r by lia.
    apply inject_Z_injective. lia.
Qed.

(** X27: the worst case of [_retry_response]: when every reply is unusable
    the process exits with status 1 after exactly [max_retries] requests and
    [2 ** max_retries - 1] seconds of sleep (1023 seconds with the default
    of 10). *)
Theorem retry_response_worst_case reply base_url max_retries :
  (∀ k, (k < Z.to_nat max_retries)%nat → transient (reply k) = true) →
  outcome (_retry_response reply base_url max_retries) = inl (SystemExit 1) ∧
  requests (trace (_retry_response reply base_url max_retries))
  = replicate (Z.to_nat max_retries) base_url ∧
  (total_sleep (trace (_retry_response reply base_url max_retries))
   == inject_Z (2 ^ Z.of_nat (Z.to_nat max_retries) - 1))%Q.
Proof.
  intros Hall. unfold _retry_response.
  destruct (retry_from_spec reply base_url (Z.to_nat max_retries) O)
    as (tr & res & n & Heq & Hn & Hsl & Hrq & _ & Hres).
  rewrite Heq.
  destruct res as [e|[r|]].
  - destruct Hres as (_ & m & -> & Hm). simpl in Hm.
    specialize (Hall m ltac:(lia)). by rewrite Hm in Hall.
  - destruct Hres as (m & -> & Hm & Hk & He). simpl in Hm.
    specialize (Hall m ltac:(lia)). rewrite Hm in Hall. simpl in Hall.
    by rewrite Hk, He in Hall.
  - subst n. simpl. split; [done|]. split.
    + unfold requests in *. by rewrite omap_app, Hrq, app_nil_r.
    + unfold total_sleep. rewrite sleeps_app, Hsl, app_nil_r.
      rewrite backoff_sum. simpl Z.of_nat at 2. by rewrite Z.pow_0_r.
Qed.

Lemma retry_response_worst_case_witness :
  outcome (_retry_response (λ _, BodyNotJson) "u" 10) = inl (SystemExit 1) ∧
  requests (trace (_retry_response (λ _, BodyNotJson) "u" 10))
  = replicate (Z.to_nat 10) "u" ∧
  (total_sleep (trace (_retry_response (λ _, BodyNotJson) "u" 10))
   == inject_Z (2 ^ Z.of_nat (Z.to_nat 10) - 1))%Q.
Proof.
  apply (retry_response_worst_case (λ _, BodyNotJson) "u" 10).
  intros k _. reflexivity.
Defined.

(** ** Partial results *)

(** C10: a result handed back by the per-id function counts as a success
    exactly when one of its two fields is non-empty. Every input id is
    submitted in the first round; a success, partial or not, is stored as
    it is in the returned map and the id is never submitted again, so that
    an id whose first non-empty result comes in round [j] is invoked [j + 1]
    times; a result with both fields empty puts the id in the failure set,
    and the id is submitted again in the next round as long as a round is
    left. In [convert_sra_ids] such a stored record is the one returned
    and, with a cache file that can be written, the one cached. *)
Theorem C10_partial_result_accepted order process_func ids
    KNOWN w cfg fs sra_ids p :
  order_ok order → order_ok (set_order w) → sane_config cfg →
  cache_path cfg = Some p → cache_write w = WriteOk →
  (∃ tr results,
     process_in_batches order process_func (batch_size cfg) (max_workers cfg)
       (delay_between_batches cfg) (max_retries cfg) (retry_delay cfg)
       (progress_callback cfg) ids
     = (tr, inr results) ∧
     (∀ j sid r, (j, sid) ∈ submits tr → process_func j sid = Returned r →
        (bioproject_id r ≠ "" ∨ geo_id r ≠ "" →
           results !! sid = Some r ∧
           ∀ j', (j < j')%nat → (j', sid) ∉ submits tr) ∧
        (bioproject_id r = "" ∧ geo_id r = "" →
           Z.of_nat (S j) ≤ max_retries cfg → (S j, sid) ∈ submits tr)) ∧
     (∀ sid, sid ∈ ids → 0 ≤ max_retries cfg → (O, sid) ∈ submits tr) ∧
     (∀ j sid r, sid ∈ ids → Z.of_nat j ≤ max_retries cfg →
        (∀ i, (i < j)%nat → attempt_ok process_func i sid = None) →
        process_func j sid = Returned r →
        bioproject_id r ≠ "" ∨ geo_id r ≠ "" →
        (j, sid) ∈ submits tr ∧ results !! sid = Some r ∧
        invocations sid tr = S j)) ∧
  (∃ tr out cache,
     convert_sra_ids KNOWN w cfg fs sra_ids
     = (tr, inr (out, <[p := JsonObject cache]> fs)) ∧
     (∀ j sid r, (j, sid) ∈ submits tr →
        per_id_func KNOWN w sid j sid = Returned r →
        bioproject_id r ≠ "" ∨ geo_id r ≠ "" →
        out !! sid = Some r ∧ cache !! sid = Some r ∧
        ∀ j', (j < j')%nat → (j', sid) ∉ submits tr) ∧
     (∀ j sid r, sid ∈ sra_ids → stored KNOWN cfg fs sid = None →
        is_other sid = false → Z.of_nat j ≤ max_retries cfg →
        (∀ i, (i < j)%nat → attempt_ok (per_id_func KNOWN w sid) i sid = None) →
        per_id_func KNOWN w sid j sid = Returned r →
        bioproject_id r ≠ "" ∨ geo_id r ≠ "" →
        (j, sid) ∈ submits tr ∧ out !! sid = Some r ∧ cache !! sid = Some r ∧
        ∀ j', (j < j')%nat → (j', sid) ∉ submits tr)).
Proof.
  intros Horder Horder_w Hsane Hp Hw. split.
  - destruct Hsane as (Hbs & Hmw & Hdbb & Hrd).
    destruct (process_in_batches_NoDup order process_func (batch_size cfg)
                (max_workers cfg) (delay_between_batches cfg) (max_retries cfg)
                (retry_delay cfg) (progress_callback cfg) ids
                Horder Hbs Hmw Hdbb Hrd) as (tr & results & Heq & Hnd & Hpost).
    exists tr, results. split; [done|]. split; [|split].
    + intros j sid r Hin Hpf. split.
      * intros Hne%is_success_fields.
        apply (batches_post_accepted Hpost j sid r Hin).
        unfold attempt_ok. by rewrite Hpf, Hne.
      * intros [Hb Hg] Hle.
        apply (batches_post_retry Hpost j sid Hin); [|done].
        unfold attempt_ok. rewrite Hpf.
        destruct (is_success r) eqn:Hs; [|done].
        apply is_success_fields in Hs as [?|?]; done.
    + apply (batches_post_first Hpost).
    + intros j sid r Hin Hj Hfail Hpf Hne%is_success_fields.
      assert (attempt_ok process_func j sid = Some r) as Hok
        by (unfold attempt_ok; by rewrite Hpf, Hne).
      pose proof (batches_post_submitted_iff _ _ _ _ _ _ _ sid Hpost Hin) as Hiff.
      assert ((j, sid) ∈ submits tr) as Hsub by (apply Hiff; by split).
      split; [done|]. split.
      * by apply (batches_post_accepted Hpost j sid r Hsub).
      * apply invocations_rounds; [done|]. intros i. rewrite Hiff. split.
        -- intros [_ Hi]. destruct (decide (i < S j)%nat) as [|Hge]; [done|].
           rewrite (Hi j) in Hok by lia. done.
        -- intros Hi. split; [lia|]. intros i' Hi'. apply Hfail. lia.
  - destruct (convert_sra_ids_spec KNOWN w cfg fs sra_ids Horder_w Hsane)
      as (tr & out & fs' & Heq & Hpost).
    destruct (convert_post_cached _ _ _ _ _ _ _ _ p Horder_w Hpost Hp Hw)
      as (cache & -> & _ & Hcache & _).
    exists tr, out, cache. split; [done|].
    assert (∀ j sid r, (j, sid) ∈ submits tr →
              per_id_func KNOWN w sid j sid = Returned r →
              bioproject_id r ≠ "" ∨ geo_id r ≠ "" →
              out !! sid = Some r ∧ cache !! sid = Some r ∧
              ∀ j', (j < j')%nat → (j', sid) ∉ submits tr) as Hguarded.
    { intros j sid r Hin Hpf Hne%is_success_fields.
      destruct (convert_post_accepted _ _ _ _ _ _ _ _ j sid r Horder_w Hpost Hin)
        as [Hr Hlater].
      { unfold attempt_ok. by rewrite Hpf, Hne. }
      split; [done|]. split; [|done].
      apply (convert_post_submitted _ _ _ _ _ _ _ _ _ _ Horder_w Hpost) in Hin
        as (Hin & _ & Hk & _).
      destruct (Hcache sid Hin (or_introl Hk)) as [-> _]. done. }
    split; [exact Hguarded|].
    intros j sid r Hin Hst Hkind Hj Hfail Hpf Hne.
    assert ((j, sid) ∈ submits tr) as Hsub; [|split; [done|by apply Hguarded]].
    destruct (convert_post_submits _ _ _ _ _ _ _ _ Horder_w Hpost)
      as (t_srp & res_srp & t_erp & res_erp & srp_ids & erp_ids
          & Hps & Hpe & Hsubs & Hsrp & Herp & _).
    rewrite Hsubs, elem_of_app. unfold per_id_func in Hfail.
    destruct (is_srp sid) eqn:Hk.
    + left. apply (batches_post_submitted_iff _ _ _ _ _ _ _ sid Hps).
      * by apply Hsrp.
      * by split.
    + right. apply (batches_post_submitted_iff _ _ _ _ _ _ _ sid Hpe).
      * apply Herp. split; [done|]. split; [done|].
        unfold is_other in Hkind. rewrite Hk in Hkind.
        by apply negb_false_iff in Hkind.
      * by split.
Qed.

Lemma C10_partial_result_accepted_witness :
  (∃ tr results,
     process_in_batches elements (srp_func ∅ partial_world)
       (batch_size cached_config) (max_workers cached_config)
       (delay_between_batches cached_config) (max_retries cached_config)
       (retry_delay cached_config) (progress_callback cached_config) ["SRP1"]
     = (tr, inr results) ∧
     (∀ j sid r, (j, sid) ∈ submits tr →
        srp_func ∅ partial_world j sid = Returned r →
        (bioproject_id r ≠ "" ∨ geo_id r ≠ "" →
           results !! sid = Some r ∧
           ∀ j', (j < j')%nat → (j', sid) ∉ submits tr) ∧
        (bioproject_id r = "" ∧ geo_id r = "" →
           Z.of_nat (S j) ≤ max_retries cached_config → (S j, sid) ∈ submits tr)) ∧
     (∀ sid, sid ∈ ["SRP1"] → 0 ≤ max_retries cached_config →
             (O, sid) ∈ submits tr) ∧
     (∀ j sid r, sid ∈ ["SRP1"] → Z.of_nat j ≤ max_retries cached_config →
        (∀ i, (i < j)%nat → attempt_ok (srp_func ∅ partial_world) i sid = None) →
        srp_func ∅ partial_world j sid = Returned r →
        bioproject_id r ≠ "" ∨ geo_id r ≠ "" →
        (j, sid) ∈ submits tr ∧ results !! sid = Some r ∧
        invocations sid tr = S j)) ∧
  (∃ tr out cache,
     convert_sra_ids ∅ partial_world cached_config ∅ ["SRP1"]
     = (tr, inr (out, <["cache.json" := JsonObject cache]> ∅)) ∧
     (∀ j sid r, (j, sid) ∈ submits tr →
        per_id_func ∅ partial_world sid j sid = Returned r →
        bioproject_id r ≠ "" ∨ geo_id r ≠ "" →
        out !! sid = Some r ∧ cache !! sid = Some r ∧
        ∀ j', (j < j')%nat → (j', sid) ∉ submits tr) ∧
     (∀ j sid r, sid ∈ ["SRP1"] → stored ∅ cached_config ∅ sid = None →
        is_other sid = false → Z.of_nat j ≤ max_retries cached_config →
        (∀ i, (i < j)%nat →
              attempt_ok (per_id_func ∅ partial_world sid) i sid = None) →
        per_id_func ∅ partial_world sid j sid = Returned r →
        bioproject_id r ≠ "" ∨ geo_id r ≠ "" →
        (j, sid) ∈ submits tr ∧ out !! sid = Some r ∧ cache !! sid = Some r ∧
        ∀ j', (j < j')%nat → (j', sid) ∉ submits tr)).
Proof.
  apply (C10_partial_result_accepted elements (srp_func ∅ partial_world) ["SRP1"]
           ∅ partial_world cached_config ∅ ["SRP1"] "cache.json").
  - intros X. reflexivity.
  - intros X. reflexivity.
  - unfold sane_config, Qle. simpl. lia.
  - reflexivity.
  - reflexivity.
Defined.

(** The partial record of the witness above, computed: only the BioProject
    id was found, the record is returned and cached with its empty
    [geo_id], after a single submission. *)
Example partial_result_run :
  convert_sra_ids ∅ partial_world cached_config ∅ ["SRP1"]
  = ([Submit 0 "SRP1"; Progress 1],
     inr ({["SRP1" := mkResult "PRJNA1" ""]},
          {["cache.json" := JsonObject {["SRP1" := mkResult "PRJNA1" ""]}]})).
Proof. vm_compute. reflexivity. Qed.
